(** * NEXUS governance: proposal lifecycle and vote resolution

    A shallow embedding of the DAO governance routes of the NEXUS backend
    (the "DAO GOVERNANCE" part of the communities router):

    - [POST /:communityId/proposals]                    ([createProposal])
    - [POST /:communityId/proposals/:proposalId/vote]   ([castVote])
    - [GET  /:communityId/proposals]                    ([getProposals])

    The Prisma store is an explicit state [Db]; a handler is a computation
    in a state-and-exception monad [M] in which a [throw] keeps every write
    made before it (the handlers open no transaction).  JavaScript numbers
    are IEEE 754 binary64 values, modelled by Rocq's primitive floats.
    [new Date()] is an input of the handler, one argument per read of the
    clock, in milliseconds since the epoch. *)

From Stdlib Require Import ZArith Ascii PrimFloat Uint63.
From stdpp Require Import gmap strings list sorting.

Open Scope Z_scope.

(** ** JavaScript values and numbers *)

(** The JSON values a body field can carry (objects and arrays left out). *)
Inductive JsValue :=
| JUndefined
| JNull
| JBool (b : bool)
| JNum (n : Z)
| JStr (s : string).

Module Js.

(** The Number holding the integer [z]; exact for the 32-bit [Int]
    columns and the validated percentages this development uses it on. *)
Definition Number (z : Z) : float :=
  if z <? 0 then PrimFloat.opp (PrimFloat.of_uint63 (Uint63.of_Z (- z)))
  else PrimFloat.of_uint63 (Uint63.of_Z z).

(** [a >= b] on Numbers: false as soon as one side is NaN. *)
Definition ge (a b : float) : bool := PrimFloat.leb b a.

(** [(a / b) * 100], in the order the source evaluates it. *)
Definition percent (a b : Z) : float :=
  PrimFloat.mul (PrimFloat.div (Number a) (Number b)) (Number 100).

(** Truthiness, as the conditional operator and [!] see a value. *)
Definition truthy (v : JsValue) : bool :=
  match v with
  | JUndefined | JNull => false
  | JBool b => b
  | JNum n => negb (n =? 0)
  | JStr s => negb (String.eqb s "")
  end.

End Js.

(** ** The validation library

    [isBoolean] and [isInt] follow validator.js: the value is turned into a
    string and compared.  The format predicates on strings are an interface
    of the library, kept abstract. *)

Class ExpressValidator := {
  isUUID : string -> bool;
  isHexadecimal : string -> bool;
  trim : string -> string;
  isLength : Z -> Z -> string -> bool
}.

(** [isBoolean()] without options accepts the strings true, false, 1 and 0,
    hence also the booleans and the numbers 0 and 1. *)
Definition isBoolean (v : JsValue) : bool :=
  match v with
  | JBool _ => true
  | JNum n => (n =? 0) || (n =? 1)
  | JStr s =>
      String.eqb s "true" || String.eqb s "false"
      || String.eqb s "1" || String.eqb s "0"
  | JUndefined | JNull => false
  end.

(** [isInt({ min, max })] on a field carrying a JSON integer; a bound that
    the options leave out is [None]. *)
Definition isInt (min max : option Z) (v : option Z) : bool :=
  match v with
  | Some n =>
      from_option (fun lo => lo <=? n) true min
      && from_option (fun hi => n <=? hi) true max
  | None => false
  end.

(** [.optional()]: an absent field skips the rest of its chain. *)
Definition optional {A} (check : option A -> bool) (v : option A) : bool :=
  match v with
  | None => true
  | Some _ => check v
  end.

(** One validation chain: its message when the check fails. *)
Definition chain (ok : bool) (msg : string) : list string :=
  if ok then [] else [msg].

(** ** Data model (the Prisma models the routes use) *)

Inductive ProposalStatus := ACTIVE | PASSED | FAILED | EXECUTED.

Inductive VotingPower := EQUAL | TOKEN_WEIGHTED | NFT_WEIGHTED.

#[global] Instance ProposalStatus_eq_dec : EqDecision ProposalStatus.
Proof. solve_decision. Defined.

#[global] Instance VotingPower_eq_dec : EqDecision VotingPower.
Proof. solve_decision. Defined.

Record Role := { permissions : list string }.

Record CommunityMemberRole := { role : Role }.

Record CommunityMember := {
  joinedAt : Z;
  roles : list CommunityMemberRole
}.

Record Community := {
  memberCount : Z;
  votingPower : VotingPower
}.

(** A row of [proposal]; its [id] is the key of the table. *)
Record Proposal := {
  communityId : string;
  title : string;
  description : string;
  type : string;
  votingStartsAt : Z;
  votingEndsAt : Z;
  requiredQuorum : Z;
  passingThreshold : Z;
  gasRequired : bool;
  status : ProposalStatus;
  yesVotes : Z;
  noVotes : Z;
  totalVotes : Z;
  createdAt : Z
}.

(** A row of [proposalVote]. *)
Record ProposalVote := {
  proposalId : string;
  userId : string;
  vote : bool;
  weight : Z
}.

(** The tables: [proposal] and [community] by id, [communityMember] by its
    compound key [userId_communityId], [proposalVote] in insertion order. *)
Record Db := {
  proposal : gmap string Proposal;
  proposalVote : list ProposalVote;
  community : gmap string Community;
  communityMember : gmap (string * string) CommunityMember
}.

(** ** Exceptions and the handler monad *)

Inductive Thrown :=
| ApiError (statusCode : Z) (message : string) (errors : list string)
| PrismaClientKnownRequestError (code : string)
| PrismaClientValidationError
| TypeError.

(** The failures of the specification, as the routes raise them. *)
Definition ValidationError (errors : list string) : Thrown :=
  ApiError 400 "Validation failed" errors.
Definition ProposalNotFound : Thrown := ApiError 404 "Proposal not found" [].
Definition ProposalNotActive : Thrown := ApiError 400 "Proposal is not active" [].
Definition VotingWindowClosed : Thrown := ApiError 400 "Voting period has ended" [].
Definition DuplicateVote : Thrown :=
  ApiError 409 "You have already voted on this proposal" [].

(** Capability failures carry status 403, whatever their message. *)
Definition PermissionDenied (e : Thrown) : Prop :=
  match e with
  | ApiError 403 _ _ => True
  | _ => False
  end.

Definition M (A : Type) : Type := Db -> (Thrown + A) * Db.

Definition ret {A} (a : A) : M A := fun db => (inr a, db).

Definition throw {A} (e : Thrown) : M A := fun db => (inl e, db).

Definition bind {A B} (c : M A) (k : A -> M B) : M B :=
  fun db =>
    match c db with
    | (inl e, db') => (inl e, db')
    | (inr a, db') => k a db'
    end.

Notation "'let*' x := c 'in' k" := (bind c (fun x => k))
  (at level 10, x pattern, c at level 100, k at level 200).
Notation "'guard' c 'in' k" := (bind c (fun _ => k))
  (at level 10, c at level 100, k at level 200).

Definition gets {A} (f : Db -> A) : M A := fun db => (inr (f db), db).

Definition modify (f : Db -> Db) : M unit := fun db => (inr tt, f db).

(** [if (cond) throw e;] *)
Definition throwIf (cond : bool) (e : Thrown) : M unit :=
  if cond then throw e else ret tt.

(** ** Prisma client calls *)

(** [proposal.findUnique] with [include: { community: true, votes: { where:
    { userId } } }]. *)
Record ProposalWithRelations := {
  row : Proposal;
  communityOf : option Community;
  votes : list ProposalVote
}.

Definition votesOf (pid uid : string) (l : list ProposalVote) : list ProposalVote :=
  filter (fun v => proposalId v = pid /\ userId v = uid) l.

Definition proposal_findUnique (pid uid : string) : M (option ProposalWithRelations) :=
  gets (fun db =>
    match proposal db !! pid with
    | None => None
    | Some p =>
        Some {| row := p;
                communityOf := community db !! communityId p;
                votes := votesOf pid uid (proposalVote db) |}
    end).

Definition communityMember_findUnique (uid cid : string) : M (option CommunityMember) :=
  gets (fun db => communityMember db !! (uid, cid)).

(** Modelled from the spec: the [ProposalVote] model of the Prisma schema,
    whose [vote] column holds one of the two choices yes and no; the client
    refuses any other value before it reaches the table. *)
Definition proposalVote_create (pid uid : string) (v : JsValue) (w : Z) : M unit :=
  match v with
  | JBool b =>
      modify (fun db =>
        {| proposal := proposal db;
           proposalVote :=
             proposalVote db
             ++ [{| proposalId := pid; userId := uid; vote := b; weight := w |}];
           community := community db;
           communityMember := communityMember db |})
  | _ => throw PrismaClientValidationError
  end.

(** [proposal.update({ where: { id }, data })]: the updated row, or P2025
    when no row has this id. *)
Definition proposal_update (pid : string) (data : Proposal -> Proposal) : M Proposal :=
  fun db =>
    match proposal db !! pid with
    | None => (inl (PrismaClientKnownRequestError "P2025"), db)
    | Some p =>
        (inr (data p),
         {| proposal := <[pid := data p]> (proposal db);
            proposalVote := proposalVote db;
            community := community db;
            communityMember := communityMember db |})
    end.

(** The [data] arguments of the updates the vote route issues. *)
Definition incrementVotes (yes : bool) (w : Z) (p : Proposal) : Proposal :=
  {| communityId := communityId p; title := title p;
     description := description p; type := type p;
     votingStartsAt := votingStartsAt p; votingEndsAt := votingEndsAt p;
     requiredQuorum := requiredQuorum p; passingThreshold := passingThreshold p;
     gasRequired := gasRequired p; status := status p;
     yesVotes := if yes then yesVotes p + w else yesVotes p;
     noVotes := if yes then noVotes p else noVotes p + w;
     totalVotes := totalVotes p + w;
     createdAt := createdAt p |}.

Definition setStatus (s : ProposalStatus) (p : Proposal) : Proposal :=
  {| communityId := communityId p; title := title p;
     description := description p; type := type p;
     votingStartsAt := votingStartsAt p; votingEndsAt := votingEndsAt p;
     requiredQuorum := requiredQuorum p; passingThreshold := passingThreshold p;
     gasRequired := gasRequired p; status := s;
     yesVotes := yesVotes p; noVotes := noVotes p; totalVotes := totalVotes p;
     createdAt := createdAt p |}.

(** [membership.roles.some(mr => mr.role.permissions.includes(perm))] *)
Definition hasPermission (perm : string) (m : CommunityMember) : bool :=
  existsb (fun mr => bool_decide (perm ∈ permissions (role mr))) (roles m).

(** [proposal.create]: the columns the route gives. *)
Record ProposalData := {
  nd_communityId : string;
  nd_title : string;
  nd_description : string;
  nd_type : string;
  nd_votingStartsAt : Z;
  nd_votingEndsAt : Z;
  nd_requiredQuorum : Z;
  nd_passingThreshold : Z;
  nd_gasRequired : JsValue;
  nd_status : ProposalStatus
}.

(** What the store generates for a new row: its id and [createdAt]. *)
Record Generated := {
  newId : string;
  newCreatedAt : Z
}.

(** Modelled from the spec: the column defaults of the [Proposal] model in
    the Prisma schema; the route gives no value for the three tallies, which
    start at zero. *)
Definition defaultVotes : Z := 0.

(** [proposal.create]: a value of the wrong type for the Boolean column is
    refused by the client, a clash on the primary key is P2002, a
    [communityId] without its community is P2003. *)
Definition proposal_create (g : Generated) (d : ProposalData) : M Proposal :=
  fun db =>
    match nd_gasRequired d with
    | JBool gas =>
        if bool_decide (is_Some (proposal db !! newId g)) then
          (inl (PrismaClientKnownRequestError "P2002"), db)
        else if bool_decide (community db !! nd_communityId d = None) then
          (inl (PrismaClientKnownRequestError "P2003"), db)
        else
          let p :=
            {| communityId := nd_communityId d; title := nd_title d;
               description := nd_description d; type := nd_type d;
               votingStartsAt := nd_votingStartsAt d;
               votingEndsAt := nd_votingEndsAt d;
               requiredQuorum := nd_requiredQuorum d;
               passingThreshold := nd_passingThreshold d;
               gasRequired := gas; status := nd_status d;
               yesVotes := defaultVotes; noVotes := defaultVotes;
               totalVotes := defaultVotes;
               createdAt := newCreatedAt g |} in
          (inr p,
           {| proposal := <[newId g := p]> (proposal db);
              proposalVote := proposalVote db;
              community := community db;
              communityMember := communityMember db |})
    | _ => (inl PrismaClientValidationError, db)
    end.

Record ProposalRequest := {
  pr_user : string;                    (* req.user.id *)
  pr_communityId : string;             (* req.params.communityId *)
  pr_title : string;
  pr_description : string;
  pr_type : string;
  pr_votingDuration : option Z;
  pr_requiredQuorum : option Z;
  pr_passingThreshold : option Z;
  pr_gasRequired : option JsValue
}.

Record ProposalResponse := {
  created_id : string;
  created : Proposal;
  created_canVote : bool;
  created_hasVoted : bool;
  created_timeRemaining : Z
}.

(** A row of [proposal.findMany] with the caller's votes included. *)
Record ProposalListed := {
  l_id : string;
  l_row : Proposal;
  l_votes : list bool              (* select: { vote: true } *)
}.

(** [orderBy: { createdAt: 'desc' }] *)
Definition newerFirst (a b : string * Proposal) : Prop :=
  createdAt (snd b) <= createdAt (snd a).

#[global] Instance newerFirst_dec a b : Decision (newerFirst a b).
Proof. unfold newerFirst. apply _. Defined.

(** [let whereClause = { communityId }; if (status) whereClause.status =
    status;] *)
Definition whereClause (cid : string) (st : option ProposalStatus)
    (p : Proposal) : bool :=
  bool_decide (communityId p = cid)
  && from_option (fun s => bool_decide (status p = s)) true st.

(** [proposal.findMany({ where, include, orderBy, skip, take })] *)
Definition proposal_findMany (cid : string) (st : option ProposalStatus)
    (uid : string) (skip take : Z) : M (list ProposalListed) :=
  gets (fun db =>
    let matching :=
      List.filter (fun kp => whereClause cid st (snd kp))
        (map_to_list (proposal db)) in
    let page :=
      List.firstn (Z.to_nat take)
        (List.skipn (Z.to_nat skip) (merge_sort newerFirst matching)) in
    (fun kp =>
       {| l_id := fst kp;
          l_row := snd kp;
          l_votes := vote <$> votesOf (fst kp) uid (proposalVote db) |})
    <$> page).

Record ListRequest := {
  lr_user : string;                (* req.user.id *)
  lr_communityId : string;         (* req.params.communityId *)
  lr_status : option string;       (* req.query.status *)
  lr_page : option Z;
  lr_limit : option Z
}.

(** An element of the [proposals] array of the response: the row spread
    into the object, and the fields computed on top of it. *)
Record FormattedProposal := {
  f_id : string;
  f_proposal : Proposal;
  f_hasVoted : bool;
  f_userVote : option bool;
  f_timeRemaining : Z;
  f_isActive : bool;
  f_canVote : bool
}.

Record ListResponse := {
  proposals : list FormattedProposal;
  pg_page : Z;
  pg_limit : Z;
  pg_hasMore : bool
}.

Definition statusOfString (s : string) : option ProposalStatus :=
  if String.eqb s "ACTIVE" then Some ACTIVE
  else if String.eqb s "PASSED" then Some PASSED
  else if String.eqb s "FAILED" then Some FAILED
  else if String.eqb s "EXECUTED" then Some EXECUTED
  else None.

(** The callback of [proposals.map]; [now] is its [Date.now()].  The
    [participationRate] string of the response is left out. *)
Definition formatProposal (now : Z) (p : ProposalListed) : FormattedProposal :=
  let userVote := head (l_votes p) in
  let timeRemaining := Z.max 0 (votingEndsAt (l_row p) - now) in
  let isActive :=
    bool_decide (status (l_row p) = ACTIVE) && (0 <? timeRemaining) in
  {| f_id := l_id p;
     f_proposal := l_row p;
     f_hasVoted := bool_decide (is_Some userVote);
     (* userVote?.vote || null *)
     f_userVote := match userVote with Some true => Some true | _ => None end;
     f_timeRemaining := timeRemaining;
     f_isActive := isActive;
     f_canVote := isActive && negb (bool_decide (is_Some userVote)) |}.

(** ** POST /:communityId/proposals/:proposalId/vote *)

Record VoteRequest := {
  vr_user : string;                (* req.user.id *)
  vr_communityId : string;         (* req.params.communityId *)
  vr_proposalId : string;          (* req.params.proposalId *)
  vr_vote : JsValue;               (* req.body.vote *)
  vr_txHash : option string        (* req.body.txHash *)
}.

Record VoteResponse := {
  res_vote : JsValue;
  res_weight : Z;
  res_yesVotes : Z;
  res_noVotes : Z;
  res_totalVotes : Z;
  res_participationRate : float
}.

(** [let votingWeight = 1; if (TOKEN_WEIGHTED) votingWeight = 1; else if
    (NFT_WEIGHTED) votingWeight = 1;] *)
Definition votingWeight (vp : VotingPower) : Z :=
  let votingWeight := 1 in
  match vp with
  | TOKEN_WEIGHTED => 1
  | NFT_WEIGHTED => 1
  | EQUAL => votingWeight
  end.

(** [!txHash] *)
Definition noTxHash (h : option string) : bool :=
  match h with
  | None => true
  | Some s => String.eqb s ""
  end.

Section Routes.

Context `{EV : ExpressValidator}.

Definition voteValidation (req : VoteRequest) : list string :=
  chain (isUUID (vr_communityId req)) "Invalid community ID"
  ++ chain (isUUID (vr_proposalId req)) "Invalid proposal ID"
  ++ chain (isBoolean (vr_vote req)) "Vote must be true (yes) or false (no)"
  ++ chain (optional (fun h => from_option isHexadecimal false h) (vr_txHash req))
       "Invalid transaction hash".

(** The check that follows the two counter increments: [now2] is the
    clock read by the [else if]. *)
Definition resolveAfterVote (now2 : Z) (pid : string) (totalMembers : Z)
    (updatedProposal : Proposal) : M float :=
  let participationRate := Js.percent (totalVotes updatedProposal) totalMembers in
  guard
    (if Js.ge participationRate (Js.Number (requiredQuorum updatedProposal)) then
       let yesPercentage :=
         Js.percent (yesVotes updatedProposal) (totalVotes updatedProposal) in
       if Js.ge yesPercentage (Js.Number (passingThreshold updatedProposal)) then
         let* _ := proposal_update pid (setStatus PASSED) in ret tt
       else if now2 >? votingEndsAt updatedProposal then
         let* _ := proposal_update pid (setStatus FAILED) in ret tt
       else ret tt
     else ret tt)
  in ret participationRate.

(** The handler; [now1] is the clock read by the window guard, [now2] the
    one read while resolving.  Socket events, logging and the timestamp
    of the response are left out, and [participationRate] is returned as
    the Number it is before [toFixed]. *)
Definition castVote (now1 now2 : Z) (req : VoteRequest) : M VoteResponse :=
  let errors := voteValidation req in
  guard throwIf (negb (bool_decide (errors = []))) (ValidationError errors) in
  let communityId' := vr_communityId req in
  let proposalId' := vr_proposalId req in
  let vote' := vr_vote req in
  let txHash := vr_txHash req in
  let* found := proposal_findUnique proposalId' (vr_user req) in
  match found with
  | None => throw ProposalNotFound
  | Some proposal' =>
    guard throwIf (negb (bool_decide (communityId (row proposal') = communityId')))
            ProposalNotFound in
    guard throwIf (negb (bool_decide (status (row proposal') = ACTIVE)))
            ProposalNotActive in
    guard throwIf (now1 >? votingEndsAt (row proposal')) VotingWindowClosed in
    guard throwIf (0 <? Z.of_nat (length (votes proposal'))) DuplicateVote in
    let* membership := communityMember_findUnique (vr_user req) communityId' in
    match membership with
    | None => throw (ApiError 403 "You must be a member to vote" [])
    | Some membership' =>
      let canVote := hasPermission "VOTE" membership' in
      guard throwIf (negb canVote)
              (ApiError 403 "You do not have permission to vote" []) in
      guard throwIf (gasRequired (row proposal') && noTxHash txHash)
              (ApiError 400 "Transaction hash required for gas-enabled voting" []) in
      match communityOf proposal' with
      | None => throw TypeError
      | Some community' =>
        let votingWeight' := votingWeight (votingPower community') in
        guard proposalVote_create proposalId' (vr_user req) vote' votingWeight' in
        let* updatedProposal :=
          proposal_update proposalId' (incrementVotes (Js.truthy vote') votingWeight') in
        let totalMembers := memberCount community' in
        let* participationRate :=
          resolveAfterVote now2 proposalId' totalMembers updatedProposal in
        ret {| res_vote := vote';
               res_weight := votingWeight';
               res_yesVotes := yesVotes updatedProposal;
               res_noVotes := noVotes updatedProposal;
               res_totalVotes := totalVotes updatedProposal;
               res_participationRate := participationRate |}
      end
    end
  end.

(** *** POST /:communityId/proposals *)

Definition proposalValidation (req : ProposalRequest) : list string :=
  chain (isUUID (pr_communityId req)) "Invalid community ID"
  ++ chain (isLength 5 100 (trim (pr_title req)))
       "Title must be between 5 and 100 characters"
  ++ chain (isLength 20 2000 (trim (pr_description req)))
       "Description must be between 20 and 2000 characters"
  ++ chain (bool_decide (pr_type req ∈ ["FUNDING"; "GOVERNANCE"; "BOUNTY"; "GENERAL"]))
       "Invalid proposal type"
  ++ chain (isInt (Some 1) (Some 168) (pr_votingDuration req))
       "Voting duration must be between 1 and 168 hours"
  ++ chain (optional (isInt (Some 1) (Some 100)) (pr_requiredQuorum req))
       "Quorum must be between 1 and 100 percent"
  ++ chain (optional (isInt (Some 1) (Some 100)) (pr_passingThreshold req))
       "Passing threshold must be between 1 and 100 percent"
  ++ chain (optional (fun v => from_option isBoolean false v) (pr_gasRequired req))
       "Gas required must be boolean".

(** The handler; [now] is the clock read for [votingStartsAt], [g] what
    the store generates for the new row. *)
Definition createProposal (now : Z) (g : Generated) (req : ProposalRequest)
    : M ProposalResponse :=
  let errors := proposalValidation req in
  guard throwIf (negb (bool_decide (errors = []))) (ValidationError errors) in
  let communityId' := pr_communityId req in
  let title' := trim (pr_title req) in
  let description' := trim (pr_description req) in
  let type' := pr_type req in
  let votingDuration := default 0 (pr_votingDuration req) in
  let requiredQuorum' := default 50 (pr_requiredQuorum req) in
  let passingThreshold' := default 50 (pr_passingThreshold req) in
  let gasRequired' := default (JBool false) (pr_gasRequired req) in
  let* membership := communityMember_findUnique (pr_user req) communityId' in
  match membership with
  | None => throw (ApiError 403 "You must be a member to create proposals" [])
  | Some membership' =>
    let canCreateProposals := hasPermission "CREATE_PROPOSALS" membership' in
    guard throwIf (negb canCreateProposals)
            (ApiError 403 "You do not have permission to create proposals" []) in
    let votingStartsAt' := now in
    let votingEndsAt' := votingStartsAt' + votingDuration * 60 * 60 * 1000 in
    let* proposal' :=
      proposal_create g
        {| nd_communityId := communityId'; nd_title := title';
           nd_description := description'; nd_type := type';
           nd_votingStartsAt := votingStartsAt'; nd_votingEndsAt := votingEndsAt';
           nd_requiredQuorum := requiredQuorum';
           nd_passingThreshold := passingThreshold';
           nd_gasRequired := gasRequired'; nd_status := ACTIVE |} in
    ret {| created_id := newId g;
           created := proposal';
           created_canVote := true;
           created_hasVoted := false;
           created_timeRemaining := votingDuration * 60 * 60 * 1000 |}
  end.

(** *** GET /:communityId/proposals *)

Definition listValidation (req : ListRequest) : list string :=
  chain (isUUID (lr_communityId req)) "Invalid community ID"
  ++ chain (optional (fun v => bool_decide (is_Some (v ≫= statusOfString)))
              (lr_status req)) "Invalid value"
  ++ chain (optional (isInt (Some 1) None) (lr_page req)) "Invalid value"
  ++ chain (optional (isInt (Some 1) (Some 50)) (lr_limit req)) "Invalid value".

(** The handler; [clock i] is the clock read while the [i]-th row of the
    page is formatted. *)
Definition getProposals (clock : nat -> Z) (req : ListRequest) : M ListResponse :=
  let errors := listValidation req in
  guard throwIf (negb (bool_decide (errors = []))) (ValidationError errors) in
  let communityId' := lr_communityId req in
  let status' := lr_status req in
  let page := default 1 (lr_page req) in
  let limit := default 10 (lr_limit req) in
  let skip := (page - 1) * limit in
  let* membership := communityMember_findUnique (lr_user req) communityId' in
  match membership with
  | None => throw (ApiError 403 "You must be a member to view proposals" [])
  | Some _ =>
    let* proposals :=
      proposal_findMany communityId' (status' ≫= statusOfString) (lr_user req)
        skip limit in
    let formattedProposals :=
      imap (fun i p => formatProposal (clock i) p) proposals in
    ret {| proposals := formattedProposals;
           pg_page := page;
           pg_limit := limit;
           pg_hasMore := bool_decide (Z.of_nat (length proposals) = limit) |}
  end.

End Routes.

(** ** The resolution policy of the specification *)

Module Spec.

(** The reference function [resolve] of the specification (its section
    4.3), branch for branch as its pseudo-code has them; the divisions and
    comparisons are those of the Numbers of the source. *)
Definition resolve (now : Z) (memberCount : Z) (p : Proposal) : ProposalStatus :=
  let participationPct := Js.percent (totalVotes p) memberCount in
  if Js.ge participationPct (Js.Number (requiredQuorum p)) then
    let yesPct := Js.percent (yesVotes p) (totalVotes p) in
    if Js.ge yesPct (Js.Number (passingThreshold p)) then PASSED
    else if now >? votingEndsAt p then FAILED
    else ACTIVE
  else if now >? votingEndsAt p then FAILED
  else ACTIVE.

End Spec.

(** ** What a vote does to the store *)

(** The row the vote route leaves behind: the incremented row, with the
    status its resolution check writes, if it writes one. *)
Definition resolved (now2 : Z) (totalMembers : Z) (p : Proposal) : Proposal :=
  if Js.ge (Js.percent (totalVotes p) totalMembers) (Js.Number (requiredQuorum p)) then
    if Js.ge (Js.percent (yesVotes p) (totalVotes p)) (Js.Number (passingThreshold p))
    then setStatus PASSED p
    else if now2 >? votingEndsAt p then setStatus FAILED p
    else p
  else p.

Definition newVote (req : VoteRequest) (b : bool) (w : Z) : ProposalVote :=
  {| proposalId := vr_proposalId req; userId := vr_user req; vote := b; weight := w |}.

(** The store after an accepted vote [b] of weight [w] on the row [p]. *)
Definition voted (now2 : Z) (req : VoteRequest) (p : Proposal) (c : Community)
    (b : bool) (db : Db) : Db :=
  let w := votingWeight (votingPower c) in
  {| proposal :=
       <[vr_proposalId req := resolved now2 (memberCount c) (incrementVotes b w p)]>
         (proposal db);
     proposalVote := proposalVote db ++ [newVote req b w];
     community := community db;
     communityMember := communityMember db |}.

Definition hasVoted (pid uid : string) (db : Db) : Prop :=
  votesOf pid uid (proposalVote db) <> [].

(** The engine's operations as a step relation; [step_other] stands for
    the remaining routes, which leave both governance tables alone. *)
Inductive step `{EV : ExpressValidator} : Db -> Db -> Prop :=
| step_create now g req db :
    step db (snd (createProposal now g req db))
| step_vote now1 now2 req db :
    step db (snd (castVote now1 now2 req db))
| step_list clock req db :
    step db (snd (getProposals clock req db))
| step_other db db' :
    proposal db' = proposal db ->
    proposalVote db' = proposalVote db ->
    step db db'.

(** Every condition under which the vote route records a vote. *)
Record Accepted `{EV : ExpressValidator} (now1 : Z) (req : VoteRequest) (db : Db)
    (p : Proposal) (c : Community) (b : bool) : Prop := {
  acc_valid : voteValidation req = [];
  acc_found : proposal db !! vr_proposalId req = Some p;
  acc_route : communityId p = vr_communityId req;
  acc_active : status p = ACTIVE;
  acc_window : now1 <= votingEndsAt p;
  acc_first : votesOf (vr_proposalId req) (vr_user req) (proposalVote db) = [];
  acc_member : exists m,
      communityMember db !! (vr_user req, vr_communityId req) = Some m
      /\ hasPermission "VOTE" m = true;
  acc_gas : gasRequired p && noTxHash (vr_txHash req) = false;
  acc_community : community db !! communityId p = Some c;
  acc_choice : vr_vote req = JBool b
}.

(** Tally invariant: the three counters of every row. *)
Definition TallyInv (db : Db) : Prop :=
  forall pid p, proposal db !! pid = Some p ->
    yesVotes p + noVotes p = totalVotes p
    /\ 0 <= yesVotes p /\ 0 <= noVotes p /\ 0 <= totalVotes p.

(** No counter of a row of [db] is smaller in [db'], and no row is lost. *)
Definition TallyGrows (db db' : Db) : Prop :=
  forall pid p, proposal db !! pid = Some p ->
    exists p', proposal db' !! pid = Some p'
      /\ yesVotes p <= yesVotes p' /\ noVotes p <= noVotes p'
      /\ totalVotes p <= totalVotes p'.

(** Forward-only status changes. *)
Definition forward (s s' : ProposalStatus) : Prop :=
  s' = s \/ (s = ACTIVE /\ (s' = PASSED \/ s' = FAILED)).

Definition StatusForward (db db' : Db) : Prop :=
  forall pid p, proposal db !! pid = Some p ->
    exists p', proposal db' !! pid = Some p' /\ forward (status p) (status p').

(** The ledger holds at most one vote per (proposal, voter) pair. *)
Definition OneVoteEach (db : Db) : Prop :=
  NoDup ((fun v => (proposalId v, userId v)) <$> proposalVote db).

(** The votes recorded on a proposal. *)
Definition votesOn (pid : string) (db : Db) : list ProposalVote :=
  filter (fun v => proposalId v = pid) (proposalVote db).

(** Every vote has weight one and belongs to a row, and the total of a row
    counts its votes. *)
Definition CountInv (db : Db) : Prop :=
  (forall v, v ∈ proposalVote db ->
     weight v = 1 /\ is_Some (proposal db !! proposalId v))
  /\ (forall pid p, proposal db !! pid = Some p ->
        totalVotes p = Z.of_nat (length (votesOn pid db))).

(** The guards of the vote route, in its order. *)
Definition admission `{EV : ExpressValidator} (now1 : Z) (req : VoteRequest) (db : Db)
    : Thrown + Proposal * Community * bool :=
  if negb (bool_decide (voteValidation req = [])) then
    inl (ValidationError (voteValidation req))
  else
    match proposal db !! vr_proposalId req with
    | None => inl ProposalNotFound
    | Some p =>
      if negb (bool_decide (communityId p = vr_communityId req)) then
        inl ProposalNotFound
      else if negb (bool_decide (status p = ACTIVE)) then inl ProposalNotActive
      else if now1 >? votingEndsAt p then inl VotingWindowClosed
      else if 0 <? Z.of_nat (length (votesOf (vr_proposalId req) (vr_user req)
                                         (proposalVote db)))
      then inl DuplicateVote
      else
        match communityMember db !! (vr_user req, vr_communityId req) with
        | None => inl (ApiError 403 "You must be a member to vote" [])
        | Some m =>
          if negb (hasPermission "VOTE" m) then
            inl (ApiError 403 "You do not have permission to vote" [])
          else if gasRequired p && noTxHash (vr_txHash req) then
            inl (ApiError 400 "Transaction hash required for gas-enabled voting" [])
          else
            match community db !! communityId p, vr_vote req with
            | None, _ => inl TypeError
            | Some c, JBool b => inr (p, c, b)
            | Some _, _ => inl PrismaClientValidationError
            end
        end
    end.

Definition response (req : VoteRequest) (p : Proposal) (c : Community) (b : bool)
    : VoteResponse :=
  let w := votingWeight (votingPower c) in
  {| res_vote := JBool b;
     res_weight := w;
     res_yesVotes := yesVotes (incrementVotes b w p);
     res_noVotes := noVotes (incrementVotes b w p);
     res_totalVotes := totalVotes (incrementVotes b w p);
     res_participationRate :=
       Js.percent (totalVotes (incrementVotes b w p)) (memberCount c) |}.

(** The row the create route stores. *)
Definition newRow (now : Z) (g : Generated) (req : ProposalRequest) (gas : bool)
    `{EV : ExpressValidator} : Proposal :=
  {| communityId := pr_communityId req;
     title := trim (pr_title req);
     description := trim (pr_description req);
     type := pr_type req;
     votingStartsAt := now;
     votingEndsAt := now + default 0 (pr_votingDuration req) * 60 * 60 * 1000;
     requiredQuorum := default 50 (pr_requiredQuorum req);
     passingThreshold := default 50 (pr_passingThreshold req);
     gasRequired := gas;
     status := ACTIVE;
     yesVotes := defaultVotes; noVotes := defaultVotes; totalVotes := defaultVotes;
     createdAt := newCreatedAt g |}.

(** The guards of the create route, in its order. *)
Definition creation `{EV : ExpressValidator} (now : Z) (g : Generated)
    (req : ProposalRequest) (db : Db) : Thrown + Proposal :=
  if negb (bool_decide (proposalValidation req = [])) then
    inl (ValidationError (proposalValidation req))
  else
    match communityMember db !! (pr_user req, pr_communityId req) with
    | None => inl (ApiError 403 "You must be a member to create proposals" [])
    | Some m =>
      if negb (hasPermission "CREATE_PROPOSALS" m) then
        inl (ApiError 403 "You do not have permission to create proposals" [])
      else
        match default (JBool false) (pr_gasRequired req) with
        | JBool gas =>
          if bool_decide (is_Some (proposal db !! newId g)) then
            inl (PrismaClientKnownRequestError "P2002")
          else if bool_decide (community db !! pr_communityId req = None) then
            inl (PrismaClientKnownRequestError "P2003")
          else inr (newRow now g req gas)
        | _ => inl PrismaClientValidationError
        end
    end.

(** The store after the row [p] was created under the id [newId g]. *)
Definition stored (g : Generated) (p : Proposal) (db : Db) : Db :=
  {| proposal := <[newId g := p]> (proposal db);
     proposalVote := proposalVote db;
     community := community db;
     communityMember := communityMember db |}.

(** A field that carries an integer outside [[lo, hi]]. *)
Definition outside (lo hi : Z) (v : option Z) : Prop :=
  exists n, v = Some n /\ (n < lo \/ hi < n).

(** InvalidRange: the validation failure that carries the message of the
    duration, quorum or threshold chain. *)
Definition InvalidRange (e : Thrown) : Prop :=
  exists errors,
    e = ValidationError errors
    /\ ("Voting duration must be between 1 and 168 hours" ∈ errors
        \/ "Quorum must be between 1 and 100 percent" ∈ errors
        \/ "Passing threshold must be between 1 and 100 percent" ∈ errors).

(** A sequence of votes, each cast on the store the one before left; [None]
    as soon as one of them fails. *)
Fixpoint castVotes `{EV : ExpressValidator} (calls : list (Z * Z * VoteRequest))
    (db : Db) : option Db :=
  match calls with
  | [] => Some db
  | (now1, now2, req) :: rest =>
      match castVote now1 now2 req db with
      | (inr _, db') => castVotes rest db'
      | (inl _, _) => None
      end
  end.

(** ** A validator instance and a small community, for the examples *)

Definition isHexDigit (a : ascii) : bool :=
  let n := Z.of_N (Ascii.N_of_ascii a) in
  ((48 <=? n) && (n <=? 57)) || ((65 <=? n) && (n <=? 70))
  || ((97 <=? n) && (n <=? 102)).

(** The shape 8-4-4-4-12 of a UUID, from position [i] on. *)
Fixpoint uuidShape (i : nat) (s : string) : bool :=
  match s with
  | EmptyString => Nat.eqb i 36
  | String a rest =>
      (if bool_decide (i ∈ [8; 13; 18; 23]%nat) then Ascii.eqb a "-"%char
       else isHexDigit a)
      && uuidShape (S i) rest
  end.

Fixpoint allHex (s : string) : bool :=
  match s with
  | EmptyString => true
  | String a rest => isHexDigit a && allHex rest
  end.

Fixpoint dropSpaces (s : string) : string :=
  match s with
  | EmptyString => EmptyString
  | String a rest => if Ascii.is_space a then dropSpaces rest else s
  end.

(** The digits of a hexadecimal string: what follows the prefix 0x or 0h,
    if it has one. *)
Definition hexDigits (s : string) : string :=
  match s with
  | String a (String b rest) =>
      if Ascii.eqb a "0"
         && (Ascii.eqb b "x" || Ascii.eqb b "X" || Ascii.eqb b "h" || Ascii.eqb b "H")
      then rest else s
  | _ => s
  end.

Definition asciiValidator : ExpressValidator :=
  {| isUUID := uuidShape 0;
     isHexadecimal := fun s =>
       negb (String.eqb (hexDigits s) "") && allHex (hexDigits s);
     trim := fun s => String.rev (dropSpaces (String.rev (dropSpaces s)));
     isLength := fun lo hi s =>
       (lo <=? Z.of_nat (String.length s)) && (Z.of_nat (String.length s) <=? hi) |}.

Definition ex_community : string := "11111111-1111-4111-8111-111111111111".
Definition ex_proposal : string := "22222222-2222-4222-8222-222222222222".
Definition ex_user (n : string) : string :=
  String.append "aaaaaaaa-aaaa-4aaa-8aaa-00000000000" n.

(** The roles the community route creates: Admin and Member. *)
Definition ex_admin : CommunityMember :=
  {| joinedAt := 0;
     roles := [ {| role := {| permissions :=
         ["MANAGE_COMMUNITY"; "MANAGE_MEMBERS"; "CREATE_PROPOSALS"; "MANAGE_ROLES"] |} |} ] |}.

Definition ex_member : CommunityMember :=
  {| joinedAt := 0;
     roles := [ {| role := {| permissions := ["POST"; "COMMENT"; "VOTE"] |} |} ] |}.

(** One hour of voting from time 0, quorum 50, threshold 60. *)
Definition ex_row : Proposal :=
  {| communityId := ex_community; title := "Fund the archive";
     description := "Pay for one more year of hosting"; type := "FUNDING";
     votingStartsAt := 0; votingEndsAt := 3600000;
     requiredQuorum := 50; passingThreshold := 60; gasRequired := false;
     status := ACTIVE; yesVotes := 0; noVotes := 0; totalVotes := 0;
     createdAt := 0 |}.

(** Ten members, six of them named; the proposal has no vote yet. *)
Definition ex_db : Db :=
  {| proposal := {[ ex_proposal := ex_row ]};
     proposalVote := [];
     community := {[ ex_community := {| memberCount := 10; votingPower := EQUAL |} ]};
     communityMember :=
       <[(ex_user "0", ex_community) := ex_admin]>
         (list_to_map
            ((fun n => ((ex_user n, ex_community), ex_member))
               <$> ["1"; "2"; "3"; "4"; "5"; "6"])) |}.

Definition ex_vote (n : string) (v : JsValue) : VoteRequest :=
  {| vr_user := ex_user n; vr_communityId := ex_community;
     vr_proposalId := ex_proposal; vr_vote := v; vr_txHash := None |}.

(** Yes votes of the given members, all cast at time 1000. *)
Definition ex_yes (ns : list string) : list (Z * Z * VoteRequest) :=
  (fun n => (1000, 1000, ex_vote n (JBool true))) <$> ns.

(** The store after two, and after five, yes votes. *)
Definition ex_two : Db :=
  default ex_db (castVotes (EV:=asciiValidator) (ex_yes ["1"; "2"]) ex_db).

Definition ex_passed : Db :=
  default ex_db
    (castVotes (EV:=asciiValidator) (ex_yes ["1"; "2"; "3"; "4"; "5"]) ex_db).

Definition ex_list : ListRequest :=
  {| lr_user := ex_user "1"; lr_communityId := ex_community;
     lr_status := None; lr_page := None; lr_limit := None |}.

Definition ex_create : ProposalRequest :=
  {| pr_user := ex_user "0"; pr_communityId := ex_community;
     pr_title := "  Plant trees  ";
     pr_description := "Plant one tree for every member";
     pr_type := "GENERAL";
     pr_votingDuration := Some 24;
     pr_requiredQuorum := None;
     pr_passingThreshold := None;
     pr_gasRequired := None |}.

Definition ex_generated : Generated :=
  {| newId := "33333333-3333-4333-8333-333333333333"; newCreatedAt := 5000 |}.


(** * Around the governance routes

    The rest of this development follows the requests beyond the three
    governance routes: the error middleware that answers what a route
    throws, the wallet login, the request limiter, and the routes that
    create and join the communities whose memberships the governance routes
    check. *)

From stdpp Require Import pretty.

Open Scope Z_scope.

(** ** The error middleware ([errorHandler])

    Every route hands what it catches to [next]; the middleware turns it into
    the status and the body of the answer. *)

#[global] Instance JsValue_eq_dec : EqDecision JsValue.
Proof. solve_decision. Defined.

(** [s.includes(sub)] *)
Fixpoint includes (sub s : string) : bool :=
  String.prefix sub s
  || match s with
     | EmptyString => false
     | String _ rest => includes sub rest
     end.

(** An object among the values of [err.errors]: [msg] as the validation
    library fills it, [message] as [val.message] reads it, which may be any
    value. *)
Record ErrorItem := {
  item_msg : option string;
  item_message : JsValue
}.

#[global] Instance ErrorItem_eq_dec : EqDecision ErrorItem.
Proof. solve_decision. Defined.

(** A value of [err.errors]: a primitive, [null] and [undefined] included,
    or an object. *)
Inductive ErrorValue :=
| Primitive (v : JsValue)
| Object (item : ErrorItem).

#[global] Instance ErrorValue_eq_dec : EqDecision ErrorValue.
Proof. solve_decision. Defined.

(** The [errors] of an error: the values it was thrown with, or the messages
    the middleware extracted from them. *)
Inductive Details :=
| Items (l : list ErrorValue)
| Messages (l : list JsValue).

(** A thrown value, by the properties the middleware reads: [name] when it
    is a string (the rules only compare it with strings); [code], [status]
    and [message] as any primitive value, [undefined] when absent;
    [statusCode] when the value carries an integer under that name as a
    property of its own, which the copy [{ ...err }] keeps; [errors], also a
    property of its own, as the values of the object or array it holds,
    [None] when it is [null] or [undefined]; [stack] when it is a string. *)
Record JsError := {
  e_name : option string;
  e_code : JsValue;
  e_status : JsValue;
  e_statusCode : option Z;
  e_message : JsValue;
  e_errors : option (list ErrorValue);
  e_stack : option string
}.

(** The local [error] of the middleware: a copy of the thrown value, or the
    [ApiError] a rule put in its place. *)
Record ErrorView := {
  v_statusCode : option Z;
  v_message : option string;
  v_errors : option Details
}.

(** The class [ApiError] of [utils/errors]: its constructor keeps the status
    code and the message it is given; [noErrors] is what it leaves in
    [errors] when called without a third argument, [apiName] the [name] of
    its instances.  The class of the sources leaves [null] in [errors] and
    sets no name, so that its instances are named Error: this is
    [ex_apiError] below.  The middleware is stated for any such class. *)
Class ApiErrorClass := {
  noErrors : option (list ErrorValue);
  apiName : option string
}.

(** [new ApiError(statusCode, message)] and [new ApiError(statusCode,
    message, errors)], as the middleware goes on reading them. *)
Definition newApiError `{ApiErrorClass} (statusCode : Z) (message : string) : ErrorView :=
  {| v_statusCode := Some statusCode; v_message := Some message;
     v_errors := Items <$> noErrors |}.

Definition newApiErrorWith (statusCode : Z) (message : string)
    (errors : Details) : ErrorView :=
  {| v_statusCode := Some statusCode; v_message := Some message;
     v_errors := Some errors |}.

(** What the middleware reads of the process and of the request. *)
Record Env := {
  NODE_ENV : option string;
  requestId : option string
}.

Record ErrorResponse := {
  r_status : Z;
  r_message : string;
  r_details : option Details;
  r_stack : option string;
  r_requestId : option string;
  r_hint : option string;
  r_requiresWeb3 : bool;
  r_retryAfter : option string;
  r_securityEvent : bool             (* logger.logSecurityEvent was called *)
}.

Definition hasName (err : JsError) (n : string) : bool :=
  bool_decide (e_name err = Some n).

Definition hasCode (err : JsError) (c : JsValue) : bool :=
  bool_decide (e_code err = c).

(** The message of the error when it is a string. *)
Definition text (v : JsValue) : option string :=
  match v with
  | JStr m => Some m
  | _ => None
  end.

(** [err.message && err.message.includes(sub)] throws when the message is
    truthy and has no method [includes]: among the primitive values, when it
    is not a string. *)
Definition notIncludable (v : JsValue) : bool :=
  Js.truthy v && negb (bool_decide (is_Some (text v))).

(** [err.message && err.message.includes(sub)], when it does not throw. *)
Definition messageIncludes (err : JsError) (sub : string) : bool :=
  match e_message err with
  | JStr m => negb (String.eqb m "") && includes sub m
  | _ => false
  end.

(** [val.message] on a value of [err.errors]. *)
Definition messageOf (val : ErrorValue) : Thrown + JsValue :=
  match val with
  | Primitive JNull | Primitive JUndefined => inl TypeError
  | Primitive _ => inr JUndefined
  | Object item => inr (item_message item)
  end.

(** [Object.values(errors).map(val => val.message)] *)
Fixpoint messagesOf (values : list ErrorValue) : Thrown + list JsValue :=
  match values with
  | [] => inr []
  | val :: rest =>
      match messageOf val with
      | inl thrown => inl thrown
      | inr message =>
          match messagesOf rest with
          | inl thrown => inl thrown
          | inr messages => inr (message :: messages)
          end
      end
  end.

Definition extractMessages (errors : option (list ErrorValue))
    : Thrown + list JsValue :=
  match errors with
  | None => inl TypeError                 (* Object.values(undefined) *)
  | Some values => messagesOf values
  end.

(** [x || fallback] on a string that may be undefined. *)
Definition orElse (x : option string) (fallback : string) : string :=
  match x with
  | Some s => if String.eqb s "" then fallback else s
  | None => fallback
  end.

(** The rules of the middleware, in its order: each [if] that holds puts a
    new [ApiError] in place of [error], so the last one that holds decides.
    Two rules can throw: the third one, on the [errors] of a
    [ValidationError], and the first of those that search the message. *)
Definition rewriteError `{ApiErrorClass} (err : JsError) : Thrown + ErrorView :=
  let error :=
    {| v_statusCode := e_statusCode err;
       v_message := text (e_message err);
       v_errors := Items <$> e_errors err |} in
  let error :=
    if hasName err "CastError" then newApiError 404 "Resource not found"
    else error in
  let error :=
    if hasCode err (JNum 11000) then
      newApiError 400 "Duplicate field value entered"
    else error in
  match
    if hasName err "ValidationError" then
      match extractMessages (e_errors err) with
      | inl thrown => inl thrown
      | inr message =>
          inr (newApiErrorWith 400 "Validation Error" (Messages message))
      end
    else inr error
  with
  | inl thrown => inl thrown
  | inr error =>
  let error :=
    if hasCode err (JStr "P2002") then
      newApiError 409 "Unique constraint violation"
    else error in
  let error :=
    if hasCode err (JStr "P2025") then newApiError 404 "Record not found"
    else error in
  let error :=
    if hasName err "JsonWebTokenError" then newApiError 401 "Invalid token"
    else error in
  let error :=
    if hasName err "TokenExpiredError" then newApiError 401 "Token expired"
    else error in
  let error :=
    if hasCode err (JStr "LIMIT_FILE_SIZE") then newApiError 413 "File too large"
    else error in
  let error :=
    if hasCode err (JStr "LIMIT_FILE_COUNT") then newApiError 413 "Too many files"
    else error in
  if notIncludable (e_message err) then
    inl TypeError                  (* err.message.includes is not a function *)
  else
  let error :=
    if messageIncludes err "insufficient funds" then
      newApiError 402 "Insufficient funds for blockchain transaction"
    else error in
  let error :=
    if messageIncludes err "nonce too low" then
      newApiError 409 "Transaction nonce error. Please try again"
    else error in
  let error :=
    if messageIncludes err "gas required exceeds allowance" then
      newApiError 413 "Transaction requires too much gas"
    else error in
  let error :=
    if bool_decide (e_status err = JNum 429) then
      newApiError 429 (orElse (text (e_message err)) "Too many requests")
    else error in
  inr error
  end.

(** [error.statusCode || 500] *)
Definition statusOf (error : ErrorView) : Z :=
  match v_statusCode error with
  | Some c => if c =? 0 then 500 else c
  | None => 500
  end.

(** The hint that goes with a status, and the two fields that go with some
    of the hints. *)
Definition hintOf (statusCode : Z) (message : string) : option string :=
  if statusCode =? 401 then Some "Please check your authentication token"
  else if statusCode =? 403 then
    if includes "Web3" message then
      Some "Connect your Web3 wallet to perform blockchain operations"
    else Some "You do not have permission to perform this action"
  else if statusCode =? 404 then Some "The requested resource was not found"
  else if statusCode =? 409 then
    Some "This resource already exists or there is a conflict"
  else if statusCode =? 413 then Some "Request payload is too large"
  else if statusCode =? 422 then Some "The request data is invalid"
  else if statusCode =? 429 then Some "You are making requests too quickly"
  else if 500 <=? statusCode then
    Some "An internal server error occurred. Please try again later."
  else None.

(** The middleware; logging and the fixed security headers are left out,
    but for the flag that says whether a security event was logged. *)
Definition errorHandler `{ApiErrorClass} (env : Env) (err : JsError)
    : Thrown + ErrorResponse :=
  match rewriteError err with
  | inl thrown => inl thrown
  | inr error =>
    let statusCode := statusOf error in
    let message := orElse (v_message error) "Internal Server Error" in
    let development := bool_decide (NODE_ENV env = Some "development") in
    let production := bool_decide (NODE_ENV env = Some "production") in
    inr {| r_status := statusCode;
           r_message :=
             if (500 <=? statusCode) && production then "Internal Server Error"
             else message;
           r_details := v_errors error;
           r_stack :=
             if development && negb ((500 <=? statusCode) && production)
             then e_stack err else None;
           r_requestId :=
             match requestId env with
             | Some i => if String.eqb i "" then None else Some i
             | None => None
             end;
           r_hint := hintOf statusCode message;
           r_requiresWeb3 := (statusCode =? 403) && includes "Web3" message;
           r_retryAfter := if statusCode =? 429 then Some "15 minutes" else None;
           r_securityEvent := (statusCode =? 401) || (statusCode =? 403) |}
  end.

(** An exception of the routes as the middleware receives it.  The name,
    the message and the stack of the exceptions that are not [ApiError]s are
    those of the libraries that throw them, and are arguments here with the
    stack of the [ApiError]. *)
Record Thrower := {
  libName : option string;
  libMessage : option string;
  stackTrace : option string
}.

Definition thrownError `{ApiErrorClass} (t : Thrower) (e : Thrown) : JsError :=
  match e with
  | ApiError statusCode message errors =>
      {| e_name := apiName; e_code := JUndefined; e_status := JUndefined;
         e_statusCode := Some statusCode; e_message := JStr message;
         e_errors :=
           if bool_decide (errors = []) then noErrors
           else Some ((fun m => Object {| item_msg := Some m;
                                          item_message := JUndefined |})
                        <$> errors);
         e_stack := stackTrace t |}
  | PrismaClientKnownRequestError code =>
      {| e_name := libName t; e_code := JStr code; e_status := JUndefined;
         e_statusCode := None;
         e_message := from_option JStr JUndefined (libMessage t);
         e_errors := None;
         e_stack := stackTrace t |}
  | PrismaClientValidationError | TypeError =>
      {| e_name := libName t; e_code := JUndefined; e_status := JUndefined;
         e_statusCode := None;
         e_message := from_option JStr JUndefined (libMessage t);
         e_errors := None;
         e_stack := stackTrace t |}
  end.

(** The rule that decides, read from the last one to the first. *)
Definition decidingStatus (err : JsError) : Z :=
  if bool_decide (e_status err = JNum 429) then 429
  else if messageIncludes err "gas required exceeds allowance" then 413
  else if messageIncludes err "nonce too low" then 409
  else if messageIncludes err "insufficient funds" then 402
  else if hasCode err (JStr "LIMIT_FILE_COUNT") then 413
  else if hasCode err (JStr "LIMIT_FILE_SIZE") then 413
  else if hasName err "TokenExpiredError" then 401
  else if hasName err "JsonWebTokenError" then 401
  else if hasCode err (JStr "P2025") then 404
  else if hasCode err (JStr "P2002") then 409
  else if hasName err "ValidationError" then 400
  else if hasCode err (JNum 11000) then 400
  else if hasName err "CastError" then 404
  else match e_statusCode err with
       | Some c => if c =? 0 then 500 else c
       | None => 500
       end.

(** No rule of the middleware applies to the error. *)
Definition noRule (err : JsError) : bool :=
  negb (hasName err "CastError") && negb (hasCode err (JNum 11000))
  && negb (hasName err "ValidationError")
  && negb (hasCode err (JStr "P2002")) && negb (hasCode err (JStr "P2025"))
  && negb (hasName err "JsonWebTokenError") && negb (hasName err "TokenExpiredError")
  && negb (hasCode err (JStr "LIMIT_FILE_SIZE"))
  && negb (hasCode err (JStr "LIMIT_FILE_COUNT"))
  && negb (messageIncludes err "insufficient funds")
  && negb (messageIncludes err "nonce too low")
  && negb (messageIncludes err "gas required exceeds allowance")
  && negb (bool_decide (e_status err = JNum 429)).

(** A name none of the rules of the middleware looks for. *)
Definition ordinaryName (n : option string) : Prop :=
  n <> Some "CastError" /\ n <> Some "ValidationError"
  /\ n <> Some "JsonWebTokenError" /\ n <> Some "TokenExpiredError".

(** [e] is thrown by one of the three governance routes. *)
Definition governanceFailure `{EV : ExpressValidator} (e : Thrown) : Prop :=
  (exists now1 now2 req db db', castVote now1 now2 req db = (inl e, db'))
  \/ (exists now g req db db', createProposal now g req db = (inl e, db'))
  \/ (exists clock req db db', getProposals clock req db = (inl e, db')).

(** The [ApiError]s of the governance routes: their status codes and
    messages. *)
Definition governanceErrors : list (Z * string) :=
  [ (400, "Validation failed");
    (404, "Proposal not found");
    (400, "Proposal is not active");
    (400, "Voting period has ended");
    (409, "You have already voted on this proposal");
    (403, "You must be a member to vote");
    (403, "You do not have permission to vote");
    (400, "Transaction hash required for gas-enabled voting");
    (403, "You must be a member to create proposals");
    (403, "You do not have permission to create proposals");
    (403, "You must be a member to view proposals") ].

(** ** Wallet authentication ([routes/auth.js], [config/passport.js])

    Strings are read as sequences of code units below 256, one [ascii] per
    code unit; on these, [toLowerCase] maps the capitals of the Latin-1
    range as JavaScript does. *)

Definition lowerUnit (a : ascii) : ascii :=
  let n := N_of_ascii a in
  if ((65 <=? n) && (n <=? 90) || (192 <=? n) && (n <=? 222) && negb (n =? 215))%N
  then ascii_of_N (n + 32) else a.

(** [s.toLowerCase()] *)
Fixpoint toLowerCase (s : string) : string :=
  match s with
  | EmptyString => EmptyString
  | String a rest => String (lowerUnit a) (toLowerCase rest)
  end.

(** The class [[a-z0-9_]] of the regular expression. *)
Definition isNameUnit (a : ascii) : bool :=
  let n := N_of_ascii a in
  ((97 <=? n) && (n <=? 122) || (48 <=? n) && (n <=? 57) || (n =? 95))%N.

(** [s.replace(/[^a-z0-9_]/g, '')] *)
Fixpoint keepNameUnits (s : string) : string :=
  match s with
  | EmptyString => EmptyString
  | String a rest =>
      if isNameUnit a then String a (keepNameUnits rest) else keepNameUnits rest
  end.

(** [baseUsername.toLowerCase().replace(/[^a-z0-9_]/g, '').substring(0, 20)] *)
Definition sanitizedBase (baseUsername : string) : string :=
  String.substring 0 20 (keepNameUnits (toLowerCase baseUsername)).

(** The template [`${sanitizedBase}_${counter}`]. *)
Definition numbered (base : string) (counter : N) : string :=
  String.append base (String.append "_" (pretty counter)).

(** The [while] loop of [generateUniqueUsername], at most [fuel] tests of
    the table: [names] are the usernames in use. *)
Fixpoint probeUsername (names : list string) (base : string) (fuel : nat)
    (username : string) (counter : N) : string :=
  match fuel with
  | O => username
  | S fuel' =>
      if bool_decide (username ∈ names) then
        probeUsername names base fuel' (numbered base counter) (counter + 1)
      else username
  end.

(** [generateUniqueUsername]; one test more than there are usernames is
    enough for the loop to end, as is shown with its properties. *)
Definition generateUniqueUsername (names : list string) (baseUsername : string)
    : string :=
  let base := sanitizedBase baseUsername in
  probeUsername names base (S (length names)) base 1.

(** The columns of [user] the wallet login reads or writes. *)
Record User := {
  username : string;
  displayName : string;
  walletAddress : option string;
  isWeb3Verified : bool;
  lastLogin : option Z
}.

Record NonceEntry := {
  nonce : string;
  expires : Z
}.

(** The state of the login: the [nonceStore] map of the router, the pending
    [setTimeout] callbacks (due time and key to delete) and the [user]
    table, by id, in insertion order. *)
Record AuthState := {
  nonceStore : gmap string NonceEntry;
  timers : list (Z * string);
  users : list (string * User)
}.

(** What a handler can throw: an exception of the routes, or a plain
    [Error] with its message. *)
Inductive Exception :=
| Routed (e : Thrown)
| PlainError (message : string).

(** Handlers over a state [S]. *)
Definition Act (S A : Type) : Type := S -> (Exception + A) * S.

Definition retA {S A} (a : A) : Act S A := fun s => (inr a, s).

Definition throwA {S A} (e : Exception) : Act S A := fun s => (inl e, s).

Definition bindA {S A B} (c : Act S A) (k : A -> Act S B) : Act S B :=
  fun s =>
    match c s with
    | (inl e, s') => (inl e, s')
    | (inr a, s') => k a s'
    end.

Notation "'let+' x := c 'in' k" := (bindA c (fun x => k))
  (at level 10, x pattern, c at level 100, k at level 200).
Notation "'check' c 'in' k" := (bindA c (fun _ => k))
  (at level 10, c at level 100, k at level 200).

Definition getsA {S A} (f : S -> A) : Act S A := fun s => (inr (f s), s).

Definition modifyA {S} (f : S -> S) : Act S unit := fun s => (inr tt, f s).

Definition throwIfA {S} (cond : bool) (e : Exception) : Act S unit :=
  if cond then throwA e else retA tt.

(** The libraries of the login: two validators of the validation library,
    its [normalizeEmail] sanitizer ([None] when its result is not a string)
    and [ethers.utils.verifyMessage] ([None] when it throws). *)
Class WalletLibraries := {
  isEthereumAddress : string -> bool;
  normalizeEmail : string -> option string;
  verifyMessage : string -> string -> option string
}.

Definition newline : string := String (ascii_of_N 10) EmptyString.

(** The message the nonce route returns for the wallet to sign: in its
    template the line breaks are written with two backslashes. *)
Definition announcedMessage (nonce : string) : string :=
  String.append
    "Welcome to Nexus!\n\nSign this message to authenticate with your wallet.\n\nNonce: "
    nonce.

(** The message [verifyWalletSignature] checks the signature against. *)
Definition signedMessage (nonce : string) : string :=
  String.concat ""
    [ "Welcome to Nexus!"; newline; newline;
      "Sign this message to authenticate with your wallet."; newline; newline;
      "Nonce: "; nonce ].

Definition setNonce (key : string) (entry : NonceEntry) (due : Z) (s : AuthState)
    : AuthState :=
  {| nonceStore := <[key := entry]> (nonceStore s);
     timers := timers s ++ [(due, key)];
     users := users s |}.

Definition deleteNonce (key : string) (s : AuthState) : AuthState :=
  {| nonceStore := delete key (nonceStore s);
     timers := timers s;
     users := users s |}.

(** A [setTimeout] callback of the nonce route that is due runs: it deletes
    whatever the store holds under its key. *)
Definition fireTimer (now : Z) (i : nat) (s : AuthState) : AuthState :=
  match timers s !! i with
  | Some (due, key) =>
      if due <=? now then
        {| nonceStore := delete key (nonceStore s);
           timers := delete i (timers s);
           users := users s |}
      else s
  | None => s
  end.

Record NonceResponse := {
  nr_nonce : string;
  nr_message : string;
  nr_expiresIn : Z
}.

Section WalletLogin.

Context `{EV : ExpressValidator} `{WL : WalletLibraries}.

(** [POST /wallet/nonce]; [now] is [Date.now()], [uuid] the result of
    [uuidv4()].  The rate limiter in front of the route is left out. *)
Definition walletNonce (now : Z) (uuid : string) (body_walletAddress : string)
    : Act AuthState NonceResponse :=
  let errors := chain (isEthereumAddress body_walletAddress) "Invalid wallet address" in
  let walletAddress' := normalizeEmail body_walletAddress in
  check throwIfA (negb (bool_decide (errors = []))) (Routed (ValidationError errors)) in
  let nonce' := uuid in
  match walletAddress' with
  | None => throwA (Routed TypeError)
  | Some walletAddress' =>
    check modifyA (setNonce (toLowerCase walletAddress')
                     {| nonce := nonce'; expires := now + 5 * 60 * 1000 |}
                     (now + 5 * 60 * 1000)) in
    retA {| nr_nonce := nonce';
            nr_message := announcedMessage nonce';
            nr_expiresIn := 5 * 60 * 1000 |}
  end.

(** [verifyWalletSignature] *)
Definition verifyWalletSignature (walletAddress' signature nonce' : string) : bool :=
  match verifyMessage (signedMessage nonce') signature with
  | Some recoveredAddress =>
      String.eqb (toLowerCase recoveredAddress) (toLowerCase walletAddress')
  | None => false
  end.

(** [user.findUnique({ where: { walletAddress } })] *)
Definition findByWallet (address : string) (rows : list (string * User))
    : option (string * User) :=
  List.find (fun r => bool_decide (walletAddress (snd r) = Some address)) rows.

(** [user.update({ where: { id }, data })] *)
Definition updateUser (id : string) (data : User -> User)
    (rows : list (string * User)) : list (string * User) :=
  (fun r => if String.eqb (fst r) id then (fst r, data (snd r)) else r) <$> rows.

(** [user.create]: P2002 when the id, the username or the wallet address is
    in the table already. *)
Definition createUser (id : string) (u : User) : Act AuthState (string * User) :=
  fun s =>
    if existsb (fun r =>
                  String.eqb (fst r) id
                  || String.eqb (username (snd r)) (username u)
                  || bool_decide (is_Some (walletAddress u)
                                  /\ walletAddress (snd r) = walletAddress u))
         (users s)
    then (inl (Routed (PrismaClientKnownRequestError "P2002")), s)
    else (inr (id, u),
          {| nonceStore := nonceStore s; timers := timers s;
             users := users s ++ [(id, u)] |}).

(** [handleWalletAuthentication]; [login] is [new Date()], [newId] the id
    the store generates if a user is created. *)
Definition handleWalletAuthentication (login : Z) (newId : string)
    (walletAddress' signature nonce' : string) : Act AuthState (string * User) :=
  check throwIfA (negb (verifyWalletSignature walletAddress' signature nonce'))
          (PlainError "Invalid wallet signature") in
  let normalizedAddress := toLowerCase walletAddress' in
  let+ user := getsA (fun s => findByWallet normalizedAddress (users s)) in
  match user with
  | Some (id, u) =>
    let u' := {| username := username u; displayName := displayName u;
                 walletAddress := walletAddress u;
                 isWeb3Verified := true; lastLogin := Some login |} in
    check modifyA (fun s =>
            {| nonceStore := nonceStore s; timers := timers s;
               users := updateUser id (fun _ => u') (users s) |}) in
    retA (id, u')
  | None =>
    let+ username' :=
      getsA (fun s =>
        generateUniqueUsername (username <$> (snd <$> users s))
          (String.append "user_" (String.substring 2 6 normalizedAddress))) in
    createUser newId
      {| username := username';
         displayName := String.append "User " (String.substring 2 6 normalizedAddress);
         walletAddress := Some normalizedAddress;
         isWeb3Verified := true;
         lastLogin := Some login |}
  end.

Record VerifyRequest := {
  vq_walletAddress : string;
  vq_signature : string;
  vq_nonce : string
}.

(** [POST /wallet/verify]; [now] is [Date.now()].  The tokens of the
    response are left out: the answer is the user. *)
Definition walletVerify (now login : Z) (newId : string) (req : VerifyRequest)
    : Act AuthState (string * User) :=
  let errors :=
    chain (isEthereumAddress (vq_walletAddress req)) "Invalid wallet address"
    ++ chain (isLength 130 132 (vq_signature req)) "Invalid signature format"
    ++ chain (isUUID (vq_nonce req)) "Invalid nonce format" in
  check throwIfA (negb (bool_decide (errors = []))) (Routed (ValidationError errors)) in
  let normalizedAddress := toLowerCase (vq_walletAddress req) in
  let+ storedNonce := getsA (fun s => nonceStore s !! normalizedAddress) in
  match storedNonce with
  | None => throwA (Routed (ApiError 400 "Invalid or expired nonce" []))
  | Some storedNonce =>
    check throwIfA (negb (String.eqb (nonce storedNonce) (vq_nonce req)))
            (Routed (ApiError 400 "Invalid or expired nonce" [])) in
    if now >? expires storedNonce then
      check modifyA (deleteNonce normalizedAddress) in
      throwA (Routed (ApiError 400 "Nonce has expired" []))
    else
      let+ user :=
        handleWalletAuthentication login newId (vq_walletAddress req)
          (vq_signature req) (vq_nonce req) in
      check modifyA (deleteNonce normalizedAddress) in
      retA user
  end.

End WalletLogin.

(** The usernames the loop tries, in its order: the base, then the base
    with the numbers from 1 on. *)
Definition candidate (base : string) (k : nat) : string :=
  match k with
  | O => base
  | S _ => numbered base (N.of_nat k)
  end.

(** The validators of [POST /wallet/verify] accept the request. *)
Definition verifyValid `{EV : ExpressValidator} `{WL : WalletLibraries}
    (req : VerifyRequest) : Prop :=
  isEthereumAddress (vq_walletAddress req) = true
  /\ isLength 130 132 (vq_signature req) = true
  /\ isUUID (vq_nonce req) = true.

Definition invalidNonce : Exception :=
  Routed (ApiError 400 "Invalid or expired nonce" []).

(** What happens to the state of the login: a request to one of the two
    wallet routes, a timer of the nonce route that runs, or a call of
    [handleWalletAuthentication] by itself. *)
Inductive WalletEvent :=
| NonceRequested (now : Z) (uuid : string) (body_walletAddress : string)
| VerifyRequested (now login : Z) (newId : string) (req : VerifyRequest)
| TimerRan (now : Z) (i : nat)
| LoginCalled (login : Z) (newId : string)
    (walletAddress' signature nonce' : string).

(** The state an event leaves, whether its handler answers or throws. *)
Definition after `{EV : ExpressValidator} `{WL : WalletLibraries}
    (ev : WalletEvent) (s : AuthState) : AuthState :=
  match ev with
  | NonceRequested now uuid body_walletAddress =>
      snd (walletNonce now uuid body_walletAddress s)
  | VerifyRequested now login newId req =>
      snd (walletVerify now login newId req s)
  | TimerRan now i => fireTimer now i s
  | LoginCalled login newId walletAddress' signature nonce' =>
      snd (handleWalletAuthentication login newId walletAddress' signature
             nonce' s)
  end.

Definition afterAll `{EV : ExpressValidator} `{WL : WalletLibraries}
    (evs : list WalletEvent) (s : AuthState) : AuthState :=
  foldl (fun s ev => after ev s) s evs.

(** The event is a request to a route or a timer. *)
Definition viaRoutes (ev : WalletEvent) : bool :=
  match ev with
  | LoginCalled _ _ _ _ _ => false
  | _ => true
  end.

(** The validation library on addresses: [isEthereumAddress] accepts 0x and
    forty hexadecimal digits, hence only strings that start with 0; such a
    string has no separator of a mail address, and [normalizeEmail] takes
    all of it for the domain: its result is the separator followed by the
    string in lower case. *)
Definition AddressLibrary `{WL : WalletLibraries} : Prop :=
  forall a,
    isEthereumAddress a = true ->
    (exists rest, a = String "0" rest)
    /\ normalizeEmail a = Some (String "@" (toLowerCase a)).

(** Every key of the nonce store starts with the separator. *)
Definition KeysSanitized (s : AuthState) : Prop :=
  forall key, is_Some (nonceStore s !! key) -> exists rest, key = String "@" rest.

(** The table has one row per id, and the wallet [address] is that of the
    user [id], whose username is [name]. *)
Definition Enrolled (address id name : string) (rows : list (string * User))
    : Prop :=
  NoDup (fst <$> rows)
  /\ exists u, findByWallet address rows = Some (id, u) /\ username u = name.


(** * The request limiter of the authentication middleware

    [rateLimitByUser(maxRequests, windowMinutes)] keeps, per user id, the
    times of the requests it let through, in its [userRequests] map.  The answer is the error handed to [next], if any. *)

Definition tooManyRequests (maxRequests windowMinutes : Z) : Thrown :=
  ApiError 429
    (String.concat ""
       [ "Too many requests. Maximum "; pretty maxRequests; " requests per ";
         pretty windowMinutes; " minutes." ]) [].

(** One request; [user] is [req.user] ([None] when the request carries no
    user), [now] is [Date.now()]. *)
Definition rateLimitByUser (maxRequests windowMinutes : Z) (user : option string)
    (now : Z) (userRequests : gmap string (list Z)) : option Thrown * gmap string (list Z) :=
  match user with
  | None => (None, userRequests)
  | Some userId =>
    let windowMs := windowMinutes * 60 * 1000 in
    let userRequests :=
      if bool_decide (is_Some (userRequests !! userId)) then userRequests
      else <[userId := []]> userRequests in
    let requests := default [] (userRequests !! userId) in
    let validRequests := List.filter (fun time => now - time <? windowMs) requests in
    let userRequests := <[userId := validRequests]> userRequests in
    if Z.of_nat (length validRequests) >=? maxRequests then
      (Some (tooManyRequests maxRequests windowMinutes), userRequests)
    else
      (None, <[userId := validRequests ++ [now]]> userRequests)
  end.

(** A run of requests through one limiter: for each request whether it was
    let through, and the map at the end. *)
Fixpoint throughLimiter (maxRequests windowMinutes : Z)
    (calls : list (option string * Z)) (userRequests : gmap string (list Z))
    : list bool * gmap string (list Z) :=
  match calls with
  | [] => ([], userRequests)
  | (user, now) :: calls =>
    let '(answer, userRequests) :=
      rateLimitByUser maxRequests windowMinutes user now userRequests in
    let '(passes, userRequests) :=
      throughLimiter maxRequests windowMinutes calls userRequests in
    (bool_decide (answer = None) :: passes, userRequests)
  end.

(** The times of the requests of [userId] that were let through. *)
Fixpoint passedTimes (userId : string) (calls : list (option string * Z))
    (passes : list bool) : list Z :=
  match calls, passes with
  | (user, now) :: calls, pass :: passes =>
    if bool_decide (user = Some userId) && pass
    then now :: passedTimes userId calls passes
    else passedTimes userId calls passes
  | _, _ => []
  end.

(** The requests of a list that lie less than the window before [now]. *)
Definition inWindow (windowMinutes now : Z) (times : list Z) : list Z :=
  List.filter (fun time => now - time <? windowMinutes * 60 * 1000) times.


(** * Communities: creation and joining

    The two routes of the communities router that make the memberships the
    governance routes check:

    - [POST /]                    ([createCommunity])
    - [POST /:communityId/join]   ([joinCommunity])

    Here the store is relational, as the routes write it: a membership and
    its roles are rows of their own tables.  [view] gives the store as the
    governance routes read it, with the relations their queries include. *)

(** A row of [community], with the columns the routes give or read. *)
Record CommunityRow := {
  co_name : string;
  co_description : string;
  co_type : string;
  co_entryFee : option string;
  co_requiredNFT : option string;
  co_votingPower : string;
  co_treasuryAddress : option string;
  co_ownerId : string;
  co_memberCount : Z
}.

(** A row of [communityMember]; its [userId] and [communityId] are the
    compound key [userId_communityId] of the table. *)
Record MemberRow := {
  me_id : string;
  me_status : string;
  me_joinedAt : Z
}.

Record RoleRow := {
  ro_id : string;
  ro_communityId : string;
  ro_name : string;
  ro_description : string;
  ro_permissions : list string;
  ro_color : string
}.

Record MemberRoleRow := {
  mr_memberId : string;
  mr_roleId : string
}.

(** The tables: [community] by id, [communityMember] by its compound key,
    [communityRole] and [communityMemberRole] in insertion order, and the
    two governance tables. *)
Record Platform := {
  pf_community : gmap string CommunityRow;
  pf_communityMember : gmap (string * string) MemberRow;
  pf_communityRole : list RoleRow;
  pf_communityMemberRole : list MemberRoleRow;
  pf_proposal : gmap string Proposal;
  pf_proposalVote : list ProposalVote
}.

(** The libraries of the creation route: the [matches] validator with the
    pattern of community names, [isNumeric] on the value as the validation
    library turns it into a string, and
    [ethers.utils.parseEther(v.toString()).toString()] (the message of the
    error when it throws). *)
Class CommunityLibraries := {
  matchesName : string -> bool;
  isNumeric : JsValue -> bool;
  parseEther : JsValue -> string + string
}.

(** [!v] on a field that carries a string *)
Definition notGiven (v : option string) : bool :=
  match v with
  | None => true
  | Some s => String.eqb s ""
  end.

(** [!v] on a field that carries any value *)
Definition falsy (v : option JsValue) : bool :=
  match v with
  | None => true
  | Some v => negb (Js.truthy v)
  end.

(** ** The store's operations *)

Definition P2002 : Exception := Routed (PrismaClientKnownRequestError "P2002").
Definition P2003 : Exception := Routed (PrismaClientKnownRequestError "P2003").
Definition P2025 : Exception := Routed (PrismaClientKnownRequestError "P2025").

(** [community.findUnique({ where: { name } })], as far as the route looks
    at it: whether there is such a row. *)
Definition community_named (name : string) (s : Platform) : bool :=
  bool_decide (map_Exists (fun _ r => co_name r = name) (pf_community s)).

(** [community.create]: P2002 on a clash of the id or of the name. *)
Definition community_create (id : string) (row : CommunityRow) : Act Platform unit :=
  fun s =>
    if bool_decide (is_Some (pf_community s !! id)) || community_named (co_name row) s
    then (inl P2002, s)
    else (inr tt,
          {| pf_community := <[id := row]> (pf_community s);
             pf_communityMember := pf_communityMember s;
             pf_communityRole := pf_communityRole s;
             pf_communityMemberRole := pf_communityMemberRole s;
             pf_proposal := pf_proposal s;
             pf_proposalVote := pf_proposalVote s |}).

(** [community.update({ where: { id }, data })] *)
Definition community_update (id : string) (data : CommunityRow -> CommunityRow)
    : Act Platform unit :=
  fun s =>
    match pf_community s !! id with
    | None => (inl P2025, s)
    | Some row =>
      (inr tt,
       {| pf_community := <[id := data row]> (pf_community s);
          pf_communityMember := pf_communityMember s;
          pf_communityRole := pf_communityRole s;
          pf_communityMemberRole := pf_communityMemberRole s;
          pf_proposal := pf_proposal s;
          pf_proposalVote := pf_proposalVote s |})
    end.

Definition member_with_id (id : string) (s : Platform) : bool :=
  bool_decide (map_Exists (fun _ m => me_id m = id) (pf_communityMember s)).

(** [communityMember.create]: P2002 on a clash of the id or of the compound
    key, P2003 when the community is missing. *)
Definition communityMember_create (userId' communityId' : string) (row : MemberRow)
    : Act Platform MemberRow :=
  fun s =>
    if member_with_id (me_id row) s
       || bool_decide (is_Some (pf_communityMember s !! (userId', communityId')))
    then (inl P2002, s)
    else if bool_decide (pf_community s !! communityId' = None) then (inl P2003, s)
    else (inr row,
          {| pf_community := pf_community s;
             pf_communityMember :=
               <[(userId', communityId') := row]> (pf_communityMember s);
             pf_communityRole := pf_communityRole s;
             pf_communityMemberRole := pf_communityMemberRole s;
             pf_proposal := pf_proposal s;
             pf_proposalVote := pf_proposalVote s |}).

Definition role_with_id (id : string) (s : Platform) : option RoleRow :=
  List.find (fun r => String.eqb (ro_id r) id) (pf_communityRole s).

(** [communityRole.create]: P2002 on a clash of the id, P2003 when the
    community is missing. *)
Definition communityRole_create (row : RoleRow) : Act Platform RoleRow :=
  fun s =>
    if bool_decide (is_Some (role_with_id (ro_id row) s)) then (inl P2002, s)
    else if bool_decide (pf_community s !! ro_communityId row = None)
    then (inl P2003, s)
    else (inr row,
          {| pf_community := pf_community s;
             pf_communityMember := pf_communityMember s;
             pf_communityRole := pf_communityRole s ++ [row];
             pf_communityMemberRole := pf_communityMemberRole s;
             pf_proposal := pf_proposal s;
             pf_proposalVote := pf_proposalVote s |}).

(** [communityRole.findFirst({ where: { communityId, name } })]: the first
    such row in insertion order. *)
Definition communityRole_findFirst (communityId' name : string) (s : Platform)
    : option RoleRow :=
  List.find (fun r => String.eqb (ro_communityId r) communityId'
                      && String.eqb (ro_name r) name)
    (pf_communityRole s).

(** [communityMemberRole.create]: P2003 when the member or the role is
    missing. *)
Definition communityMemberRole_create (row : MemberRoleRow) : Act Platform unit :=
  fun s =>
    if negb (member_with_id (mr_memberId row) s)
       || bool_decide (role_with_id (mr_roleId row) s = None)
    then (inl P2003, s)
    else (inr tt,
          {| pf_community := pf_community s;
             pf_communityMember := pf_communityMember s;
             pf_communityRole := pf_communityRole s;
             pf_communityMemberRole := pf_communityMemberRole s ++ [row];
             pf_proposal := pf_proposal s;
             pf_proposalVote := pf_proposalVote s |}).

(** ** POST / *)

Record CommunityRequest := {
  cq_user : string * User;             (* req.user: its id and its row *)
  cq_name : string;
  cq_description : string;
  cq_type : string;
  cq_entryFee : option JsValue;
  cq_requiredNFT : option string;
  cq_votingPower : option string
}.

(** What the store and the treasury service give while a community is
    created: the ids of the five rows, [joinedAt] of the membership, and the
    result of [createCommunityTreasury] ([None] when it throws). *)
Record CommunityGenerated := {
  cg_communityId : string;
  cg_memberId : string;
  cg_joinedAt : Z;
  cg_adminRoleId : string;
  cg_moderatorRoleId : string;
  cg_memberRoleId : string;
  cg_treasury : option string
}.

Definition adminRole (id communityId' : string) : RoleRow :=
  {| ro_id := id; ro_communityId := communityId'; ro_name := "Admin";
     ro_description := "Full administrative access";
     ro_permissions :=
       ["MANAGE_COMMUNITY"; "MANAGE_MEMBERS"; "CREATE_PROPOSALS"; "MANAGE_ROLES"];
     ro_color := "#ef4444" |}.

Definition moderatorRole (id communityId' : string) : RoleRow :=
  {| ro_id := id; ro_communityId := communityId'; ro_name := "Moderator";
     ro_description := "Can moderate posts and manage members";
     ro_permissions := ["MODERATE_POSTS"; "MANAGE_MEMBERS"; "CREATE_PROPOSALS"];
     ro_color := "#f97316" |}.

Definition memberRole (id communityId' : string) : RoleRow :=
  {| ro_id := id; ro_communityId := communityId'; ro_name := "Member";
     ro_description := "Basic community member";
     ro_permissions := ["POST"; "COMMENT"; "VOTE"];
     ro_color := "#6366f1" |}.

Record JoinRequest := {
  jq_user : string * User;             (* req.user *)
  jq_communityId : string;             (* req.params.communityId *)
  jq_paymentTxHash : option string     (* req.body.paymentTxHash *)
}.

(** What the store gives for the new membership. *)
Record JoinGenerated := {
  jg_memberId : string;
  jg_joinedAt : Z
}.

Record JoinResponse := {
  joined_status : string;
  joined_joinedAt : Z;
  joined_role : string
}.

Definition incrementMemberCount (row : CommunityRow) : CommunityRow :=
  {| co_name := co_name row; co_description := co_description row;
     co_type := co_type row; co_entryFee := co_entryFee row;
     co_requiredNFT := co_requiredNFT row; co_votingPower := co_votingPower row;
     co_treasuryAddress := co_treasuryAddress row; co_ownerId := co_ownerId row;
     co_memberCount := co_memberCount row + 1 |}.

Section Communities.

Context `{EV : ExpressValidator} `{WL : WalletLibraries} `{CL : CommunityLibraries}.

Definition communityValidation (req : CommunityRequest) : list string :=
  chain (isLength 3 50 (trim (cq_name req)))
    "Community name must be between 3 and 50 characters"
  ++ chain (matchesName (trim (cq_name req)))
       "Community name contains invalid characters"
  ++ chain (isLength 10 500 (trim (cq_description req)))
       "Description must be between 10 and 500 characters"
  ++ chain (bool_decide (cq_type req ∈ ["FREE"; "TOKEN_GATED"; "NFT_GATED"]))
       "Invalid community type"
  ++ chain (optional (fun v => from_option isNumeric false v) (cq_entryFee req))
       "Entry fee must be numeric"
  ++ chain (optional (fun v => from_option isEthereumAddress false v)
              (cq_requiredNFT req))
       "Required NFT must be a valid contract address"
  ++ chain (optional
              (fun v => from_option
                 (fun p => bool_decide (p ∈ ["EQUAL"; "TOKEN_WEIGHTED"; "NFT_WEIGHTED"]))
                 false v)
              (cq_votingPower req))
       "Invalid voting power type".

(** The handler.  Logging is left out; the answer is the id of the
    community and its row. *)
Definition createCommunity (g : CommunityGenerated) (req : CommunityRequest)
    : Act Platform (string * CommunityRow) :=
  let errors := communityValidation req in
  check throwIfA (negb (bool_decide (errors = []))) (Routed (ValidationError errors)) in
  let user := cq_user req in
  let name := trim (cq_name req) in
  let description' := trim (cq_description req) in
  let type' := cq_type req in
  let entryFee := cq_entryFee req in
  let requiredNFT := cq_requiredNFT req in
  let votingPower' := default "EQUAL" (cq_votingPower req) in
  let+ existingCommunity := getsA (community_named name) in
  check throwIfA existingCommunity
          (Routed (ApiError 409 "Community name already exists" [])) in
  check throwIfA (String.eqb type' "TOKEN_GATED" && falsy entryFee)
          (Routed (ApiError 400 "Token-gated communities require an entry fee" [])) in
  check throwIfA (String.eqb type' "NFT_GATED" && notGiven requiredNFT)
          (Routed (ApiError 400
             "NFT-gated communities require a required NFT contract address" [])) in
  let treasuryAddress :=
    if isWeb3Verified (snd user) && negb (notGiven (walletAddress (snd user)))
    then cg_treasury g else None in
  let+ entryFee' :=
    match entryFee with
    | Some fee =>
      if Js.truthy fee then
        match parseEther fee with
        | inr wei => retA (Some wei)
        | inl message => throwA (PlainError message)
        end
      else retA None
    | None => retA None
    end in
  let community' :=
    {| co_name := name; co_description := description'; co_type := type';
       co_entryFee := entryFee'; co_requiredNFT := requiredNFT;
       co_votingPower := votingPower'; co_treasuryAddress := treasuryAddress;
       co_ownerId := fst user; co_memberCount := 1 |} in
  check community_create (cg_communityId g) community' in
  let+ membership :=
    communityMember_create (fst user) (cg_communityId g)
      {| me_id := cg_memberId g; me_status := "ACTIVE";
         me_joinedAt := cg_joinedAt g |} in
  let+ adminRole' :=
    communityRole_create (adminRole (cg_adminRoleId g) (cg_communityId g)) in
  let+ moderatorRole' :=
    communityRole_create (moderatorRole (cg_moderatorRoleId g) (cg_communityId g)) in
  let+ memberRole' :=
    communityRole_create (memberRole (cg_memberRoleId g) (cg_communityId g)) in
  check communityMemberRole_create
          {| mr_memberId := me_id membership; mr_roleId := ro_id adminRole' |} in
  retA (cg_communityId g, community').

(** ** POST /:communityId/join *)

Definition joinValidation (req : JoinRequest) : list string :=
  chain (isUUID (jq_communityId req)) "Invalid community ID"
  ++ chain (optional (fun h => from_option isHexadecimal false h)
              (jq_paymentTxHash req))
       "Invalid transaction hash".

Definition joinCommunity (g : JoinGenerated) (req : JoinRequest)
    : Act Platform JoinResponse :=
  let errors := joinValidation req in
  check throwIfA (negb (bool_decide (errors = []))) (Routed (ValidationError errors)) in
  let user := jq_user req in
  let communityId' := jq_communityId req in
  let paymentTxHash := jq_paymentTxHash req in
  let+ community' := getsA (fun s => pf_community s !! communityId') in
  match community' with
  | None => throwA (Routed (ApiError 404 "Community not found" []))
  | Some community' =>
    let+ members :=
      getsA (fun s => pf_communityMember s !! (fst user, communityId')) in
    check throwIfA (bool_decide (is_Some members))
            (Routed (ApiError 409 "Already a member of this community" [])) in
    check throwIfA (String.eqb (co_type community') "TOKEN_GATED"
                    && notGiven paymentTxHash)
            (Routed (ApiError 400
               "Payment transaction hash required for token-gated community" [])) in
    check throwIfA (String.eqb (co_type community') "NFT_GATED"
                    && negb (isWeb3Verified (snd user)))
            (Routed (ApiError 403
               "Web3 verification required for NFT-gated communities" [])) in
    let+ membership :=
      communityMember_create (fst user) communityId'
        {| me_id := jg_memberId g; me_status := "ACTIVE";
           me_joinedAt := jg_joinedAt g |} in
    let+ memberRole' := getsA (communityRole_findFirst communityId' "Member") in
    check match memberRole' with
          | Some memberRole' =>
            communityMemberRole_create
              {| mr_memberId := me_id membership; mr_roleId := ro_id memberRole' |}
          | None => retA tt
          end in
    check community_update communityId' incrementMemberCount in
    retA {| joined_status := "ACTIVE";
            joined_joinedAt := me_joinedAt membership;
            joined_role := "Member" |}
  end.

End Communities.

(** ** The store as the governance routes read it *)

(** [votingPower] as the vote route tells the cases apart. *)
Definition votingPowerOf (s : string) : VotingPower :=
  if String.eqb s "TOKEN_WEIGHTED" then TOKEN_WEIGHTED
  else if String.eqb s "NFT_WEIGHTED" then NFT_WEIGHTED
  else EQUAL.

(** [include: { roles: { include: { role: true } } }] *)
Definition rolesOf (s : Platform) (memberId : string) : list CommunityMemberRole :=
  omap (fun mr =>
          if String.eqb (mr_memberId mr) memberId then
            (fun r => {| role := {| permissions := ro_permissions r |} |})
              <$> role_with_id (mr_roleId mr) s
          else None)
    (pf_communityMemberRole s).

Definition included (s : Platform) (m : MemberRow) : CommunityMember :=
  {| joinedAt := me_joinedAt m; roles := rolesOf s (me_id m) |}.

Definition communityOfRow (row : CommunityRow) : Community :=
  {| memberCount := co_memberCount row;
     votingPower := votingPowerOf (co_votingPower row) |}.

Definition view (s : Platform) : Db :=
  {| proposal := pf_proposal s;
     proposalVote := pf_proposalVote s;
     community := communityOfRow <$> pf_community s;
     communityMember := included s <$> pf_communityMember s |}.

(** A governance route on the relational store: it reads the view and
    writes the two governance tables. *)
Definition governance {A} (c : M A) : Act Platform A :=
  fun s =>
    let '(r, db) := c (view s) in
    (match r with inl e => inl (Routed e) | inr a => inr a end,
     {| pf_community := pf_community s;
        pf_communityMember := pf_communityMember s;
        pf_communityRole := pf_communityRole s;
        pf_communityMemberRole := pf_communityMemberRole s;
        pf_proposal := proposal db;
        pf_proposalVote := proposalVote db |}).

(** ** The two routes, guards first *)

Section CommunityGuards.

Context `{EV : ExpressValidator} `{WL : WalletLibraries} `{CL : CommunityLibraries}.

(** The guards of the creation route, in its order, for ids that are not in
    use: the error, or the row of the new community. *)
Definition communityAdmission (g : CommunityGenerated) (req : CommunityRequest)
    (s : Platform) : Exception + CommunityRow :=
  if negb (bool_decide (communityValidation req = [])) then
    inl (Routed (ValidationError (communityValidation req)))
  else if community_named (trim (cq_name req)) s then
    inl (Routed (ApiError 409 "Community name already exists" []))
  else if String.eqb (cq_type req) "TOKEN_GATED" && falsy (cq_entryFee req) then
    inl (Routed (ApiError 400 "Token-gated communities require an entry fee" []))
  else if String.eqb (cq_type req) "NFT_GATED" && notGiven (cq_requiredNFT req) then
    inl (Routed (ApiError 400
           "NFT-gated communities require a required NFT contract address" []))
  else
    let row entryFee' :=
      {| co_name := trim (cq_name req);
         co_description := trim (cq_description req);
         co_type := cq_type req;
         co_entryFee := entryFee';
         co_requiredNFT := cq_requiredNFT req;
         co_votingPower := default "EQUAL" (cq_votingPower req);
         co_treasuryAddress :=
           if isWeb3Verified (snd (cq_user req))
              && negb (notGiven (walletAddress (snd (cq_user req))))
           then cg_treasury g else None;
         co_ownerId := fst (cq_user req);
         co_memberCount := 1 |} in
    match cq_entryFee req with
    | Some fee =>
      if Js.truthy fee then
        match parseEther fee with
        | inr wei => inr (row (Some wei))
        | inl message => inl (PlainError message)
        end
      else inr (row None)
    | None => inr (row None)
    end.

(** The store after the community [row] was created for the user of [req]:
    the community, the membership of its creator, the three default roles
    and the Admin role of the creator. *)
Definition founded (g : CommunityGenerated) (req : CommunityRequest)
    (row : CommunityRow) (s : Platform) : Platform :=
  {| pf_community := <[cg_communityId g := row]> (pf_community s);
     pf_communityMember :=
       <[(fst (cq_user req), cg_communityId g) :=
           {| me_id := cg_memberId g; me_status := "ACTIVE";
              me_joinedAt := cg_joinedAt g |}]> (pf_communityMember s);
     pf_communityRole :=
       pf_communityRole s
       ++ [ adminRole (cg_adminRoleId g) (cg_communityId g);
            moderatorRole (cg_moderatorRoleId g) (cg_communityId g);
            memberRole (cg_memberRoleId g) (cg_communityId g) ];
     pf_communityMemberRole :=
       pf_communityMemberRole s
       ++ [{| mr_memberId := cg_memberId g; mr_roleId := cg_adminRoleId g |}];
     pf_proposal := pf_proposal s;
     pf_proposalVote := pf_proposalVote s |}.

(** The guards of the join route, in its order: the error, or the row of
    the community. *)
Definition joinAdmission (g : JoinGenerated) (req : JoinRequest) (s : Platform)
    : Exception + CommunityRow :=
  if negb (bool_decide (joinValidation req = [])) then
    inl (Routed (ValidationError (joinValidation req)))
  else
    match pf_community s !! jq_communityId req with
    | None => inl (Routed (ApiError 404 "Community not found" []))
    | Some row =>
      if bool_decide (is_Some (pf_communityMember s
                                 !! (fst (jq_user req), jq_communityId req))) then
        inl (Routed (ApiError 409 "Already a member of this community" []))
      else if String.eqb (co_type row) "TOKEN_GATED"
              && notGiven (jq_paymentTxHash req) then
        inl (Routed (ApiError 400
               "Payment transaction hash required for token-gated community" []))
      else if String.eqb (co_type row) "NFT_GATED"
              && negb (isWeb3Verified (snd (jq_user req))) then
        inl (Routed (ApiError 403
               "Web3 verification required for NFT-gated communities" []))
      else if member_with_id (jg_memberId g) s then inl P2002
      else inr row
    end.

(** The store after the user of [req] joined the community [row]. *)
Definition joined (g : JoinGenerated) (req : JoinRequest) (row : CommunityRow)
    (s : Platform) : Platform :=
  {| pf_community := <[jq_communityId req := incrementMemberCount row]> (pf_community s);
     pf_communityMember :=
       <[(fst (jq_user req), jq_communityId req) :=
           {| me_id := jg_memberId g; me_status := "ACTIVE";
              me_joinedAt := jg_joinedAt g |}]> (pf_communityMember s);
     pf_communityRole := pf_communityRole s;
     pf_communityMemberRole :=
       pf_communityMemberRole s
       ++ match communityRole_findFirst (jq_communityId req) "Member" s with
          | Some r => [{| mr_memberId := jg_memberId g; mr_roleId := ro_id r |}]
          | None => []
          end;
     pf_proposal := pf_proposal s;
     pf_proposalVote := pf_proposalVote s |}.

End CommunityGuards.

(** ** [requirePermissions] of the authentication middleware *)

(** The check for a request that carries a user and a community id; the
    answer is the error handed to [next], if any. *)
Definition requirePermissions (permissions' : list string) (userId' communityId' : string)
    (s : Platform) : option Thrown :=
  match pf_communityMember s !! (userId', communityId') with
  | None => Some (ApiError 403 "Community membership required" [])
  | Some membership =>
    match pf_community s !! communityId' with
    | None => Some (ApiError 500 "Authorization check failed" [])
    | Some community' =>
      if String.eqb (co_ownerId community') userId' then None
      else
        let userPermissions :=
          foldl (fun perms memberRole' => perms ++ permissions (role memberRole'))
            [] (rolesOf s (me_id membership)) in
        let hasRequiredPermissions :=
          forallb (fun permission => bool_decide (permission ∈ userPermissions))
            permissions' in
        if negb hasRequiredPermissions then
          Some (ApiError 403 "Insufficient permissions for this action" [])
        else None
    end
  end.

(** ** Runs of the router *)

(** The ids the store generates for a new community are not in use. *)
Record FreshIds (g : CommunityGenerated) (s : Platform) : Prop := {
  fresh_community : pf_community s !! cg_communityId g = None;
  fresh_member : member_with_id (cg_memberId g) s = false;
  fresh_admin : role_with_id (cg_adminRoleId g) s = None;
  fresh_moderator : role_with_id (cg_moderatorRoleId g) s = None;
  fresh_memberRole : role_with_id (cg_memberRoleId g) s = None;
  fresh_distinct :
    cg_adminRoleId g <> cg_moderatorRoleId g
    /\ cg_adminRoleId g <> cg_memberRoleId g
    /\ cg_moderatorRoleId g <> cg_memberRoleId g
}.

(** One request to the communities router, whatever its outcome; a
    community is created with ids that are not in use. *)
Inductive routed `{EV : ExpressValidator} `{WL : WalletLibraries}
    `{CL : CommunityLibraries} : Platform -> Platform -> Prop :=
| routed_create g req s :
    FreshIds g s -> routed s (snd (createCommunity g req s))
| routed_join g req s :
    routed s (snd (joinCommunity g req s))
| routed_propose now g req s :
    routed s (snd (governance (createProposal now g req) s))
| routed_vote now1 now2 req s :
    routed s (snd (governance (castVote now1 now2 req) s))
| routed_list clock req s :
    routed s (snd (governance (getProposals clock req) s)).

(** Referential integrity and unique ids, as the store's constraints keep
    them. *)
Record Integrity (s : Platform) : Prop := {
  int_member : forall k m,
    pf_communityMember s !! k = Some m -> is_Some (pf_community s !! snd k);
  int_role : forall r,
    r ∈ pf_communityRole s -> is_Some (pf_community s !! ro_communityId r);
  int_memberRole : forall mr,
    mr ∈ pf_communityMemberRole s -> member_with_id (mr_memberId mr) s = true;
  int_roleRef : forall mr,
    mr ∈ pf_communityMemberRole s -> is_Some (role_with_id (mr_roleId mr) s);
  int_memberId : forall k k' m m',
    pf_communityMember s !! k = Some m -> pf_communityMember s !! k' = Some m' ->
    me_id m = me_id m' -> k = k';
  int_roleId : NoDup (ro_id <$> pf_communityRole s)
}.

(** Every community has the three default roles, and these only. *)
Definition Founded (s : Platform) : Prop :=
  forall cid, is_Some (pf_community s !! cid) ->
    exists a mo me,
      List.filter (fun r => String.eqb (ro_communityId r) cid) (pf_communityRole s)
      = [adminRole a cid; moderatorRole mo cid; memberRole me cid].

(** [memberCount] of every community is the number of its memberships. *)
Definition membersOf (cid : string) (s : Platform) : list (string * string * MemberRow) :=
  List.filter (fun km => String.eqb (snd (fst km)) cid)
    (map_to_list (pf_communityMember s)).

Definition Counted (s : Platform) : Prop :=
  forall cid row, pf_community s !! cid = Some row ->
    co_memberCount row = Z.of_nat (length (membersOf cid s)).

(** The four tables of communities and memberships are the same. *)
Definition sameCommunities (s s' : Platform) : Prop :=
  pf_community s' = pf_community s
  /\ pf_communityMember s' = pf_communityMember s
  /\ pf_communityRole s' = pf_communityRole s
  /\ pf_communityMemberRole s' = pf_communityMemberRole s.

(** No two communities share a name. *)
Definition UniqueNames (s : Platform) : Prop :=
  forall cid cid' row row',
    pf_community s !! cid = Some row -> pf_community s !! cid' = Some row' ->
    co_name row = co_name row' -> cid = cid'.

(** The owner of every community is a member of it, without the permission
    to vote. *)
Definition OwnersCannotVote (s : Platform) : Prop :=
  forall cid row, pf_community s !! cid = Some row ->
    exists m, pf_communityMember s !! (co_ownerId row, cid) = Some m
              /\ hasPermission "VOTE" (included s m) = false.

(** Every vote is on a proposal of the store, by a member of its community
    who has the permission to vote. *)
Definition VotersAreMembers (s : Platform) : Prop :=
  forall v, v ∈ pf_proposalVote s ->
    exists p m,
      pf_proposal s !! proposalId v = Some p
      /\ pf_communityMember s !! (userId v, communityId p) = Some m
      /\ hasPermission "VOTE" (included s m) = true.

(** What every run of the router keeps. *)
Record Sound (s : Platform) : Prop := {
  sound_integrity : Integrity s;
  sound_founded : Founded s;
  sound_counted : Counted s;
  sound_names : UniqueNames s;
  sound_owners : OwnersCannotVote s;
  sound_voters : VotersAreMembers s;
  sound_once : OneVoteEach (view s);
  sound_count : CountInv (view s)
}.

Definition emptyPlatform : Platform :=
  {| pf_community := ∅; pf_communityMember := ∅; pf_communityRole := [];
     pf_communityMemberRole := []; pf_proposal := ∅; pf_proposalVote := [] |}.

(** * Examples for the middleware, the login and the communities *)

(** The [ApiError] class of [utils/errors]: [errors] is [null] when none
    are given, and the class sets no name, so that its instances have the
    name of [Error]. *)
Definition ex_apiError : ApiErrorClass :=
  {| noErrors := None; apiName := Some "Error" |}.

Definition ex_production : Env :=
  {| NODE_ENV := Some "production"; requestId := Some "req-1" |}.

(** A token error that also carries the code of a unique constraint. *)
Definition ex_tokenError : JsError :=
  {| e_name := Some "JsonWebTokenError"; e_code := JStr "P2002";
     e_status := JUndefined; e_statusCode := None;
     e_message := JStr "jwt malformed"; e_errors := None;
     e_stack := Some "at verify" |}.

(** An error of the database driver: no status code, a message that names
    the host. *)
Definition ex_driverError : JsError :=
  {| e_name := Some "Error"; e_code := JUndefined; e_status := JUndefined;
     e_statusCode := None; e_message := JStr "connect ECONNREFUSED db:5432";
     e_errors := None; e_stack := Some "at connect" |}.

(** Three errors named ValidationError: without [errors], with a [null]
    among them, and with two objects; and an error whose message is a
    number. *)
Definition ex_validationError (errors : option (list ErrorValue)) : JsError :=
  {| e_name := Some "ValidationError"; e_code := JUndefined;
     e_status := JUndefined; e_statusCode := None; e_message := JStr "invalid";
     e_errors := errors; e_stack := None |}.

Definition ex_paths : list ErrorValue :=
  [ Object {| item_msg := None; item_message := JStr "Path name is required" |};
    Object {| item_msg := None; item_message := JStr "Path age is required" |} ].

Definition ex_numbered : JsError :=
  {| e_name := Some "Error"; e_code := JUndefined; e_status := JUndefined;
     e_statusCode := Some 404; e_message := JNum 5; e_errors := None;
     e_stack := None |}.

Definition ex_answer (env : Env) (err : JsError) : ErrorResponse :=
  match errorHandler (H:=ex_apiError) env err with
  | inr r => r
  | inl _ =>
      {| r_status := 0; r_message := ""; r_details := None; r_stack := None;
         r_requestId := None; r_hint := None; r_requiresWeb3 := false;
         r_retryAfter := None; r_securityEvent := false |}
  end.

Definition ex_thrower : Thrower :=
  {| libName := Some "Error"; libMessage := Some "failed"; stackTrace := None |}.

(** ** The login *)

Definition ex_address : string := "0xAbCdEf0123456789aBcDeF0123456789AbCdEf01".

(** 0x, in either case, and forty hexadecimal digits. *)
Definition is0x40 (s : string) : bool :=
  match s with
  | String a (String b rest) =>
      Ascii.eqb a "0" && (Ascii.eqb b "x" || Ascii.eqb b "X")
      && Nat.eqb (String.length rest) 40 && allHex rest
  | _ => false
  end.

(** Libraries for the examples.  The sanitizer is the one of the validation
    library on a string that has no separator of a mail address and is none
    of the mail domains it knows: all of the string is taken for the domain,
    and the result is the separator followed by the string in lower case.
    A signature names its signer in its first 42 characters. *)
Definition ex_libraries : WalletLibraries :=
  {| isEthereumAddress := is0x40;
     normalizeEmail := fun s => Some (String "@" (toLowerCase s));
     verifyMessage := fun _ signature => Some (String.substring 0 42 signature) |}.

Fixpoint filler (n : nat) : string :=
  match n with
  | O => EmptyString
  | S n => String "0" (filler n)
  end.

(** A signature of [signer], 130 characters long. *)
Definition ex_signature (signer : string) : string :=
  String.append signer (filler 88).

Definition ex_nonce1 : string := "44444444-4444-4444-8444-444444444444".
Definition ex_nonce2 : string := "55555555-5555-4555-8555-555555555555".

Definition ex_auth : AuthState :=
  {| nonceStore := ∅; timers := []; users := [] |}.

Definition ex_verify (signer nonce' : string) : VerifyRequest :=
  {| vq_walletAddress := ex_address; vq_signature := ex_signature signer;
     vq_nonce := nonce' |}.

(** The state after a nonce was issued at time 0, and after a second one at
    time 1000. *)
Definition ex_issued : AuthState :=
  snd (walletNonce (WL:=ex_libraries) 0 ex_nonce1 ex_address ex_auth).

Definition ex_reissued : AuthState :=
  snd (walletNonce (WL:=ex_libraries) 1000 ex_nonce2 ex_address
         ex_issued).

Definition ex_walletUser : User :=
  {| username := "user_abcdef"; displayName := "User abcdef";
     walletAddress := Some (toLowerCase ex_address);
     isWeb3Verified := true; lastLogin := Some 2000 |}.

(** The state after a first login of the wallet, without the routes. *)
Definition ex_firstLogin : AuthState :=
  snd (handleWalletAuthentication (WL:=ex_libraries) 2000 (ex_user "7") ex_address
         (ex_signature ex_address) ex_nonce1 ex_auth).

Definition ex_otherAddress : string := "0x1111111111111111111111111111111111111111".

(** What follows the first login: a nonce for the wallet, the login of
    another wallet, a request to the verify route that carries the nonce,
    and the timer of the nonce. *)
Definition ex_events : list WalletEvent :=
  [ NonceRequested 3000 ex_nonce2 ex_address;
    LoginCalled 4000 (ex_user "8") ex_otherAddress (ex_signature ex_otherAddress)
      ex_nonce1;
    VerifyRequested 5000 5000 (ex_user "9") (ex_verify ex_address ex_nonce2);
    TimerRan 303000 0 ].

(** ** A community, from its creation to its first vote *)

Definition isNameChar (a : ascii) : bool :=
  let n := Z.of_N (Ascii.N_of_ascii a) in
  ((48 <=? n) && (n <=? 57)) || ((65 <=? n) && (n <=? 90))
  || ((97 <=? n) && (n <=? 122))
  || Ascii.is_space a || (n =? 45) || (n =? 95).

Fixpoint allDigits (s : string) : bool :=
  match s with
  | EmptyString => true
  | String a rest =>
      let n := Z.of_N (Ascii.N_of_ascii a) in
      (48 <=? n) && (n <=? 57) && allDigits rest
  end.

(** Libraries for the examples: names of letters, digits, spaces, hyphens
    and underscores; fees in whole ether. *)
Definition ex_communityLibraries : CommunityLibraries :=
  {| matchesName := fun s =>
       negb (String.eqb s "")
       && forallb isNameChar (String.list_ascii_of_string s);
     isNumeric := fun v =>
       match v with
       | JNum _ => true
       | JStr s => negb (String.eqb s "") && allDigits s
       | _ => false
       end;
     parseEther := fun v =>
       match v with
       | JNum n => inr (pretty (n * 1000000000000000000))
       | _ => inl "invalid decimal value"
       end |}.

Definition ex_person (n name : string) : string * User :=
  (ex_user n,
   {| username := name; displayName := name; walletAddress := None;
      isWeb3Verified := false; lastLogin := None |}).

Definition ex_found : CommunityRequest :=
  {| cq_user := ex_person "0" "founder"; cq_name := "  Archive  ";
     cq_description := "Keepers of the archive"; cq_type := "FREE";
     cq_entryFee := None; cq_requiredNFT := None; cq_votingPower := None |}.

Definition ex_ids : CommunityGenerated :=
  {| cg_communityId := ex_community; cg_memberId := "m-0"; cg_joinedAt := 100;
     cg_adminRoleId := "r-admin"; cg_moderatorRoleId := "r-moderator";
     cg_memberRoleId := "r-member"; cg_treasury := None |}.

Definition ex_archive (members : Z) : CommunityRow :=
  {| co_name := "Archive"; co_description := "Keepers of the archive";
     co_type := "FREE"; co_entryFee := None; co_requiredNFT := None;
     co_votingPower := "EQUAL"; co_treasuryAddress := None;
     co_ownerId := ex_user "0"; co_memberCount := members |}.

Definition ex_join : JoinRequest :=
  {| jq_user := ex_person "1" "reader"; jq_communityId := ex_community;
     jq_paymentTxHash := None |}.

Definition ex_joinIds : JoinGenerated :=
  {| jg_memberId := "m-1"; jg_joinedAt := 200 |}.

Definition ex_ballot (n : string) : VoteRequest :=
  {| vr_user := ex_user n; vr_communityId := ex_community;
     vr_proposalId := newId ex_generated; vr_vote := JBool true;
     vr_txHash := None |}.

(** The store after the community was created, after the reader joined,
    after the founder opened a proposal and after the reader voted on it. *)
Definition ex_founded : Platform :=
  snd (createCommunity (EV:=asciiValidator) (WL:=ex_libraries)
         (CL:=ex_communityLibraries) ex_ids ex_found emptyPlatform).

Definition ex_grown : Platform :=
  snd (joinCommunity (EV:=asciiValidator) ex_joinIds ex_join ex_founded).

Definition ex_proposed : Platform :=
  snd (governance (createProposal (EV:=asciiValidator) 4000 ex_generated ex_create)
         ex_grown).

Definition ex_voted : Platform :=
  snd (governance (castVote (EV:=asciiValidator) 5000 5000 (ex_ballot "1"))
         ex_proposed).

(** The proposal the founder opened, without a vote, and with the one of
    the reader, which makes it pass: one vote of two members, in favour. *)
Definition ex_opened : Proposal :=
  newRow (EV:=asciiValidator) 4000 ex_generated ex_create false.

Definition ex_counted : Proposal :=
  setStatus PASSED (incrementVotes true 1 ex_opened).

(** The requests to the router, with the libraries of the examples. *)
Definition ex_routed : Platform -> Platform -> Prop :=
  routed (EV:=asciiValidator) (WL:=ex_libraries) (CL:=ex_communityLibraries).

(** A token-gated community with a fee of one ether, and two users who join
    it with the same transaction hash. *)
Definition ex_vault : string := "88888888-8888-4888-8888-888888888888".

Definition ex_foundVault : CommunityRequest :=
  {| cq_user := ex_person "0" "founder"; cq_name := "Vault";
     cq_description := "Members pay to enter"; cq_type := "TOKEN_GATED";
     cq_entryFee := Some (JNum 1); cq_requiredNFT := None;
     cq_votingPower := None |}.

Definition ex_vaultIds : CommunityGenerated :=
  {| cg_communityId := ex_vault; cg_memberId := "v-0"; cg_joinedAt := 100;
     cg_adminRoleId := "v-admin"; cg_moderatorRoleId := "v-moderator";
     cg_memberRoleId := "v-member"; cg_treasury := None |}.

Definition ex_pay (n name : string) : JoinRequest :=
  {| jq_user := ex_person n name; jq_communityId := ex_vault;
     jq_paymentTxHash := Some "ab12cd34" |}.

Definition ex_vaultFounded : Platform :=
  snd (createCommunity (EV:=asciiValidator) (WL:=ex_libraries)
         (CL:=ex_communityLibraries) ex_vaultIds ex_foundVault emptyPlatform).

Definition ex_vaultPaid : Platform :=
  snd (joinCommunity (EV:=asciiValidator) {| jg_memberId := "v-1"; jg_joinedAt := 200 |}
         (ex_pay "1" "reader") ex_vaultFounded).
(** * Properties *)

Section Properties.

Context `{EV : ExpressValidator}.

Lemma setStatus_same (p : Proposal) : setStatus (status p) p = p.
Proof. by destruct p. Qed.

Lemma resolveAfterVote_run now2 pid members p' (db : Db) :
  proposal db !! pid = Some p' ->
  resolveAfterVote now2 pid members p' db
  = (inr (Js.percent (totalVotes p') members),
     {| proposal := <[pid := resolved now2 members p']> (proposal db);
        proposalVote := proposalVote db;
        community := community db;
        communityMember := communityMember db |}).
Proof.
  intros Hp. unfold resolveAfterVote, resolved, bind, proposal_update, ret.
  destruct (Js.ge _ _); [destruct (Js.ge _ _); [|destruct (_ >? _)]|];
    rewrite ?Hp; try reflexivity.
  all: rewrite (insert_id _ _ _ Hp); by destruct db.
Qed.

Lemma bind_throwIf {B} (cond : bool) e (k : unit -> M B) db :
  bind (throwIf cond e) k db = if cond then (inl e, db) else k tt db.
Proof. by destruct cond. Qed.

Lemma bind_gets {A B} (f : Db -> A) (k : A -> M B) db :
  bind (gets f) k db = k (f db) db.
Proof. reflexivity. Qed.

Lemma bind_run {A B} (c : M A) (k : A -> M B) db a db' :
  c db = (inr a, db') -> bind c k db = k a db'.
Proof. unfold bind. by intros ->. Qed.

Lemma castVote_accepted now1 now2 req db p c b :
  Accepted now1 req db p c b ->
  castVote now1 now2 req db
  = (inr {| res_vote := JBool b;
            res_weight := votingWeight (votingPower c);
            res_yesVotes := yesVotes (incrementVotes b (votingWeight (votingPower c)) p);
            res_noVotes := noVotes (incrementVotes b (votingWeight (votingPower c)) p);
            res_totalVotes := totalVotes (incrementVotes b (votingWeight (votingPower c)) p);
            res_participationRate :=
              Js.percent (totalVotes (incrementVotes b (votingWeight (votingPower c)) p))
                (memberCount c) |},
     voted now2 req p c b db).
Proof.
  intros [Hv Hp Hr Ha Hw Hf (m & Hm & Hperm) Hg Hc Hb].
  unfold castVote, proposal_findUnique, communityMember_findUnique.
  rewrite bind_throwIf, Hv, bool_decide_eq_true_2 by done. cbn [negb].
  rewrite bind_gets, Hp. cbn [row votes communityOf].
  rewrite bind_throwIf, bool_decide_eq_true_2 by done. cbn [negb].
  rewrite bind_throwIf, bool_decide_eq_true_2 by done. cbn [negb].
  rewrite bind_throwIf. replace (now1 >? votingEndsAt p) with false by lia.
  rewrite bind_throwIf, Hf. cbn [length Z.of_nat Z.ltb Z.compare].
  rewrite bind_gets, Hm, bind_throwIf, Hperm. cbn [negb].
  rewrite bind_throwIf, Hg, Hc, Hb.
  erewrite bind_run by reflexivity.
  erewrite bind_run.
  2:{ unfold proposal_update. cbn [proposal]. rewrite Hp. reflexivity. }
  erewrite bind_run.
  2:{ apply resolveAfterVote_run. cbn [proposal]. apply lookup_insert_eq. }
  unfold ret, voted, newVote. cbn [proposal proposalVote community communityMember Js.truthy].
  by rewrite insert_insert_eq.
Qed.

Lemma admission_Accepted now1 req db p c b :
  admission now1 req db = inr (p, c, b) <-> Accepted now1 req db p c b.
Proof.
  unfold admission. split.
  - repeat (case_bool_decide || case_match); cbn [negb]; try discriminate.
    intros [= <- <- <-]. subst.
    split; try done; try lia.
    + by destruct (votesOf _ _ _).
    + eexists; split; [done|]. by destruct (hasPermission _ _).
  - intros [Hv Hp Hr Ha Hw Hf (m & Hm & Hperm) Hg Hc Hb].
    rewrite Hv, Hp, Hm, Hperm, Hg, Hc, Hb, Hf.
    rewrite !bool_decide_eq_true_2 by done. cbn [negb length].
    replace (now1 >? votingEndsAt p) with false by lia. done.
Qed.

Lemma castVote_admission now1 now2 req db :
  castVote now1 now2 req db
  = match admission now1 req db with
    | inl e => (inl e, db)
    | inr (p, c, b) => (inr (response req p c b), voted now2 req p c b db)
    end.
Proof.
  destruct (admission now1 req db) as [e|[[p c] b]] eqn:Hadm.
  2:{ apply admission_Accepted in Hadm. by apply castVote_accepted. }
  revert Hadm. unfold admission, castVote, proposal_findUnique,
    communityMember_findUnique.
  rewrite bind_throwIf. destruct (negb _); [by intros [= <-]|].
  rewrite bind_gets. destruct (proposal db !! _) as [p|]; [|by intros [= <-]].
  cbn [row votes communityOf].
  rewrite bind_throwIf. destruct (negb _); [by intros [= <-]|].
  rewrite bind_throwIf. destruct (negb _); [by intros [= <-]|].
  rewrite bind_throwIf. destruct (_ >? _); [by intros [= <-]|].
  rewrite bind_throwIf. destruct (_ <? _); [by intros [= <-]|].
  rewrite bind_gets. destruct (communityMember db !! _) as [m|]; [|by intros [= <-]].
  rewrite bind_throwIf. destruct (negb _); [by intros [= <-]|].
  rewrite bind_throwIf. destruct (_ && _); [by intros [= <-]|].
  destruct (community db !! _) as [c|]; [|by intros [= <-]].
  destruct (vr_vote req); try discriminate; by intros [= <-].
Qed.

Lemma createProposal_creation now g req db :
  createProposal now g req db
  = match creation now g req db with
    | inl e => (inl e, db)
    | inr p =>
        (inr {| created_id := newId g; created := p;
                created_canVote := true; created_hasVoted := false;
                created_timeRemaining :=
                  default 0 (pr_votingDuration req) * 60 * 60 * 1000 |},
         stored g p db)
    end.
Proof.
  unfold creation, createProposal, communityMember_findUnique.
  rewrite bind_throwIf. destruct (negb _); [done|].
  rewrite bind_gets. destruct (communityMember db !! _) as [m|]; [|done].
  rewrite bind_throwIf. destruct (negb _); [done|].
  unfold bind, proposal_create; cbn [nd_gasRequired newId nd_communityId].
  destruct (default _ _); try done.
  destruct (bool_decide (is_Some _)); [done|].
  destruct (bool_decide (_ = None)); done.
Qed.

Lemma getProposals_reads clock req db : snd (getProposals clock req db) = db.
Proof.
  unfold getProposals, communityMember_findUnique, proposal_findMany.
  rewrite bind_throwIf. destruct (negb _); [done|].
  rewrite bind_gets. destruct (communityMember db !! _); [|done].
  by rewrite bind_gets.
Qed.

(** *** The three shapes of a step *)

Lemma votingWeight_one vp : votingWeight vp = 1.
Proof. by destruct vp. Qed.

Lemma resolved_tallies now2 members p :
  yesVotes (resolved now2 members p) = yesVotes p
  /\ noVotes (resolved now2 members p) = noVotes p
  /\ totalVotes (resolved now2 members p) = totalVotes p.
Proof. unfold resolved. by repeat case_match. Qed.

Lemma resolved_status now2 members p :
  status (resolved now2 members p) = status p
  \/ status (resolved now2 members p) = PASSED
  \/ status (resolved now2 members p) = FAILED.
Proof. unfold resolved. repeat case_match; cbn; auto. Qed.

Lemma step_cases db db' :
  step db db' ->
  (proposal db' = proposal db /\ proposalVote db' = proposalVote db)
  \/ (exists now1 now2 req p c b,
        Accepted now1 req db p c b /\ db' = voted now2 req p c b db)
  \/ (exists now g req gas,
        proposal db !! newId g = None /\ db' = stored g (newRow now g req gas) db).
Proof.
  intros [now g req db0|now1 now2 req db0|clock req db0|db0 db1 Hp Hv].
  - rewrite createProposal_creation.
    destruct (creation now g req db0) as [e|p] eqn:Hc; [by left|].
    right; right. revert Hc. unfold creation.
    destruct (negb _); [done|].
    destruct (communityMember db0 !! _); [|done].
    destruct (negb _); [done|].
    destruct (default _ _) as [| |gas| |]; try done.
    case_bool_decide as Hs; [done|].
    case_bool_decide; [done|]. intros [= <-].
    exists now, g, req, gas. split; [|done].
    destruct (proposal db0 !! newId g) eqn:E; [|done]. destruct Hs; eauto.
  - rewrite castVote_admission.
    destruct (admission now1 req db0) as [e|[[p c] b]] eqn:Ha; [by left|].
    right; left. exists now1, now2, req, p, c, b.
    split; [by apply admission_Accepted|done].
  - left. by rewrite getProposals_reads.
  - by left.
Qed.

Lemma voted_lookup now2 req p c b db pid :
  proposal (voted now2 req p c b db) !! pid
  = if decide (vr_proposalId req = pid)
    then Some (resolved now2 (memberCount c)
                 (incrementVotes b (votingWeight (votingPower c)) p))
    else proposal db !! pid.
Proof. unfold voted. cbn [proposal]. apply lookup_insert. Qed.

Lemma stored_lookup g p db pid :
  proposal (stored g p db) !! pid
  = if decide (newId g = pid) then Some p else proposal db !! pid.
Proof. unfold stored. cbn [proposal]. apply lookup_insert. Qed.

(** *** Invariants, one step at a time *)

Lemma step_TallyInv db db' : step db db' -> TallyInv db -> TallyInv db'.
Proof.
  intros Hs Hinv pid q. apply step_cases in Hs
    as [[Hp _]|[(now1 & now2 & req & p & c & b & Hacc & ->)|(now & g & req & gas & Hfresh & ->)]].
  - rewrite Hp. apply Hinv.
  - rewrite voted_lookup. case_decide as Hid; [|apply Hinv].
    intros [= <-].
    destruct (resolved_tallies now2 (memberCount c)
                (incrementVotes b (votingWeight (votingPower c)) p)) as (-> & -> & ->).
    destruct (Hinv _ _ (acc_found _ _ _ _ _ _ Hacc)) as (? & ? & ? & ?).
    rewrite votingWeight_one. destruct b; cbn; lia.
  - rewrite stored_lookup. case_decide; [|apply Hinv].
    intros [= <-]. cbn. unfold defaultVotes. lia.
Qed.

Lemma step_TallyGrows db db' : step db db' -> TallyGrows db db'.
Proof.
  intros Hs pid q Hq. apply step_cases in Hs
    as [[Hp _]|[(now1 & now2 & req & p & c & b & Hacc & ->)|(now & g & req & gas & Hfresh & ->)]].
  - exists q. rewrite Hp. split; [done|lia].
  - rewrite voted_lookup. case_decide as Hid; [|exists q; split; [done|lia]].
    subst pid. rewrite (acc_found _ _ _ _ _ _ Hacc) in Hq. injection Hq as ->.
    eexists; split; [done|].
    destruct (resolved_tallies now2 (memberCount c)
                (incrementVotes b (votingWeight (votingPower c)) q)) as (-> & -> & ->).
    rewrite votingWeight_one. destruct b; cbn; lia.
  - rewrite stored_lookup. case_decide as Hid; [congruence|].
    exists q; split; [done|lia].
Qed.

Lemma step_StatusForward db db' : step db db' -> StatusForward db db'.
Proof.
  intros Hs pid q Hq. apply step_cases in Hs
    as [[Hp _]|[(now1 & now2 & req & p & c & b & Hacc & ->)|(now & g & req & gas & Hfresh & ->)]].
  - exists q. rewrite Hp. split; [done|by left].
  - rewrite voted_lookup. case_decide as Hid; [|exists q; split; [done|by left]].
    subst pid. rewrite (acc_found _ _ _ _ _ _ Hacc) in Hq. injection Hq as ->.
    eexists; split; [done|].
    pose proof (acc_active _ _ _ _ _ _ Hacc) as Hact.
    destruct (resolved_status now2 (memberCount c)
                (incrementVotes b (votingWeight (votingPower c)) q)) as [->| [-> | ->]];
      unfold forward; cbn; auto.
  - rewrite stored_lookup. case_decide as Hid; [congruence|].
    exists q; split; [done|by left].
Qed.

Lemma step_OneVoteEach db db' : step db db' -> OneVoteEach db -> OneVoteEach db'.
Proof.
  unfold OneVoteEach. intros Hs Hinv. apply step_cases in Hs
    as [[_ Hv]|[(now1 & now2 & req & p & c & b & Hacc & ->)|(now & g & req & gas & Hfresh & ->)]].
  - by rewrite Hv.
  - unfold voted. cbn [proposalVote]. rewrite fmap_app. apply NoDup_app.
    split; [done|]. split; [|apply NoDup_singleton].
    intros k Hk. cbn. rewrite list_elem_of_singleton. intros ->.
    apply list_elem_of_fmap in Hk as (v & Hkey & Hin).
    injection Hkey as Hpid Huid.
    by eapply (filter_nil_not_elem_of _ _ v (acc_first _ _ _ _ _ _ Hacc)).
  - done.
Qed.

Lemma votesOn_voted now2 req p c b db pid :
  votesOn pid (voted now2 req p c b db)
  = votesOn pid db
    ++ (if decide (vr_proposalId req = pid)
        then [newVote req b (votingWeight (votingPower c))] else []).
Proof.
  unfold votesOn, voted. cbn [proposalVote]. rewrite filter_app. by f_equal.
Qed.

Lemma step_CountInv db db' : step db db' -> CountInv db -> CountInv db'.
Proof.
  intros Hs [Hw Hc]. apply step_cases in Hs
    as [[Hp Hv]|[(now1 & now2 & req & p & c & b & Hacc & ->)|(now & g & req & gas & Hfresh & ->)]].
  - unfold CountInv, votesOn. rewrite Hp, Hv. by split.
  - split.
    + intros v. unfold voted at 1. cbn [proposalVote].
      rewrite elem_of_app, list_elem_of_singleton. intros [Hin| ->].
      * destruct (Hw v Hin) as [Hone Hrow]. split; [done|].
        rewrite voted_lookup. by case_decide.
      * cbn [newVote weight proposalId]. split; [apply votingWeight_one|].
        rewrite voted_lookup. by case_decide.
    + intros pid q. rewrite voted_lookup, votesOn_voted. case_decide as Hid.
      * intros [= <-]. subst pid.
        destruct (resolved_tallies now2 (memberCount c)
                (incrementVotes b (votingWeight (votingPower c)) p)) as (_ & _ & ->).
        rewrite length_app. cbn [incrementVotes totalVotes length].
        rewrite (Hc _ _ (acc_found _ _ _ _ _ _ Hacc)), votingWeight_one. lia.
      * intros Hq. rewrite app_nil_r. by apply Hc.
  - split.
    + intros v Hin. destruct (Hw v Hin) as [Hone Hrow]. split; [done|].
      rewrite stored_lookup. by case_decide.
    + intros pid q. rewrite stored_lookup. case_decide as Hid; [|apply Hc].
      intros [= <-]. subst pid. cbn [newRow totalVotes]. unfold defaultVotes.
      replace (votesOn (newId g) (stored g (newRow now g req gas) db)) with (@nil ProposalVote);
        [done|].
      symmetry. unfold votesOn, stored. cbn [proposalVote].
      induction (proposalVote db) as [|v l IH]; [done|].
      rewrite filter_cons. case_decide as Hv.
      * destruct (Hw v) as [_ [r Hr]]; [left|]. congruence.
      * apply IH. intros v' Hv'. apply Hw. by right.
Qed.

(** *** Invariants along any run *)

Lemma run_TallyInv db db' : rtc step db db' -> TallyInv db -> TallyInv db'.
Proof. induction 1; eauto using step_TallyInv. Qed.

Lemma run_TallyGrows db db' : rtc step db db' -> TallyGrows db db'.
Proof.
  induction 1 as [db|db db1 db2 Hs _ IH].
  - intros pid p Hp. exists p. split; [done|lia].
  - intros pid p Hp.
    destruct (step_TallyGrows _ _ Hs _ _ Hp) as (p1 & Hp1 & ? & ? & ?).
    destruct (IH _ _ Hp1) as (p2 & Hp2 & ? & ? & ?).
    exists p2. split; [done|lia].
Qed.

Lemma forward_trans s1 s2 s3 : forward s1 s2 -> forward s2 s3 -> forward s1 s3.
Proof. unfold forward. intros [->|[-> [->| ->]]] [->|[? [->| ->]]]; auto; discriminate. Qed.

Lemma run_StatusForward db db' : rtc step db db' -> StatusForward db db'.
Proof.
  induction 1 as [db|db db1 db2 Hs _ IH].
  - intros pid p Hp. exists p. split; [done|by left].
  - intros pid p Hp.
    destruct (step_StatusForward _ _ Hs _ _ Hp) as (p1 & Hp1 & ?).
    destruct (IH _ _ Hp1) as (p2 & Hp2 & ?).
    exists p2. split; [done|by eapply forward_trans].
Qed.

Lemma run_OneVoteEach db db' : rtc step db db' -> OneVoteEach db -> OneVoteEach db'.
Proof. induction 1; eauto using step_OneVoteEach. Qed.

Lemma run_CountInv db db' : rtc step db db' -> CountInv db -> CountInv db'.
Proof. induction 1; eauto using step_CountInv. Qed.

(** *** Rejections of the vote route *)

Lemma castVote_rejects now1 now2 req db e :
  admission now1 req db = inl e -> castVote now1 now2 req db = (inl e, db).
Proof. intros Ha. by rewrite castVote_admission, Ha. Qed.

Lemma hasVoted_rejected now1 req db :
  hasVoted (vr_proposalId req) (vr_user req) db ->
  exists e, admission now1 req db = inl e.
Proof.
  intros Hv. destruct (admission now1 req db) as [e|[[p c] b]] eqn:Ha; [eauto|].
  apply admission_Accepted in Ha. by destruct Hv, (acc_first _ _ _ _ _ _ Ha).
Qed.

Lemma closed_rejected now1 req db p :
  proposal db !! vr_proposalId req = Some p ->
  votingEndsAt p < now1 ->
  exists e, admission now1 req db = inl e.
Proof.
  intros Hp Hlt. destruct (admission now1 req db) as [e|[[q c] b]] eqn:Ha; [eauto|].
  apply admission_Accepted in Ha. pose proof (acc_found _ _ _ _ _ _ Ha) as Hq.
  pose proof (acc_window _ _ _ _ _ _ Ha). simplify_eq. lia.
Qed.

(** The first four guards, for a request that passes validation and names a
    row of its community. *)
Lemma admission_guards now1 req db p :
  voteValidation req = [] ->
  proposal db !! vr_proposalId req = Some p ->
  communityId p = vr_communityId req ->
  (status p <> ACTIVE -> admission now1 req db = inl ProposalNotActive)
  /\ (status p = ACTIVE -> votingEndsAt p < now1 ->
        admission now1 req db = inl VotingWindowClosed)
  /\ (status p = ACTIVE -> now1 <= votingEndsAt p ->
        hasVoted (vr_proposalId req) (vr_user req) db ->
        admission now1 req db = inl DuplicateVote).
Proof.
  intros Hv Hp Hr. unfold admission, hasVoted.
  rewrite Hv, Hp, (bool_decide_eq_true_2 _ Hr), (bool_decide_eq_true_2 ([] = [])) by done.
  cbn [negb]. repeat split.
  - intros Hs. by rewrite (bool_decide_eq_false_2 _ Hs).
  - intros Hs Hlt. rewrite (bool_decide_eq_true_2 _ Hs). cbn [negb].
    by replace (now1 >? votingEndsAt p) with true by lia.
  - intros Hs Hle Hvoted. rewrite (bool_decide_eq_true_2 _ Hs). cbn [negb].
    replace (now1 >? votingEndsAt p) with false by lia.
    by destruct (votesOf _ _ _).
Qed.

Lemma votesOf_voted now2 req p c b db :
  votesOf (vr_proposalId req) (vr_user req) (proposalVote db) = [] ->
  votesOf (vr_proposalId req) (vr_user req) (proposalVote (voted now2 req p c b db))
  = [newVote req b (votingWeight (votingPower c))].
Proof.
  intros Hf. unfold voted, votesOf in *. cbn [proposalVote].
  rewrite filter_app, Hf. cbn [app]. by rewrite filter_cons_True.
Qed.

(** *** Claims on the vote route *)

(** C1 (as amended): a vote by a voter who already has a recorded vote on
    the proposal always fails and leaves the store as it was, and the failure
    is DuplicateVote when the request passes validation and the proposal is
    found in its community, still ACTIVE and inside its window (an earlier
    guard answers otherwise); a vote that meets every condition of the route,
    among them that the voter has no vote on the proposal yet, succeeds and
    appends exactly one row to the ledger, the only vote of that pair; and a
    ledger with at most one vote per (proposal, voter) pair keeps that
    property whatever the call. *)
Theorem castVote_once_per_voter now1 now2 (req : VoteRequest) (db : Db) :
  OneVoteEach db ->
  OneVoteEach (snd (castVote now1 now2 req db))
  /\ (hasVoted (vr_proposalId req) (vr_user req) db ->
        (exists e, castVote now1 now2 req db = (inl e, db))
        /\ (forall p,
              voteValidation req = [] ->
              proposal db !! vr_proposalId req = Some p ->
              communityId p = vr_communityId req ->
              status p = ACTIVE ->
              now1 <= votingEndsAt p ->
              castVote now1 now2 req db = (inl DuplicateVote, db)))
  /\ (forall p c b,
        Accepted now1 req db p c b ->
        exists resp db',
          castVote now1 now2 req db = (inr resp, db')
          /\ proposalVote db' = proposalVote db ++ [newVote req b 1]
          /\ votesOf (vr_proposalId req) (vr_user req) (proposalVote db')
             = [newVote req b 1]).
Proof.
  intros Hone. split; [|split].
  - apply (step_OneVoteEach db); [apply step_vote|done].
  - intros Hv. split.
    + destruct (hasVoted_rejected now1 req db Hv) as [e He].
      exists e. by apply castVote_rejects.
    + intros p Hval Hp Hr Hs Hw. apply castVote_rejects.
      by apply (admission_guards now1 req db p).
  - intros p c b Hacc. rewrite (castVote_accepted _ _ _ _ _ _ _ Hacc).
    do 2 eexists. split; [done|].
    rewrite <- (votingWeight_one (votingPower c)). split; [done|].
    apply votesOf_voted, Hacc.
Qed.

(** C5 (as amended): the status of a proposal only moves forward, whatever
    the engine does: along any run it stays as it is or goes from ACTIVE to
    PASSED or to FAILED, so a PASSED or FAILED proposal never becomes ACTIVE
    again and never changes sides; and once the status is not ACTIVE, every
    vote that names the proposal fails and leaves the whole store, tallies
    included, as it was; the failure is ProposalNotActive when the request
    passes validation and names the proposal in its community. *)
Theorem status_forward_only (db db' : Db) :
  rtc step db db' ->
  StatusForward db db'
  /\ (forall now1 now2 req p,
        proposal db' !! vr_proposalId req = Some p ->
        status p <> ACTIVE ->
        (exists e, castVote now1 now2 req db' = (inl e, db'))
        /\ (voteValidation req = [] ->
            communityId p = vr_communityId req ->
            castVote now1 now2 req db' = (inl ProposalNotActive, db'))).
Proof.
  intros Hrun. split; [by apply run_StatusForward|].
  intros now1 now2 req p Hp Hs. split.
  - destruct (admission now1 req db') as [e|[[q c] b]] eqn:Ha.
    + exists e. by apply castVote_rejects.
    + apply admission_Accepted in Ha.
      pose proof (acc_found _ _ _ _ _ _ Ha). pose proof (acc_active _ _ _ _ _ _ Ha).
      by simplify_eq.
  - intros Hval Hr. apply castVote_rejects.
    by apply (admission_guards now1 req db' p).
Qed.

(** C7 (as amended): a vote cast after [votingEndsAt] of the proposal it
    names always fails and records nothing; for a request that passes
    validation and names the proposal in its community the failure is
    VotingWindowClosed when the stored status is still ACTIVE, and
    ProposalNotActive when the status is already terminal. *)
Theorem castVote_after_window now1 now2 (req : VoteRequest) (db : Db) (p : Proposal) :
  proposal db !! vr_proposalId req = Some p ->
  votingEndsAt p < now1 ->
  (exists e, castVote now1 now2 req db = (inl e, db))
  /\ (voteValidation req = [] ->
      communityId p = vr_communityId req ->
      castVote now1 now2 req db
      = (inl (if decide (status p = ACTIVE) then VotingWindowClosed
              else ProposalNotActive), db)).
Proof.
  intros Hp Hlt. split.
  - destruct (closed_rejected now1 req db p Hp Hlt) as [e He].
    exists e. by apply castVote_rejects.
  - intros Hval Hr. apply castVote_rejects.
    destruct (admission_guards now1 req db p Hval Hp Hr) as (Hna & Hwc & _).
    case_decide; auto.
Qed.




(** *** Claims on the tallies *)

Lemma castVote_succeeds now1 now2 req db resp db1 :
  castVote now1 now2 req db = (inr resp, db1) ->
  exists p c b,
    Accepted now1 req db p c b
    /\ resp = response req p c b /\ db1 = voted now2 req p c b db.
Proof.
  rewrite castVote_admission.
  destruct (admission now1 req db) as [e|[[p c] b]] eqn:Ha; [done|].
  intros [= <- <-]. exists p, c, b. split; [by apply admission_Accepted|done].
Qed.

Lemma creation_inr now g req db q :
  creation now g req db = inr q <->
  exists gas m,
    q = newRow now g req gas
    /\ proposalValidation req = []
    /\ communityMember db !! (pr_user req, pr_communityId req) = Some m
    /\ hasPermission "CREATE_PROPOSALS" m = true
    /\ default (JBool false) (pr_gasRequired req) = JBool gas
    /\ proposal db !! newId g = None
    /\ is_Some (community db !! pr_communityId req).
Proof.
  unfold creation. split.
  - case_bool_decide as Hv; cbn [negb]; [|done].
    destruct (communityMember db !! _) as [m|]; [|done].
    destruct (hasPermission _ m) eqn:Hperm; cbn [negb]; [|done].
    destruct (default _ _) as [| |gas| |] eqn:Hgas; try done.
    case_bool_decide as Hs; [done|]. case_bool_decide as Hc; [done|].
    intros [= <-]. exists gas, m. repeat split; try done.
    + destruct (proposal db !! newId g) eqn:E; [|done]. destruct Hs; eauto.
    + destruct (community db !! _) eqn:E; [eauto|done].
  - intros (gas & m & -> & Hv & Hm & Hperm & Hgas & Hfresh & [c Hc]).
    rewrite Hv, Hm, Hperm, Hgas, Hfresh, Hc.
    rewrite bool_decide_eq_true_2 by done. cbn [negb].
    rewrite !bool_decide_eq_false_2; [done|done|]. by intros [? ?].
Qed.

Lemma createProposal_keeps now g req db pid p :
  proposal db !! pid = Some p ->
  proposal (snd (createProposal now g req db)) !! pid = Some p.
Proof.
  intros Hp. rewrite createProposal_creation.
  destruct (creation now g req db) as [e|q] eqn:Hc; [done|].
  cbn [snd]. rewrite stored_lookup. case_decide as Hid; [|done].
  apply creation_inr in Hc as (gas & m & _ & _ & _ & _ & _ & Hfresh & _).
  congruence.
Qed.

(** C4: along any run of the engine the three counters of every proposal
    satisfy yesVotes + noVotes = totalVotes and are non-negative, and none of
    them ever decreases; a successful vote adds its weight to the counter of
    the chosen side and to totalVotes, and changes no counter of another
    proposal; creating a proposal and listing proposals leave the counters of
    every existing proposal as they were. *)
Theorem tallies_balanced_and_monotone (db db' : Db) :
  TallyInv db ->
  rtc step db db' ->
  TallyInv db'
  /\ TallyGrows db db'
  /\ (forall now1 now2 req resp db1,
        castVote now1 now2 req db' = (inr resp, db1) ->
        exists p p' b w,
          vr_vote req = JBool b /\ 0 < w
          /\ proposal db' !! vr_proposalId req = Some p
          /\ proposal db1 !! vr_proposalId req = Some p'
          /\ yesVotes p' = yesVotes p + (if b then w else 0)
          /\ noVotes p' = noVotes p + (if b then 0 else w)
          /\ totalVotes p' = totalVotes p + w
          /\ (forall pid, pid <> vr_proposalId req ->
                proposal db1 !! pid = proposal db' !! pid))
  /\ (forall now g req pid p,
        proposal db' !! pid = Some p ->
        proposal (snd (createProposal now g req db')) !! pid = Some p)
  /\ (forall clock req, snd (getProposals clock req db') = db').
Proof.
  intros Hinv Hrun. split; [by apply (run_TallyInv db)|].
  split; [by apply run_TallyGrows|]. split; [|split].
  - intros now1 now2 req resp db1 Hcast.
    apply castVote_succeeds in Hcast as (p & c & b & Hacc & _ & ->).
    eexists p, _, b, 1. split; [apply Hacc|]. split; [lia|].
    split; [apply Hacc|]. rewrite voted_lookup, decide_True by done.
    split; [done|].
    destruct (resolved_tallies now2 (memberCount c)
                (incrementVotes b (votingWeight (votingPower c)) p)) as (-> & -> & ->).
    rewrite votingWeight_one. repeat split.
    + destruct b; cbn; lia.
    + destruct b; cbn; lia.
    + intros pid Hne. rewrite voted_lookup. by rewrite decide_False.
  - intros. by apply createProposal_keeps.
  - intros. apply getProposals_reads.
Qed.

(** C10: whatever the voting power mode of the community (EQUAL,
    TOKEN_WEIGHTED or NFT_WEIGHTED), the weight of an accepted vote is 1: it
    is the weight returned, the weight stored on the vote and the amount
    added to totalVotes; so along any run every recorded vote has weight 1
    and the totalVotes of a proposal is the number of votes recorded on
    it. *)
Theorem every_vote_weighs_one (db db' : Db) :
  CountInv db ->
  rtc step db db' ->
  CountInv db'
  /\ (forall vp, votingWeight vp = 1)
  /\ (forall now1 now2 req resp db1,
        castVote now1 now2 req db' = (inr resp, db1) ->
        res_weight resp = 1
        /\ exists b p p',
            proposalVote db1 = proposalVote db' ++ [newVote req b 1]
            /\ proposal db' !! vr_proposalId req = Some p
            /\ proposal db1 !! vr_proposalId req = Some p'
            /\ totalVotes p' = totalVotes p + 1).
Proof.
  intros Hinv Hrun. split; [by apply (run_CountInv db)|].
  split; [apply votingWeight_one|].
  intros now1 now2 req resp db1 Hcast.
  apply castVote_succeeds in Hcast as (p & c & b & Hacc & -> & ->).
  split; [apply votingWeight_one|].
  exists b, p. eexists. rewrite voted_lookup, decide_True by done.
  unfold voted at 1. cbn [proposalVote]. rewrite votingWeight_one.
  split; [done|]. split; [apply Hacc|]. split; [done|].
  by destruct (resolved_tallies now2 (memberCount c) (incrementVotes b 1 p))
    as (_ & _ & ->).
Qed.

(** *** Claims on the create route *)

Lemma isInt_outside lo hi v :
  outside lo hi v ->
  isInt (Some lo) (Some hi) v = false
  /\ optional (isInt (Some lo) (Some hi)) v = false.
Proof.
  intros (n & -> & Hn). cbn.
  split; apply andb_false_iff; lia.
Qed.

Lemma isInt_inside lo hi v :
  isInt (Some lo) (Some hi) v = true -> exists n, v = Some n /\ lo <= n <= hi.
Proof.
  destruct v as [n|]; [|done]. cbn. intros [? ?]%andb_true_iff.
  exists n. split; [done|lia].
Qed.

Lemma chain_nil ok msg : chain ok msg = [] -> ok = true.
Proof. by destruct ok. Qed.

Lemma createProposal_invalid now g req db :
  proposalValidation req <> [] ->
  createProposal now g req db = (inl (ValidationError (proposalValidation req)), db).
Proof.
  intros Hne. rewrite createProposal_creation. unfold creation.
  by rewrite bool_decide_eq_false_2.
Qed.

Lemma proposalValidation_range req :
  outside 1 168 (pr_votingDuration req)
  \/ outside 1 100 (pr_requiredQuorum req)
  \/ outside 1 100 (pr_passingThreshold req) ->
  "Voting duration must be between 1 and 168 hours" ∈ proposalValidation req
  \/ "Quorum must be between 1 and 100 percent" ∈ proposalValidation req
  \/ "Passing threshold must be between 1 and 100 percent" ∈ proposalValidation req.
Proof.
  unfold proposalValidation.
  intros [H|[H|H]]; apply isInt_outside in H as [H1 H2].
  - left. do 4 (apply elem_of_app; right). apply elem_of_app; left.
    rewrite H1. by left.
  - right; left. do 5 (apply elem_of_app; right). apply elem_of_app; left.
    rewrite H2. by left.
  - right; right. do 6 (apply elem_of_app; right). apply elem_of_app; left.
    rewrite H2. by left.
Qed.

Lemma proposalValidation_duration req :
  proposalValidation req = [] ->
  exists d, pr_votingDuration req = Some d /\ 1 <= d <= 168.
Proof.
  unfold proposalValidation. intros H.
  do 4 (apply app_nil in H as [_ H]). apply app_nil in H as [H _].
  by apply chain_nil, isInt_inside in H.
Qed.

(** C8 (as amended): the create route rejects with InvalidRange (the
    validation failure carrying the range message) every call whose voting
    duration is outside [1,168] hours or whose quorum or threshold is outside
    [1,100]; it rejects with PermissionDenied (status 403) every call that
    passes validation from an author without the CREATE_PROPOSALS permission
    in the community; both leave the store as it was.  A call that passes
    validation from an author who has the permission succeeds (the store
    generating a fresh id for a row of an existing community), and every
    success stores a row whose votingStartsAt is the current time, whose
    votingEndsAt is votingStartsAt plus the duration in hours, whose status is
    ACTIVE, whose three tallies are zero and whose quorum and threshold are
    those of the request, 50 when omitted. *)
Theorem createProposal_contract now g (req : ProposalRequest) (db : Db) :
  (outside 1 168 (pr_votingDuration req)
   \/ outside 1 100 (pr_requiredQuorum req)
   \/ outside 1 100 (pr_passingThreshold req) ->
   exists e, createProposal now g req db = (inl e, db) /\ InvalidRange e)
  /\ (proposalValidation req = [] ->
      (forall m, communityMember db !! (pr_user req, pr_communityId req) = Some m ->
                 hasPermission "CREATE_PROPOSALS" m = false) ->
      exists e, createProposal now g req db = (inl e, db) /\ PermissionDenied e)
  /\ (proposalValidation req = [] ->
      (exists m, communityMember db !! (pr_user req, pr_communityId req) = Some m
                 /\ hasPermission "CREATE_PROPOSALS" m = true) ->
      (forall v, pr_gasRequired req = Some v -> exists gas, v = JBool gas) ->
      proposal db !! newId g = None ->
      is_Some (community db !! pr_communityId req) ->
      exists resp db', createProposal now g req db = (inr resp, db'))
  /\ (forall resp db',
        createProposal now g req db = (inr resp, db') ->
        let p := created resp in
        proposal db !! created_id resp = None
        /\ proposal db' !! created_id resp = Some p
        /\ votingStartsAt p = now
        /\ (exists d, pr_votingDuration req = Some d /\ 1 <= d <= 168
                      /\ votingEndsAt p = votingStartsAt p + d * 60 * 60 * 1000)
        /\ status p = ACTIVE
        /\ yesVotes p = 0 /\ noVotes p = 0 /\ totalVotes p = 0
        /\ requiredQuorum p = default 50 (pr_requiredQuorum req)
        /\ passingThreshold p = default 50 (pr_passingThreshold req)).
Proof.
  split; [|split; [|split]].
  - intros Hout%proposalValidation_range.
    exists (ValidationError (proposalValidation req)). split.
    + apply createProposal_invalid. intros Hnil. rewrite Hnil in Hout.
      by destruct Hout as [H|[H|H]]; apply not_elem_of_nil in H.
    + by exists (proposalValidation req).
  - intros Hval Hno. rewrite createProposal_creation. unfold creation.
    rewrite Hval, bool_decide_eq_true_2 by done. cbn [negb].
    destruct (communityMember db !! _) as [m|] eqn:Hm.
    + rewrite (Hno m eq_refl). cbn [negb]. by eexists.
    + by eexists.
  - intros Hval (m & Hm & Hperm) Hgas Hfresh Hcomm.
    rewrite createProposal_creation.
    destruct (creation now g req db) as [e|q] eqn:Hc; [|by eauto].
    assert (exists q, creation now g req db = inr q) as [q Hq]; [|congruence].
    destruct (pr_gasRequired req) as [v|] eqn:Hv.
    + destruct (Hgas v eq_refl) as [gas ->].
      exists (newRow now g req gas). apply creation_inr.
      exists gas, m. rewrite Hv. by repeat split.
    + exists (newRow now g req false). apply creation_inr.
      exists false, m. rewrite Hv. by repeat split.
  - intros resp db'. rewrite createProposal_creation.
    destruct (creation now g req db) as [e|q] eqn:Hc; [done|].
    intros [= <- <-]. cbn [created created_id].
    apply creation_inr in Hc as (gas & m & -> & Hval & _ & _ & _ & Hfresh & _).
    destruct (proposalValidation_duration req Hval) as (d & Hd & Hrange).
    rewrite stored_lookup, decide_True by done.
    cbn [newRow votingStartsAt votingEndsAt status yesVotes noVotes totalVotes
         requiredQuorum passingThreshold].
    repeat split; try done.
    exists d. rewrite Hd. by repeat split; try lia.
Qed.

(** *** Claims on the read route *)

Lemma findMany_rows cid st uid skip tk db l i x :
  proposal_findMany cid st uid skip tk db = (inr l, db) ->
  l !! i = Some x ->
  proposal db !! l_id x = Some (l_row x).
Proof.
  unfold proposal_findMany, gets. intros [= <-].
  rewrite list_lookup_fmap.
  destruct (_ !! i) as [[k p]|] eqn:Hi; [|done]. intros [= <-]. cbn [l_id l_row fst snd].
  apply list_elem_of_lookup_2, subseteq_take, subseteq_drop in Hi.
  rewrite merge_sort_Permutation in Hi.
  apply list_elem_of_In, filter_In in Hi as [Hi _].
  by apply list_elem_of_In, elem_of_map_to_list in Hi.
Qed.

Lemma formatProposal_expired now x :
  votingEndsAt (l_row x) <= now ->
  f_timeRemaining (formatProposal now x) = 0
  /\ f_isActive (formatProposal now x) = false
  /\ f_canVote (formatProposal now x) = false.
Proof.
  intros Hle. unfold formatProposal. cbn.
  replace (Z.max 0 (votingEndsAt (l_row x) - now)) with 0 by lia.
  by rewrite andb_false_r.
Qed.

(** C3 (as amended): reading the proposals never writes to the store.  For
    every read, the store afterwards is the store before, and every
    proposal returned is the stored row with its stored status: an ACTIVE
    proposal whose votingEndsAt is in the past is returned, and stays
    stored, as ACTIVE; the read only reports it with no time remaining, not
    active and not open to vote. *)
Theorem getProposals_only_reads (clock : nat -> Z) (req : ListRequest) (db : Db) :
  snd (getProposals clock req db) = db
  /\ (forall resp,
        fst (getProposals clock req db) = inr resp ->
        forall i f,
          proposals resp !! i = Some f ->
          proposal db !! f_id f = Some (f_proposal f)
          /\ (votingEndsAt (f_proposal f) < clock i ->
              f_timeRemaining f = 0 /\ f_isActive f = false /\ f_canVote f = false)).
Proof.
  split; [apply getProposals_reads|].
  intros resp. unfold getProposals, communityMember_findUnique.
  rewrite bind_throwIf. destruct (negb _); [done|].
  rewrite bind_gets. destruct (communityMember db !! _); [|done].
  unfold bind.
  destruct (proposal_findMany _ _ _ _ _ db) as [[e|l] db1] eqn:Hl; [done|].
  assert (db1 = db) as -> by (revert Hl; unfold proposal_findMany, gets; congruence).
  intros [= <-] i f. cbn [proposals]. rewrite list_lookup_imap.
  destruct (l !! i) as [x|] eqn:Hx; [|done]. intros [= <-].
  split.
  - cbn [formatProposal f_id f_proposal]. by eapply findMany_rows.
  - intros Hlt. apply formatProposal_expired. cbn [formatProposal f_proposal] in Hlt. lia.
Qed.

(** *** The resolution check against the reference policy *)

Lemma resolved_resolve now2 members p :
  status p = ACTIVE ->
  now2 <= votingEndsAt p
  \/ Js.ge (Js.percent (totalVotes p) members) (Js.Number (requiredQuorum p)) = true ->
  status (resolved now2 members p) = Spec.resolve now2 members p.
Proof.
  intros Hs Hok. unfold resolved, Spec.resolve.
  destruct (Js.ge (Js.percent (totalVotes p) members) _) eqn:Hq.
  - destruct (Js.ge (Js.percent (yesVotes p) _) _); [reflexivity|].
    destruct (_ >? _); [reflexivity|exact Hs].
  - destruct Hok as [Hle|?]; [|done].
    replace (now2 >? votingEndsAt p) with false by lia. exact Hs.
Qed.

(** The percentages are binary64: 29 votes of 100 members make
    28.999999999999996 percent, below a quorum of 29, in the route and in
    [Spec.resolve] alike. *)
Lemma participation_is_rounded :
  Js.ge (Js.percent 29 100) (Js.Number 29) = false.
Proof. by vm_compute. Qed.

(** Where the vote route and the reference policy agree: after a successful
    vote the stored status is [Spec.resolve] of the updated row whenever the
    clock read while resolving is not past votingEndsAt, or quorum is met. *)
Lemma castVote_resolve_agree now1 now2 req db resp db1 :
  castVote now1 now2 req db = (inr resp, db1) ->
  exists p c p1,
    proposal db !! vr_proposalId req = Some p
    /\ community db !! communityId p = Some c
    /\ proposal db1 !! vr_proposalId req = Some p1
    /\ (now2 <= votingEndsAt p1
        \/ Js.ge (Js.percent (totalVotes p1) (memberCount c))
                 (Js.Number (requiredQuorum p1)) = true ->
        status p1 = Spec.resolve now2 (memberCount c) p1).
Proof.
  intros Hcast. apply castVote_succeeds in Hcast as (p & c & b & Hacc & _ & ->).
  exists p, c. eexists. split; [apply Hacc|]. split; [apply Hacc|].
  rewrite voted_lookup, decide_True by done. split; [done|].
  set (p' := incrementVotes b (votingWeight (votingPower c)) p).
  assert (Hact : status p' = ACTIVE) by apply Hacc.
  assert (Hsame : Spec.resolve now2 (memberCount c) (resolved now2 (memberCount c) p')
                  = Spec.resolve now2 (memberCount c) p').
  { unfold resolved. by repeat case_match. }
  assert (Hfields : votingEndsAt (resolved now2 (memberCount c) p') = votingEndsAt p'
                    /\ requiredQuorum (resolved now2 (memberCount c) p') = requiredQuorum p').
  { unfold resolved. by repeat case_match. }
  destruct Hfields as [-> ->], (resolved_tallies now2 (memberCount c) p') as (_ & _ & ->).
  rewrite Hsame. intros Hok. by apply resolved_resolve.
Qed.

(** *** Early exit *)

Lemma early_exit_percentages k :
  0 <= k < 5 ->
  Js.ge (Js.percent (k + 1) 10) (Js.Number 50) = bool_decide (k = 4)
  /\ Js.ge (Js.percent (k + 1) (k + 1)) (Js.Number 60) = true.
Proof.
  intros Hk.
  assert (k = 0 \/ k = 1 \/ k = 2 \/ k = 3 \/ k = 4) as [->|[->|[->|[->| ->]]]] by lia;
    by vm_compute.
Qed.

(** One more yes vote on a proposal with quorum 50 and threshold 60 in a
    community of ten, after [k] yes votes and no other. *)
Lemma yes_vote_step now1 now2 req db resp db1 pid p c k :
  castVote now1 now2 req db = (inr resp, db1) ->
  vr_proposalId req = pid ->
  vr_vote req = JBool true ->
  proposal db !! pid = Some p ->
  community db !! communityId p = Some c ->
  memberCount c = 10 ->
  requiredQuorum p = 50 -> passingThreshold p = 60 ->
  yesVotes p = k -> noVotes p = 0 -> totalVotes p = k ->
  0 <= k < 5 ->
  now1 <= votingEndsAt p
  /\ exists p1,
      proposal db1 !! pid = Some p1
      /\ community db1 !! communityId p1 = Some c
      /\ votingEndsAt p1 = votingEndsAt p
      /\ requiredQuorum p1 = 50 /\ passingThreshold p1 = 60
      /\ yesVotes p1 = k + 1 /\ noVotes p1 = 0 /\ totalVotes p1 = k + 1
      /\ status p1 = if bool_decide (k = 4) then PASSED else ACTIVE.
Proof.
  intros Hcast <- Hyes Hp Hc Hm Hq Ht Hy Hn Htot Hk.
  apply castVote_succeeds in Hcast as (p' & c' & b & Hacc & _ & ->).
  pose proof (acc_found _ _ _ _ _ _ Hacc) as Hp'.
  pose proof (acc_community _ _ _ _ _ _ Hacc) as Hc'.
  pose proof (acc_choice _ _ _ _ _ _ Hacc) as Hb.
  rewrite Hp in Hp'. injection Hp' as <-. rewrite Hc in Hc'. injection Hc' as <-.
  rewrite Hyes in Hb. injection Hb as <-.
  split; [apply Hacc|].
  rewrite voted_lookup, decide_True by done. eexists. split; [done|].
  unfold resolved. rewrite votingWeight_one, Hm.
  cbn [incrementVotes totalVotes yesVotes requiredQuorum passingThreshold].
  rewrite Hq, Ht, Hy, Htot.
  destruct (early_exit_percentages k Hk) as [-> ->].
  pose proof (acc_active _ _ _ _ _ _ Hacc) as Hact.
  case_bool_decide;
    cbn [setStatus incrementVotes communityId votingEndsAt requiredQuorum
         passingThreshold yesVotes noVotes totalVotes status voted community];
    repeat split; try done; try lia.
Qed.

(** C6: on a proposal with requiredQuorum 50 and passingThreshold 60 and no
    vote yet, in a community of 10 members, five successful yes votes in a
    row leave the proposal PASSED right after the fifth, with a tally of
    five yes out of five, although each of them was cast before
    votingEndsAt. *)
Theorem early_exit (calls : list (Z * Z * VoteRequest)) (db db' : Db)
    (pid : string) (p : Proposal) (c : Community) :
  proposal db !! pid = Some p ->
  community db !! communityId p = Some c ->
  requiredQuorum p = 50 ->
  passingThreshold p = 60 ->
  memberCount c = 10 ->
  yesVotes p = 0 -> noVotes p = 0 -> totalVotes p = 0 ->
  length calls = 5%nat ->
  Forall (fun call => vr_proposalId (snd call) = pid
                      /\ vr_vote (snd call) = JBool true) calls ->
  castVotes calls db = Some db' ->
  Forall (fun call => fst (fst call) <= votingEndsAt p) calls
  /\ exists p',
      proposal db' !! pid = Some p'
      /\ status p' = PASSED
      /\ yesVotes p' = 5 /\ noVotes p' = 0 /\ totalVotes p' = 5.
Proof.
  intros Hp Hc Hq Ht Hm Hy Hn Htot Hlen Hall Hrun.
  destruct calls as [|[[a1 b1] r1] [|[[a2 b2] r2] [|[[a3 b3] r3]
    [|[[a4 b4] r4] [|[[a5 b5] r5] [|]]]]]]; try discriminate Hlen.
  apply Forall_cons in Hall as [[Hi1 Hv1] Hall].
  apply Forall_cons in Hall as [[Hi2 Hv2] Hall].
  apply Forall_cons in Hall as [[Hi3 Hv3] Hall].
  apply Forall_cons in Hall as [[Hi4 Hv4] Hall].
  apply Forall_cons in Hall as [[Hi5 Hv5] _].
  cbn [snd] in *. cbn [castVotes] in Hrun.
  destruct (castVote a1 b1 r1 db) as [[e|resp1] db1] eqn:H1; [done|].
  destruct (yes_vote_step _ _ _ _ _ _ pid p c 0 H1)
    as (Hw1 & p1 & Hp1 & Hc1 & He1 & Hq1 & Ht1 & Hy1 & Hn1 & Htot1 & _);
    try done.
  destruct (castVote a2 b2 r2 db1) as [[e|resp2] db2] eqn:H2; [done|].
  destruct (yes_vote_step _ _ _ _ _ _ pid p1 c 1 H2)
    as (Hw2 & p2 & Hp2 & Hc2 & He2 & Hq2 & Ht2 & Hy2 & Hn2 & Htot2 & _);
    try done.
  destruct (castVote a3 b3 r3 db2) as [[e|resp3] db3] eqn:H3; [done|].
  destruct (yes_vote_step _ _ _ _ _ _ pid p2 c 2 H3)
    as (Hw3 & p3 & Hp3 & Hc3 & He3 & Hq3 & Ht3 & Hy3 & Hn3 & Htot3 & _);
    try done.
  destruct (castVote a4 b4 r4 db3) as [[e|resp4] db4] eqn:H4; [done|].
  destruct (yes_vote_step _ _ _ _ _ _ pid p3 c 3 H4)
    as (Hw4 & p4 & Hp4 & Hc4 & He4 & Hq4 & Ht4 & Hy4 & Hn4 & Htot4 & _);
    try done.
  destruct (castVote a5 b5 r5 db4) as [[e|resp5] db5] eqn:H5; [done|].
  destruct (yes_vote_step _ _ _ _ _ _ pid p4 c 4 H5)
    as (Hw5 & p5 & Hp5 & Hc5 & He5 & Hq5 & Ht5 & Hy5 & Hn5 & Htot5 & Hs5);
    try done.
  injection Hrun as <-. split.
  - repeat (apply Forall_cons; split; [cbn [fst]; lia|]). constructor.
  - by exists p5.
Qed.

Lemma castVotes_run calls db db' :
  castVotes calls db = Some db' -> rtc step db db'.
Proof.
  revert db. induction calls as [|[[now1 now2] req] calls IH]; intros db.
  - intros [= <-]. apply rtc_refl.
  - cbn [castVotes].
    destruct (castVote now1 now2 req db) as [[e|resp] db1] eqn:Hc; [done|].
    intros Hrest. apply rtc_l with db1; [|by apply IH].
    replace db1 with (snd (castVote now1 now2 req db)) by by rewrite Hc.
    apply step_vote.
Qed.

End Properties.

(** * The error middleware *)

Section ErrorMiddleware.

Context `{AE : ApiErrorClass}.

Lemma errorHandler_inr env err r :
  errorHandler env err = inr r ->
  exists error,
    rewriteError err = inr error
    /\ r_status r = statusOf error
    /\ r_details r = v_errors error.
Proof.
  unfold errorHandler. destruct (rewriteError err) as [t|error]; [done|].
  intros [= <-]. by exists error.
Qed.

Lemma messageOf_throws val t :
  messageOf val = inl t
  <-> t = TypeError /\ (val = Primitive JNull \/ val = Primitive JUndefined).
Proof.
  unfold messageOf. split.
  - repeat case_match; intros [= <-]; auto.
  - by intros (-> & [->| ->]).
Qed.

Lemma messagesOf_throws values t :
  messagesOf values = inl t
  <-> t = TypeError
      /\ (Primitive JNull ∈ values \/ Primitive JUndefined ∈ values).
Proof.
  revert t. induction values as [|val rest IH]; intros t; cbn [messagesOf].
  - split; [done|]. intros (_ & [H|H]); by apply not_elem_of_nil in H.
  - rewrite !elem_of_cons. pose proof (messageOf_throws val) as Hval.
    destruct (messageOf val) as [t'|message].
    + destruct (proj1 (Hval t') eq_refl) as (-> & Hnull).
      split; [intros [= <-]|by intros (-> & _)].
      split; [done|]. destruct Hnull as [->| ->]; auto.
    + assert (Hhere : ~ (val = Primitive JNull \/ val = Primitive JUndefined)).
      { intros H. discriminate (proj2 (Hval TypeError) (conj eq_refl H)). }
      destruct (messagesOf rest) as [t'|messages].
      * rewrite IH. split; [intros (-> & [?|?]); auto|].
        intros (-> & [[?|?]|[?|?]]); auto; destruct Hhere; auto.
      * split; [done|].
        assert (Hrest : ~ (Primitive JNull ∈ rest \/ Primitive JUndefined ∈ rest)).
        { intros H. discriminate (proj2 (IH TypeError) (conj eq_refl H)). }
        intros (-> & [[<-|?]|[<-|?]]); exfalso; tauto.
Qed.

Lemma extractMessages_throws errors t :
  extractMessages errors = inl t
  <-> t = TypeError
      /\ (errors = None
          \/ exists values,
               errors = Some values
               /\ (Primitive JNull ∈ values \/ Primitive JUndefined ∈ values)).
Proof.
  destruct errors as [values|]; cbn [extractMessages].
  - rewrite messagesOf_throws. split.
    + intros (-> & Hin). split; [done|]. right. by exists values.
    + intros (-> & [?|(values' & [= <-] & Hin)]); done.
  - split; [intros [= <-]; auto|by intros (-> & _)].
Qed.

Lemma notIncludable_spec v :
  notIncludable v = true <-> Js.truthy v = true /\ forall m, v <> JStr m.
Proof.
  unfold notIncludable. rewrite andb_true_iff, negb_true_iff, bool_decide_eq_false.
  split; intros [Ht Hs]; (split; [done|]).
  - intros m ->. apply Hs. by eexists.
  - intros [m Hm]. destruct v; try discriminate Hm. by destruct (Hs s).
Qed.

Lemma rewriteError_status err error :
  rewriteError err = inr error -> statusOf error = decidingStatus err.
Proof.
  unfold rewriteError, decidingStatus.
  destruct (hasName err "ValidationError") eqn:Hname;
    [destruct (extractMessages (e_errors err)) as [t|message]; [done|]|];
    (destruct (notIncludable (e_message err)); [done|]);
    intros [= <-];
    repeat match goal with
           | |- context [if ?b then _ else _] => destruct b eqn:?
           end; reflexivity.
Qed.

(** X1: the rules of the middleware throw, so that it sends no answer, in
    two cases only: the error is named ValidationError and its [errors] are
    [null] or [undefined], or hold a [null] or an [undefined] among their
    values (reading [val.message] throws); or its message is truthy and not a
    string (it has no [includes]).  What is thrown is a TypeError.  In every
    other case the middleware reaches the call that sends the answer. *)
Theorem errorHandler_throws_iff (env : Env) (err : JsError) (t : Thrown) :
  errorHandler env err = inl t
  <-> t = TypeError
      /\ ((e_name err = Some "ValidationError"
           /\ (e_errors err = None
               \/ exists values,
                    e_errors err = Some values
                    /\ (Primitive JNull ∈ values
                        \/ Primitive JUndefined ∈ values)))
          \/ (Js.truthy (e_message err) = true
              /\ forall m, e_message err <> JStr m)).
Proof.
  rewrite <- notIncludable_spec.
  unfold errorHandler, rewriteError, hasName.
  destruct (bool_decide (e_name err = Some "ValidationError")) eqn:Hname.
  - apply bool_decide_eq_true in Hname.
    destruct (extractMessages (e_errors err)) as [t'|message] eqn:Hm.
    + apply extractMessages_throws in Hm as (-> & Hm).
      split; [intros [= <-]; auto|by intros (-> & _)].
    + assert (Hno : ~ (e_errors err = None
                       \/ exists values,
                            e_errors err = Some values
                            /\ (Primitive JNull ∈ values
                                \/ Primitive JUndefined ∈ values))).
      { intros H.
        pose proof (proj2 (extractMessages_throws (e_errors err) TypeError)
                      (conj eq_refl H)) as Ht.
        congruence. }
      destruct (notIncludable (e_message err)).
      * split; [intros [= <-]; auto|by intros (-> & _)].
      * split; [done|]. intros (_ & [[_ H]|H]); done.
  - apply bool_decide_eq_false in Hname.
    destruct (notIncludable (e_message err)).
    + split; [intros [= <-]; auto|by intros (-> & _)].
    + split; [done|]. intros (_ & [[H _]|H]); done.
Qed.

(** X2: the last rule that applies decides the status: the rules weigh in the
    reverse of the order in which the middleware lists them, and the status
    code of the error itself (500 when it has none) counts only when no rule
    applies. *)
Theorem errorHandler_last_rule_wins (env : Env) (err : JsError) (r : ErrorResponse) :
  errorHandler env err = inr r ->
  r_status r = decidingStatus err.
Proof.
  intros (error & Hrw & -> & _)%errorHandler_inr. by apply rewriteError_status.
Qed.

(** X3: outside development no answer carries a stack, and in production an
    answer with a status of 500 or more carries the fixed message instead of
    the message of the error. *)
Theorem errorHandler_hides_internals (env : Env) (err : JsError) (r : ErrorResponse) :
  errorHandler env err = inr r ->
  (NODE_ENV env <> Some "development" -> r_stack r = None)
  /\ (NODE_ENV env = Some "production" -> 500 <= r_status r ->
      r_message r = "Internal Server Error").
Proof.
  unfold errorHandler. destruct (rewriteError err) as [t|error]; [done|].
  intros [= <-]. cbn. split.
  - intros Hdev. by rewrite bool_decide_eq_false_2.
  - intros Hprod Hge. rewrite (bool_decide_eq_true_2 _ Hprod).
    by replace (500 <=? statusOf error) with true by lia.
Qed.

(** An error to which no rule applies goes through as it is: the answer has
    its status code, its message and its errors. *)
Lemma errorHandler_plain env err c m :
  noRule err = true ->
  e_statusCode err = Some c -> c <> 0 -> c < 500 ->
  e_message err = JStr m -> m <> "" ->
  exists r,
    errorHandler env err = inr r
    /\ r_status r = c /\ r_message r = m
    /\ r_details r = Items <$> e_errors err.
Proof.
  unfold noRule. rewrite !andb_true_iff, !negb_true_iff.
  intros ((((((((((((H1 & H2) & H3) & H4) & H5) & H6) & H7) & H8) & H9) & H10)
           & H11) & H12) & H13) Hc Hc0 Hlt Hm Hm0.
  unfold errorHandler, rewriteError.
  rewrite H1, H2, H3, H4, H5, H6, H7, H8, H9, H10, H11, H12, H13.
  replace (notIncludable (e_message err)) with false
    by (by rewrite Hm; unfold notIncludable; rewrite andb_comm).
  eexists. split; [reflexivity|]. cbn. unfold statusOf. cbn. rewrite Hc, Hm.
  replace (c =? 0) with false by lia. replace (500 <=? c) with false by lia.
  cbn. split; [done|]. split; [|done].
  unfold orElse. by rewrite (proj2 (String.eqb_neq m "") Hm0).
Qed.

Lemma noRule_api (t : Thrower) c m errs :
  ordinaryName apiName ->
  includes "insufficient funds" m = false ->
  includes "nonce too low" m = false ->
  includes "gas required exceeds allowance" m = false ->
  noRule (thrownError t (ApiError c m errs)) = true.
Proof.
  intros (N1 & N2 & N3 & N4) I1 I2 I3.
  unfold noRule, hasName, hasCode, messageIncludes. cbn [thrownError e_name e_code
    e_status e_message].
  rewrite I1, I2, I3, !andb_false_r.
  rewrite !(bool_decide_eq_false_2 (apiName = _)) by done.
  reflexivity.
Qed.

Context `{EV : ExpressValidator}.

Lemma governanceFailure_listed c m errs :
  governanceFailure (ApiError c m errs) -> (c, m) ∈ governanceErrors.
Proof.
  unfold governanceErrors.
  intros [(now1 & now2 & req & db & db' & H)
         |[(now & g & req & db & db' & H)|(clock & req & db & db' & H)]].
  - rewrite castVote_admission in H.
    destruct (admission now1 req db) as [e|[[p q] b]] eqn:Ha; [|done].
    injection H as -> _. revert Ha. unfold admission.
    repeat case_match; intros [= <- <- <-] || discriminate; set_solver.
  - rewrite createProposal_creation in H.
    destruct (creation now g req db) as [e|p] eqn:Hc; [|done].
    injection H as -> _. revert Hc. unfold creation.
    repeat case_match; intros [= <- <- <-] || discriminate; set_solver.
  - revert H. unfold getProposals, communityMember_findUnique, proposal_findMany.
    rewrite bind_throwIf. destruct (negb _); [intros [= <- <- <-]; set_solver|].
    rewrite bind_gets. destruct (communityMember db !! _);
      [by rewrite bind_gets|intros [= <- <- <-]; set_solver].
Qed.

Lemma governanceErrors_plain :
  Forall (fun cm =>
            fst cm ∈ [400; 403; 404; 409]
            /\ snd cm <> ""
            /\ includes "insufficient funds" (snd cm) = false
            /\ includes "nonce too low" (snd cm) = false
            /\ includes "gas required exceeds allowance" (snd cm) = false)
    governanceErrors.
Proof. apply (bool_decide_unpack _). by vm_compute. Qed.

(** X4: every [ApiError] a governance route throws reaches the client as it was
    thrown: the answer has its status code, which is 400, 403, 404 or 409,
    its message, and the validation messages when it carries some.  No rule
    of the middleware rewrites it, provided the name of the class is none of
    the names the rules look for. *)
Theorem governance_errors_answered (env : Env) (t : Thrower) c m errs :
  ordinaryName apiName ->
  governanceFailure (ApiError c m errs) ->
  exists r,
    errorHandler env (thrownError t (ApiError c m errs)) = inr r
    /\ r_status r = c
    /\ c ∈ [400; 403; 404; 409]
    /\ r_message r = m
    /\ (errs <> [] ->
        r_details r
        = Some (Items ((fun msg => Object {| item_msg := Some msg;
                                             item_message := JUndefined |})
                         <$> errs))).
Proof.
  intros Hname Hfail%governanceFailure_listed.
  pose proof governanceErrors_plain as Hall.
  rewrite Forall_forall in Hall.
  destruct (Hall _ Hfail) as (Hc & Hm & I1 & I2 & I3). cbn [fst snd] in *.
  assert (Hrange : c <> 0 /\ c < 500).
  { rewrite !elem_of_cons, elem_of_nil in Hc. lia. }
  destruct (errorHandler_plain env (thrownError t (ApiError c m errs)) c m)
    as (r & Hr & Hs & Hmsg & Hd); try done; try apply Hrange.
  - by apply noRule_api.
  - exists r. repeat split; try done.
    intros Hne. rewrite Hd. cbn [thrownError e_errors].
    by rewrite bool_decide_eq_false_2.
Qed.

End ErrorMiddleware.

(** * Wallet authentication *)

Lemma append_cons x (a b : string) :
  String.append (String x a) b = String x (String.append a b).
Proof. reflexivity. Qed.

Lemma append_inj_r (a b c : string) :
  String.append a b = String.append a c -> b = c.
Proof.
  induction a as [|x a IH]; [done|]. rewrite !append_cons. intros [= H]. by apply IH.
Qed.

Lemma append_length (a b : string) :
  String.length (String.append a b) = (String.length a + String.length b)%nat.
Proof.
  induction a as [|x a IH]; [done|]. rewrite append_cons. cbn [String.length].
  by rewrite IH.
Qed.

Lemma candidate_inj base : Inj (=) (=) (candidate base).
Proof.
  intros [|j] [|k]; cbn [candidate]; unfold numbered; intros H; try done.
  - apply (f_equal String.length) in H. rewrite !append_length in H.
    cbn [String.length] in H. lia.
  - apply (f_equal String.length) in H. rewrite !append_length in H.
    cbn [String.length] in H. lia.
  - apply append_inj_r in H. rewrite !append_cons in H. injection H as H.
    change (pretty (N.of_nat (S j)) = pretty (N.of_nat (S k))) in H.
    apply (inj pretty) in H. lia.
Qed.

Lemma probeUsername_spec names base fuel c :
  exists k,
    (c <= k <= c + fuel)%nat
    /\ probeUsername names base fuel (candidate base c) (N.of_nat (S c))
       = candidate base k
    /\ (forall j, (c <= j < k)%nat -> candidate base j ∈ names)
    /\ ((k < c + fuel)%nat -> candidate base k ∉ names).
Proof.
  revert c. induction fuel as [|fuel IH]; intros c; cbn [probeUsername].
  - exists c. split_and!; try done; intros; lia.
  - case_bool_decide as Hin.
    + replace (N.of_nat (S c) + 1)%N with (N.of_nat (S (S c))) by lia.
      change (numbered base (N.of_nat (S c))) with (candidate base (S c)).
      destruct (IH (S c)) as (k & Hk & Heq & Hall & Hfree).
      exists k. split_and!; try done; try lia.
      * intros j Hj. destruct (decide (j = c)) as [->|]; [done|]. apply Hall. lia.
      * intros Hlt. apply Hfree. lia.
    + exists c. split_and!; try done; intros; lia.
Qed.

Lemma generateUniqueUsername_free_aux names baseUsername :
  (generateUniqueUsername names baseUsername ∉ names)
  /\ exists k,
      generateUniqueUsername names baseUsername
      = candidate (sanitizedBase baseUsername) k
      /\ forall j, (j < k)%nat -> candidate (sanitizedBase baseUsername) j ∈ names.
Proof.
  unfold generateUniqueUsername. set (base := sanitizedBase baseUsername).
  destruct (probeUsername_spec names base (S (length names)) 0)
    as (k & Hk & Heq & Hall & Hfree).
  change (probeUsername names base (S (length names)) base 1 = candidate base k)
    in Heq.
  split.
  - rewrite Heq.
    destruct (decide (k < 0 + S (length names))%nat) as [Hlt|Hge]; [by apply Hfree|].
    assert (Hk' : k = S (length names)) by lia. exfalso.
    assert (Hsub : candidate base <$> seq 0 k ⊆+ names).
    { apply NoDup_submseteq.
      - apply NoDup_fmap_2; [apply candidate_inj|apply NoDup_seq].
      - intros x (j & -> & Hj)%list_elem_of_fmap.
        apply elem_of_seq in Hj. apply Hall. lia. }
    apply submseteq_length in Hsub. rewrite length_fmap, length_seq in Hsub. lia.
  - exists k. split; [exact Heq|]. intros j Hj. apply Hall. lia.
Qed.

(** X5: [generateUniqueUsername] ends, and on a username that is not in use: the
    sanitized base if it is free, otherwise the base with the least number
    from 1 on that makes a free username. *)
Theorem generateUniqueUsername_free (names : list string) (baseUsername : string) :
  exists k,
    generateUniqueUsername names baseUsername
    = candidate (sanitizedBase baseUsername) k
    /\ (candidate (sanitizedBase baseUsername) k ∉ names)
    /\ (forall j, (j < k)%nat -> candidate (sanitizedBase baseUsername) j ∈ names).
Proof.
  destruct (generateUniqueUsername_free_aux names baseUsername)
    as (Hfree & k & Heq & Hall).
  exists k. split; [exact Heq|]. split; [by rewrite <- Heq|exact Hall].
Qed.

Lemma substring_length_le n m s : (String.length (String.substring n m s) <= m)%nat.
Proof.
  revert n m. induction s as [|a s IH]; intros [|n] [|m]; cbn; try lia.
  - specialize (IH 0%nat m). lia.
  - apply IH.
  - apply IH.
Qed.

Lemma substring_units (P : ascii -> Prop) n m s :
  Forall P (String.list_ascii_of_string s) ->
  Forall P (String.list_ascii_of_string (String.substring n m s)).
Proof.
  revert n m. induction s as [|a s IH]; intros [|n] [|m] Hs; cbn; try done.
  - apply Forall_cons in Hs as [Ha Hs]. apply Forall_cons. split; [done|by apply IH].
  - apply Forall_cons in Hs as [_ Hs]. by apply IH.
  - apply Forall_cons in Hs as [_ Hs]. by apply IH.
Qed.

Lemma keepNameUnits_units s :
  Forall (fun a => isNameUnit a = true) (String.list_ascii_of_string (keepNameUnits s)).
Proof.
  induction s as [|a s IH]; cbn; [constructor|].
  destruct (isNameUnit a) eqn:Ha; [|done]. cbn. by constructor.
Qed.

(** X6: the base of a generated username is at most 20 units long and made of
    the units a to z, 0 to 9 and the underscore only, whatever the name it
    is derived from. *)
Theorem sanitizedBase_shape (baseUsername : string) :
  (String.length (sanitizedBase baseUsername) <= 20)%nat
  /\ Forall (fun a => isNameUnit a = true)
       (String.list_ascii_of_string (sanitizedBase baseUsername)).
Proof.
  unfold sanitizedBase. split; [apply substring_length_le|].
  apply substring_units, keepNameUnits_units.
Qed.

(** X7: the message the nonce route announces is never the message the
    signature is checked against: the first has a backslash and an n where
    the second has a line break. *)
Theorem announced_message_is_not_signed (nonce : string) :
  announcedMessage nonce <> signedMessage nonce.
Proof.
  unfold announcedMessage, signedMessage, newline. cbn [String.concat].
  rewrite !append_cons. intros H. discriminate H.
Qed.

Section WalletLoginProperties.

Context `{EV : ExpressValidator} `{WL : WalletLibraries}.

Lemma bindA_throwIfA {S B} (cond : bool) e (k : unit -> Act S B) s :
  bindA (throwIfA cond e) k s = if cond then (inl e, s) else k tt s.
Proof. by destruct cond. Qed.

Lemma bindA_getsA {S A B} (f : S -> A) (k : A -> Act S B) s :
  bindA (getsA f) k s = k (f s) s.
Proof. reflexivity. Qed.

Lemma bindA_modifyA {S B} (f : S -> S) (k : unit -> Act S B) s :
  bindA (modifyA f) k s = k tt (f s).
Proof. reflexivity. Qed.

Lemma bindA_run {S A B} (c : Act S A) (k : A -> Act S B) s a s' :
  c s = (inr a, s') -> bindA c k s = k a s'.
Proof. unfold bindA. by intros ->. Qed.

Lemma walletVerify_unknown now login newId req s :
  verifyValid req ->
  (forall entry, nonceStore s !! toLowerCase (vq_walletAddress req) = Some entry ->
                 nonce entry <> vq_nonce req) ->
  walletVerify now login newId req s = (inl invalidNonce, s).
Proof.
  intros (H1 & H2 & H3) Hs. unfold walletVerify.
  rewrite H1, H2, H3. cbn [chain app]. rewrite bindA_throwIfA.
  rewrite bool_decide_eq_true_2 by done. cbn [negb].
  rewrite bindA_getsA. destruct (nonceStore s !! _) as [entry|] eqn:He; [|done].
  rewrite bindA_throwIfA.
  by rewrite (proj2 (String.eqb_neq _ _) (Hs entry eq_refl)).
Qed.

Lemma handleWalletAuthentication_nonces login newId a sig n s r s' :
  handleWalletAuthentication login newId a sig n s = (r, s') ->
  nonceStore s' = nonceStore s /\ timers s' = timers s.
Proof.
  unfold handleWalletAuthentication. rewrite bindA_throwIfA.
  destruct (negb _); [by intros [= <- <-]|].
  rewrite bindA_getsA. destruct (findByWallet _ _) as [[id u]|].
  - rewrite bindA_modifyA. by intros [= <- <-].
  - rewrite bindA_getsA. unfold createUser. destruct (existsb _ _); by intros [= <- <-].
Qed.

Lemma walletNonce_ok now uuid a s resp s1 :
  walletNonce now uuid a s = (inr resp, s1) ->
  exists a',
    normalizeEmail a = Some a'
    /\ nr_nonce resp = uuid
    /\ s1 = setNonce (toLowerCase a')
              {| nonce := uuid; expires := now + 5 * 60 * 1000 |}
              (now + 5 * 60 * 1000) s.
Proof.
  unfold walletNonce. rewrite bindA_throwIfA. destruct (negb _); [done|].
  destruct (normalizeEmail a) as [a'|]; [|done].
  rewrite bindA_modifyA. intros [= <- <-]. by exists a'.
Qed.

Lemma findByWallet_updated addr rows id u u' :
  findByWallet addr rows = Some (id, u) ->
  walletAddress u' = Some addr ->
  findByWallet addr (updateUser id (fun _ => u') rows) = Some (id, u').
Proof.
  intros Hfind Hw. unfold findByWallet, updateUser in *.
  induction rows as [|r rows IH]; [done|]. cbn in *.
  case_bool_decide as Hr.
  - injection Hfind as ->. cbn. rewrite String.eqb_refl. cbn.
    by rewrite bool_decide_eq_true_2.
  - destruct (String.eqb (fst r) id) eqn:Hid.
    + apply String.eqb_eq in Hid. cbn. rewrite bool_decide_eq_true_2 by done.
      by rewrite Hid.
    + rewrite bool_decide_eq_false_2 by done. by apply IH.
Qed.

Lemma findByWallet_created addr rows id u :
  findByWallet addr rows = None ->
  walletAddress u = Some addr ->
  findByWallet addr (rows ++ [(id, u)]) = Some (id, u).
Proof.
  intros Hfind Hw. unfold findByWallet in *.
  induction rows as [|r rows IH]; cbn in *.
  - by rewrite bool_decide_eq_true_2.
  - destruct (bool_decide _); [done|]. by apply IH.
Qed.

Lemma updateUser_length id f rows : length (updateUser id f rows) = length rows.
Proof. unfold updateUser. apply length_fmap. Qed.

(** A login of a wallet that has a user: the user is updated, none is
    created. *)
Lemma handleWalletAuthentication_existing login newId a sig n s id u :
  verifyWalletSignature a sig n = true ->
  findByWallet (toLowerCase a) (users s) = Some (id, u) ->
  let u' := {| username := username u; displayName := displayName u;
               walletAddress := walletAddress u;
               isWeb3Verified := true; lastLogin := Some login |} in
  handleWalletAuthentication login newId a sig n s
  = (inr (id, u'),
     {| nonceStore := nonceStore s; timers := timers s;
        users := updateUser id (fun _ => u') (users s) |}).
Proof.
  intros Hsig Hfind u'. unfold handleWalletAuthentication.
  by rewrite bindA_throwIfA, Hsig, bindA_getsA, Hfind.
Qed.

Lemma findByWallet_Some addr rows id u :
  findByWallet addr rows = Some (id, u) -> walletAddress u = Some addr.
Proof.
  unfold findByWallet. intros [_ H]%find_some. by apply bool_decide_eq_true in H.
Qed.

Lemma findByWallet_None addr rows r :
  findByWallet addr rows = None -> r ∈ rows -> walletAddress (snd r) <> Some addr.
Proof.
  unfold findByWallet. intros Hnone Hin%list_elem_of_In.
  pose proof (find_none _ _ Hnone r Hin) as H. by apply bool_decide_eq_false in H.
Qed.

(** A first login of a wallet: a user is created under a username that was
    free, provided the store generates an id that is free. *)
Lemma handleWalletAuthentication_new login newId a sig n s :
  verifyWalletSignature a sig n = true ->
  findByWallet (toLowerCase a) (users s) = None ->
  (forall r, r ∈ users s -> fst r <> newId) ->
  exists u,
    handleWalletAuthentication login newId a sig n s
    = (inr (newId, u),
       {| nonceStore := nonceStore s; timers := timers s;
          users := users s ++ [(newId, u)] |})
    /\ walletAddress u = Some (toLowerCase a)
    /\ isWeb3Verified u = true /\ lastLogin u = Some login
    /\ (forall r, r ∈ users s -> username (snd r) <> username u).
Proof.
  intros Hsig Hfind Hid. unfold handleWalletAuthentication.
  rewrite bindA_throwIfA, Hsig, bindA_getsA, Hfind, bindA_getsA.
  set (name := generateUniqueUsername _ _).
  assert (Hfree : forall r, r ∈ users s -> username (snd r) <> name).
  { intros r Hr Heq.
    destruct (generateUniqueUsername_free_aux (username <$> (snd <$> users s))
                (String.append "user_" (String.substring 2 6 (toLowerCase a))))
      as [Hnot _].
    apply Hnot. fold name. rewrite <- Heq.
    apply list_elem_of_fmap. exists (snd r). split; [done|].
    apply list_elem_of_fmap. by exists r. }
  exists {| username := name;
            displayName :=
              String.append "User " (String.substring 2 6 (toLowerCase a));
            walletAddress := Some (toLowerCase a);
            isWeb3Verified := true; lastLogin := Some login |}.
  split; [|split_and!; [reflexivity..|exact Hfree]].
  unfold createUser. cbn [username walletAddress].
  replace (existsb _ (users s)) with false; [done|].
  symmetry. apply not_true_is_false. intros (r & Hr & Hex)%existsb_exists.
  apply list_elem_of_In in Hr.
  apply orb_true_iff in Hex as [Hex|Hex]; [apply orb_true_iff in Hex as [Hex|Hex]|].
  - apply String.eqb_eq in Hex. by apply (Hid r).
  - apply String.eqb_eq in Hex. by apply (Hfree r).
  - apply bool_decide_eq_true in Hex as [_ Hex].
    by apply (findByWallet_None _ _ r Hfind).
Qed.

Lemma updateUser_ids id f rows : fst <$> updateUser id f rows = fst <$> rows.
Proof.
  unfold updateUser. induction rows as [|r rows IH]; [done|]. cbn.
  rewrite IH. by destruct (String.eqb (fst r) id).
Qed.

Lemma rows_same_id (rows : list (string * User)) r1 r2 :
  NoDup (fst <$> rows) -> r1 ∈ rows -> r2 ∈ rows -> fst r1 = fst r2 -> r1 = r2.
Proof.
  induction rows as [|r rows IH]; [by intros _ ?%not_elem_of_nil|].
  cbn. intros [Hnew Hrest]%NoDup_cons [->|H1]%elem_of_cons [->|H2]%elem_of_cons Heq;
    try done.
  - destruct Hnew. rewrite Heq. apply list_elem_of_fmap. by exists r2.
  - destruct Hnew. rewrite <- Heq. apply list_elem_of_fmap. by exists r1.
  - by apply IH.
Qed.

Lemma findByWallet_elem addr rows r :
  findByWallet addr rows = Some r -> r ∈ rows.
Proof. unfold findByWallet. intros [H _]%find_some. by apply list_elem_of_In. Qed.

(** A change of the rows that keeps the wallet of each keeps the row a
    wallet is found in. *)
Lemma findByWallet_fmap addr (f : string * User -> string * User) rows :
  (forall r, r ∈ rows -> walletAddress (snd (f r)) = walletAddress (snd r)) ->
  findByWallet addr (f <$> rows) = f <$> findByWallet addr rows.
Proof.
  unfold findByWallet. induction rows as [|r rows IH]; intros Hkeep; [done|].
  cbn. rewrite (Hkeep r) by apply list_elem_of_here.
  destruct (bool_decide _); [done|]. apply IH.
  intros r' Hr'. apply Hkeep. by apply list_elem_of_further.
Qed.

Lemma findByWallet_app addr rows more r :
  findByWallet addr rows = Some r -> findByWallet addr (rows ++ more) = Some r.
Proof.
  unfold findByWallet. induction rows as [|r' rows IH]; [done|]. cbn.
  by destruct (bool_decide _).
Qed.

(** The three ways a call of [handleWalletAuthentication] ends. *)
Lemma handleWalletAuthentication_cases login newId a sig n s :
  (exists e, handleWalletAuthentication login newId a sig n s = (inl e, s))
  \/ (exists id u,
        findByWallet (toLowerCase a) (users s) = Some (id, u)
        /\ handleWalletAuthentication login newId a sig n s
           = (inr (id, {| username := username u; displayName := displayName u;
                          walletAddress := walletAddress u;
                          isWeb3Verified := true; lastLogin := Some login |}),
              {| nonceStore := nonceStore s; timers := timers s;
                 users :=
                   updateUser id
                     (fun _ => {| username := username u;
                                  displayName := displayName u;
                                  walletAddress := walletAddress u;
                                  isWeb3Verified := true;
                                  lastLogin := Some login |}) (users s) |}))
  \/ (exists u,
        findByWallet (toLowerCase a) (users s) = None
        /\ (forall r, r ∈ users s -> fst r <> newId)
        /\ handleWalletAuthentication login newId a sig n s
           = (inr (newId, u),
              {| nonceStore := nonceStore s; timers := timers s;
                 users := users s ++ [(newId, u)] |})).
Proof.
  unfold handleWalletAuthentication. rewrite bindA_throwIfA.
  destruct (negb _); [left; by eexists|]. rewrite bindA_getsA.
  destruct (findByWallet _ _) as [[id u]|] eqn:Hfind.
  - right; left. exists id, u. by rewrite bindA_modifyA.
  - rewrite bindA_getsA. unfold createUser.
    destruct (existsb _ _) eqn:Hex; [left; by eexists|].
    right; right. eexists. split; [done|]. split; [|reflexivity].
    intros r Hr Heq. apply not_true_iff_false in Hex. apply Hex.
    apply existsb_exists. exists r. split; [by apply list_elem_of_In|].
    apply orb_true_iff. left. apply orb_true_iff. left. by apply String.eqb_eq.
Qed.

Lemma handleWalletAuthentication_ids login newId a sig n s :
  NoDup (fst <$> users s) ->
  NoDup (fst <$> users (snd (handleWalletAuthentication login newId a sig n s))).
Proof.
  intros Hids.
  destruct (handleWalletAuthentication_cases login newId a sig n s)
    as [(e & ->)|[(id & u & _ & ->)|(u & _ & Hfresh & ->)]]; cbn [snd users].
  - done.
  - by rewrite updateUser_ids.
  - rewrite fmap_app. cbn. apply NoDup_app. split; [done|]. split.
    + intros x (r & -> & Hr)%list_elem_of_fmap Hx.
      apply list_elem_of_singleton in Hx. by apply (Hfresh r).
    + apply NoDup_singleton.
Qed.

Lemma handleWalletAuthentication_enrolled login newId a sig n s addr id name :
  Enrolled addr id name (users s) ->
  Enrolled addr id name
    (users (snd (handleWalletAuthentication login newId a sig n s))).
Proof.
  intros [Hids (v & Hfind & Hname)].
  split; [by apply handleWalletAuthentication_ids|].
  destruct (handleWalletAuthentication_cases login newId a sig n s)
    as [(e & ->)|[(id' & u & Hu & ->)|(u & _ & _ & ->)]]; cbn [snd users].
  - by exists v.
  - unfold updateUser. rewrite findByWallet_fmap, Hfind.
    + cbn [fmap option_fmap option_map fst snd].
      destruct (String.eqb id id') eqn:Hid.
      * apply String.eqb_eq in Hid. subst id'.
        assert (Hsame : (id, v) = (id, u)).
        { apply (rows_same_id (users s)); try done;
            by eapply findByWallet_elem. }
        injection Hsame as ->. by eexists.
      * by exists v.
    + intros r Hr. destruct (String.eqb (fst r) id') eqn:Hid; [|done].
      apply String.eqb_eq in Hid. cbn [snd].
      assert (Hsame : r = (id', u)).
      { apply (rows_same_id (users s)); try done. by eapply findByWallet_elem. }
      by rewrite Hsame.
  - exists v. split; [|done]. by apply findByWallet_app.
Qed.

(** The users after a request to the verify route are those before it, or
    those a call of [handleWalletAuthentication] leaves. *)
Lemma walletVerify_users now login newId req s :
  users (snd (walletVerify now login newId req s)) = users s
  \/ users (snd (walletVerify now login newId req s))
     = users (snd (handleWalletAuthentication login newId (vq_walletAddress req)
                     (vq_signature req) (vq_nonce req) s)).
Proof.
  unfold walletVerify. rewrite bindA_throwIfA. destruct (negb _); [by left|].
  rewrite bindA_getsA. destruct (nonceStore s !! _) as [entry|]; [|by left].
  rewrite bindA_throwIfA. destruct (negb _); [by left|].
  destruct (_ >? _); [by left|]. right. unfold bindA at 1.
  by destruct (handleWalletAuthentication _ _ _ _ _ s) as [[e|u] s1].
Qed.

Lemma walletNonce_users now uuid a s :
  users (snd (walletNonce now uuid a s)) = users s.
Proof.
  unfold walletNonce. rewrite bindA_throwIfA. destruct (negb _); [done|].
  by destruct (normalizeEmail a).
Qed.

Lemma fireTimer_users now i s : users (fireTimer now i s) = users s.
Proof.
  unfold fireTimer. destruct (timers s !! i) as [[due key]|]; [|done].
  by destruct (due <=? now).
Qed.

Lemma after_enrolled ev s addr id name :
  Enrolled addr id name (users s) -> Enrolled addr id name (users (after ev s)).
Proof.
  intros Hen. destruct ev as [now uuid a|now login newId req|now i|login newId a sig n];
    cbn [after].
  - by rewrite walletNonce_users.
  - destruct (walletVerify_users now login newId req s) as [->| ->]; [done|].
    by apply handleWalletAuthentication_enrolled.
  - by rewrite fireTimer_users.
  - by apply handleWalletAuthentication_enrolled.
Qed.

Lemma afterAll_enrolled evs s addr id name :
  Enrolled addr id name (users s) ->
  Enrolled addr id name (users (afterAll evs s)).
Proof.
  unfold afterAll. revert s. induction evs as [|ev evs IH]; intros s Hen; [done|].
  cbn [foldl]. by apply IH, after_enrolled.
Qed.

(** X11: the wallet of a user decides the user: after a successful login of a
    wallet, whatever requests to the wallet routes, timers and other calls
    of the login follow, every later login with the same address, in
    whatever letter case, returns the user of the same id and username, and
    creates no user.  The table has one row per id. *)
Theorem same_wallet_same_user login1 id1 a1 sig1 n1 (s s1 : AuthState) id u
    (evs : list WalletEvent) login2 id2 a2 sig2 n2 :
  NoDup (fst <$> users s) ->
  handleWalletAuthentication login1 id1 a1 sig1 n1 s = (inr (id, u), s1) ->
  toLowerCase a2 = toLowerCase a1 ->
  verifyWalletSignature a2 sig2 n2 = true ->
  exists u2 s2,
    handleWalletAuthentication login2 id2 a2 sig2 n2 (afterAll evs s1)
    = (inr (id, u2), s2)
    /\ username u2 = username u
    /\ length (users s2) = length (users (afterAll evs s1)).
Proof.
  intros Hids H1 Hsame Hsig2.
  assert (Hfound : findByWallet (toLowerCase a1) (users s1) = Some (id, u)).
  { revert H1. unfold handleWalletAuthentication. rewrite bindA_throwIfA.
    destruct (negb _); [done|]. rewrite bindA_getsA.
    destruct (findByWallet _ (users s)) as [[i v]|] eqn:Hfind.
    - rewrite bindA_modifyA. intros [= <- <- <-]. cbn [users].
      eapply findByWallet_updated; [exact Hfind|]. cbn.
      by eapply findByWallet_Some.
    - rewrite bindA_getsA. unfold createUser. destruct (existsb _ _); [done|].
      intros [= <- <- <-]. cbn [users]. by apply findByWallet_created. }
  assert (Hen : Enrolled (toLowerCase a1) id (username u) (users s1)).
  { split; [|by exists u].
    pose proof (handleWalletAuthentication_ids login1 id1 a1 sig1 n1 s Hids) as H.
    by rewrite H1 in H. }
  destruct (afterAll_enrolled evs s1 _ _ _ Hen) as [_ (v & Hv & Hname)].
  rewrite <- Hsame in Hv.
  rewrite (handleWalletAuthentication_existing login2 id2 a2 sig2 n2 _ id v Hsig2 Hv).
  do 2 eexists. split; [reflexivity|]. split; [exact Hname|].
  cbn [users]. apply updateUser_length.
Qed.

Lemma lowerUnit_at : lowerUnit "@" = "@"%char.
Proof. reflexivity. Qed.

Lemma walletVerify_invalid now login newId req s :
  ~ verifyValid req ->
  exists errors,
    walletVerify now login newId req s = (inl (Routed (ValidationError errors)), s).
Proof.
  intros Hno. unfold walletVerify. rewrite bindA_throwIfA.
  case_bool_decide as Hnil; cbn [negb]; [|by eexists].
  destruct Hno. unfold verifyValid.
  apply app_nil in Hnil as [H1 Hnil]. apply app_nil in Hnil as [H2 H3].
  by apply chain_nil in H1, H2, H3.
Qed.

Lemma verifyValid_dec (req : VerifyRequest) : Decision (verifyValid req).
Proof. unfold verifyValid. apply _. Qed.

(** A request to the verify route leaves in the store what it found there,
    or less. *)
Lemma walletVerify_store now login newId req s key entry :
  nonceStore (snd (walletVerify now login newId req s)) !! key = Some entry ->
  nonceStore s !! key = Some entry.
Proof.
  unfold walletVerify. rewrite bindA_throwIfA. destruct (negb _); [done|].
  rewrite bindA_getsA. destruct (nonceStore s !! toLowerCase _) as [stored|]; [|done].
  rewrite bindA_throwIfA. destruct (negb _); [done|].
  destruct (_ >? _).
  - rewrite bindA_modifyA. cbn. by intros [_ H]%lookup_delete_Some.
  - unfold bindA at 1.
    destruct (handleWalletAuthentication _ _ _ _ _ s) as [[e|u] s1] eqn:Hlogin;
      apply handleWalletAuthentication_nonces in Hlogin as [Hsame _].
    + cbn. by rewrite Hsame.
    + rewrite bindA_modifyA. cbn. rewrite Hsame. by intros [_ H]%lookup_delete_Some.
Qed.

Lemma fireTimer_store now i s key entry :
  nonceStore (fireTimer now i s) !! key = Some entry ->
  nonceStore s !! key = Some entry.
Proof.
  unfold fireTimer. destruct (timers s !! i) as [[due k]|]; [|done].
  destruct (due <=? now); [|done]. cbn. by intros [_ H]%lookup_delete_Some.
Qed.

Lemma after_sanitized ev s :
  AddressLibrary -> KeysSanitized s -> KeysSanitized (after ev s).
Proof.
  intros Hlib Hkeys.
  destruct ev as [now uuid a|now login newId req|now i|login newId a sig n];
    cbn [after]; intros key [entry Hentry].
  - revert Hentry. unfold walletNonce. rewrite bindA_throwIfA.
    case_bool_decide as Hnil; cbn [negb]; [|intros H; apply Hkeys; by eexists].
    apply chain_nil in Hnil. destruct (Hlib a Hnil) as [_ ->].
    rewrite bindA_modifyA. cbn. intros [[<- _]|[_ H]]%lookup_insert_Some.
    + rewrite lowerUnit_at. by eexists.
    + apply Hkeys. by eexists.
  - apply walletVerify_store in Hentry. apply Hkeys. by eexists.
  - apply fireTimer_store in Hentry. apply Hkeys. by eexists.
  - destruct (handleWalletAuthentication login newId a sig n s) as [r s'] eqn:Hlogin.
    apply handleWalletAuthentication_nonces in Hlogin as [Hsame _].
    cbn in Hentry. rewrite Hsame in Hentry. apply Hkeys. by eexists.
Qed.

Lemma afterAll_sanitized evs s :
  AddressLibrary -> KeysSanitized s -> KeysSanitized (afterAll evs s).
Proof.
  intros Hlib. unfold afterAll. revert s.
  induction evs as [|ev evs IH]; intros s Hkeys; [done|].
  cbn [foldl]. by apply IH, after_sanitized.
Qed.

(** With every key of the store starting with the separator, a request that
    passes the validators finds no nonce under its address. *)
Lemma walletVerify_sanitized now login newId req s :
  AddressLibrary -> KeysSanitized s -> verifyValid req ->
  walletVerify now login newId req s = (inl invalidNonce, s).
Proof.
  intros Hlib Hkeys Hvalid. apply walletVerify_unknown; [done|].
  intros entry Hentry. destruct Hvalid as (Haddr & _).
  destruct (Hlib _ Haddr) as [(rest & Hrest) _].
  destruct (Hkeys (toLowerCase (vq_walletAddress req))) as (rest' & Hkey);
    [by eexists|].
  rewrite Hrest in Hkey. discriminate Hkey.
Qed.

Lemma afterAll_users evs s :
  AddressLibrary -> KeysSanitized s ->
  forallb viaRoutes evs = true ->
  users (afterAll evs s) = users s.
Proof.
  intros Hlib. unfold afterAll. revert s.
  induction evs as [|ev evs IH]; intros s Hkeys Hroutes; [done|].
  cbn [foldl forallb] in *. apply andb_true_iff in Hroutes as [Hev Hroutes].
  rewrite IH by (by try apply after_sanitized).
  destruct ev as [now uuid a|now login newId req|now i|login newId a sig n];
    cbn [after]; try done.
  - apply walletNonce_users.
  - destruct (verifyValid_dec req) as [Hvalid|Hinvalid].
    + by rewrite walletVerify_sanitized.
    + by destruct (walletVerify_invalid now login newId req s Hinvalid) as (errors & ->).
  - apply fireTimer_users.
Qed.

(** X12: no wallet logs in through the routes.  The nonce route stores a
    nonce under the sanitized address, which starts with the separator of a
    mail address, and the verify route looks under the address, which starts
    with 0.  So, from a start with an empty nonce store and whatever
    requests and timers follow, every request to the verify route is
    refused and changes nothing: with the invalid-nonce error when it passes
    the validators, with their error otherwise; and the requests and the
    timers leave the users as they were. *)
Theorem wallet_login_never_succeeds (evs : list WalletEvent) (s : AuthState)
    now login newId (req : VerifyRequest) :
  AddressLibrary ->
  nonceStore s = ∅ ->
  (verifyValid req ->
   walletVerify now login newId req (afterAll evs s)
   = (inl invalidNonce, afterAll evs s))
  /\ (exists e,
        walletVerify now login newId req (afterAll evs s)
        = (inl (Routed e), afterAll evs s)
        /\ (e = ApiError 400 "Invalid or expired nonce" []
            \/ exists errors, e = ValidationError errors))
  /\ (forallb viaRoutes evs = true -> users (afterAll evs s) = users s).
Proof.
  intros Hlib Hempty.
  assert (Hkeys : KeysSanitized s).
  { intros key [entry Hentry]. by rewrite Hempty, lookup_empty in Hentry. }
  pose proof (afterAll_sanitized evs s Hlib Hkeys) as Hkeys'.
  split; [by apply walletVerify_sanitized|]. split; [|by apply afterAll_users].
  destruct (verifyValid_dec req) as [Hvalid|Hinvalid].
  - eexists. split; [by apply walletVerify_sanitized|]. by left.
  - destruct (walletVerify_invalid now login newId req (afterAll evs s) Hinvalid)
      as (errors & ->).
    eexists. split; [done|]. right. by eexists.
Qed.

(** X13: the nonce is found under one key only: when the sanitizer of the nonce
    route turns the address into a string whose lowered form is not the
    lowered address of the verify request, and the store held nothing under
    the latter, the nonce just issued is answered with the invalid-nonce
    error. *)
Theorem nonce_is_keyed_by_sanitized_address now uuid a (s s1 : AuthState) resp
    now2 login newId (req : VerifyRequest) :
  walletNonce now uuid a s = (inr resp, s1) ->
  verifyValid req ->
  (forall a', normalizeEmail a = Some a' ->
              toLowerCase a' <> toLowerCase (vq_walletAddress req)) ->
  nonceStore s !! toLowerCase (vq_walletAddress req) = None ->
  walletVerify now2 login newId req s1 = (inl invalidNonce, s1).
Proof.
  intros (a' & Ha' & Hn & ->)%walletNonce_ok Hvalid Hkey Hnone.
  apply walletVerify_unknown; [done|]. intros entry. cbn.
  rewrite lookup_insert_ne by by apply Hkey. by rewrite Hnone.
Qed.

(** X14: a new nonce replaces the old one: after a second nonce was issued for
    the same address, the store holds the second one under the key of the
    address, the first one is nowhere in the store, and a request that
    carries the first one is answered with the invalid-nonce error,
    whatever its address.  The first nonce was not in the store before it
    was issued. *)
Theorem second_nonce_replaces_first now1 uuid1 now2 uuid2 a
    (s s1 s2 : AuthState) resp1 resp2 now3 login newId (req : VerifyRequest) :
  walletNonce now1 uuid1 a s = (inr resp1, s1) ->
  walletNonce now2 uuid2 a s1 = (inr resp2, s2) ->
  uuid1 <> uuid2 ->
  (forall key entry, nonceStore s !! key = Some entry -> nonce entry <> uuid1) ->
  verifyValid req ->
  vq_nonce req = uuid1 ->
  (exists a',
     normalizeEmail a = Some a'
     /\ nonceStore s2 !! toLowerCase a'
        = Some {| nonce := uuid2; expires := now2 + 5 * 60 * 1000 |})
  /\ (forall key entry, nonceStore s2 !! key = Some entry -> nonce entry <> uuid1)
  /\ walletVerify now3 login newId req s2 = (inl invalidNonce, s2).
Proof.
  intros (a' & Ha' & _ & ->)%walletNonce_ok (a2 & Ha2 & _ & ->)%walletNonce_ok
    Hne Hfresh Hvalid Hnonce.
  rewrite Ha' in Ha2. injection Ha2 as <-.
  assert (Hgone : forall key entry,
             nonceStore
               (setNonce (toLowerCase a')
                  {| nonce := uuid2; expires := now2 + 5 * 60 * 1000 |}
                  (now2 + 5 * 60 * 1000)
                  (setNonce (toLowerCase a')
                     {| nonce := uuid1; expires := now1 + 5 * 60 * 1000 |}
                     (now1 + 5 * 60 * 1000) s)) !! key = Some entry ->
             nonce entry <> uuid1).
  { intros key entry. cbn [nonceStore setNonce]. rewrite insert_insert_eq.
    intros [[_ <-]|[_ H]]%lookup_insert_Some; [by cbn|by eapply Hfresh]. }
  split; [|split; [exact Hgone|]].
  - exists a'. split; [done|]. cbn [nonceStore setNonce]. apply lookup_insert_eq.
  - apply walletVerify_unknown; [done|]. intros entry Hentry.
    rewrite Hnonce. by eapply Hgone.
Qed.

(** X15: the cleanup of an earlier nonce deletes a later one: when two nonces are
    issued for the same address and the timer of the first one runs, the
    second nonce is gone from under the key of the address, although it has
    not expired, and a request that carries it is answered with the
    invalid-nonce error, whatever its address.  The second nonce was not in
    the store before it was issued. *)
Theorem early_timer_deletes_later_nonce now1 uuid1 now2 uuid2 a
    (s s1 s2 : AuthState) resp1 resp2 now3 login newId (req : VerifyRequest) :
  walletNonce now1 uuid1 a s = (inr resp1, s1) ->
  walletNonce now2 uuid2 a s1 = (inr resp2, s2) ->
  now1 + 5 * 60 * 1000 <= now3 ->
  now3 <= now2 + 5 * 60 * 1000 ->
  (forall key entry, nonceStore s !! key = Some entry -> nonce entry <> uuid2) ->
  verifyValid req ->
  vq_nonce req = uuid2 ->
  exists a',
    normalizeEmail a = Some a'
    /\ (exists entry,
          nonceStore s2 !! toLowerCase a' = Some entry
          /\ nonce entry = uuid2 /\ now3 <= expires entry)
    /\ nonceStore (fireTimer now3 (length (timers s)) s2) !! toLowerCase a' = None
    /\ walletVerify now3 login newId req (fireTimer now3 (length (timers s)) s2)
       = (inl invalidNonce, fireTimer now3 (length (timers s)) s2).
Proof.
  intros (a' & Ha' & _ & ->)%walletNonce_ok (a2 & Ha2 & _ & ->)%walletNonce_ok
    Hdue Hlive Hfresh Hvalid Hnonce.
  rewrite Ha' in Ha2. injection Ha2 as <-.
  exists a'. split; [done|]. split.
  { eexists. cbn. rewrite lookup_insert_eq. split; [done|]. by cbn. }
  set (s2 := setNonce _ _ _ (setNonce _ _ _ s)).
  assert (Hfire : fireTimer now3 (length (timers s)) s2
                  = {| nonceStore := delete (toLowerCase a') (nonceStore s2);
                       timers := delete (length (timers s)) (timers s2);
                       users := users s |}).
  { unfold fireTimer.
    assert (Hdue1 : timers s2 !! length (timers s)
                    = Some (now1 + 5 * 60 * 1000, toLowerCase a')).
    { subst s2. cbn [timers setNonce].
      rewrite <- app_assoc, lookup_app_r by done. by rewrite Nat.sub_diag. }
    rewrite Hdue1.
    by replace (now1 + 5 * 60 * 1000 <=? now3) with true by lia. }
  rewrite Hfire. split; [cbn [nonceStore]; apply lookup_delete_eq|].
  apply walletVerify_unknown; [done|]. intros entry.
  cbn [nonceStore]. intros [Hne Hentry]%lookup_delete_Some.
  subst s2. cbn [nonceStore setNonce] in Hentry.
  rewrite insert_insert_eq in Hentry.
  apply lookup_insert_Some in Hentry as [[Heq _]|[_ Hentry]]; [done|].
  rewrite Hnonce. by eapply Hfresh.
Qed.

End WalletLoginProperties.

(** * The request limiter *)

Lemma inWindow_app W t (l k : list Z) :
  inWindow W t (l ++ k) = inWindow W t l ++ inWindow W t k.
Proof. unfold inWindow. apply List.filter_app. Qed.

Lemma inWindow_later W t t' (l : list Z) :
  t <= t' -> inWindow W t' (inWindow W t l) = inWindow W t' l.
Proof.
  intros Hle. unfold inWindow. induction l as [|x l IH]; [done|]. cbn.
  destruct (t - x <? W * 60 * 1000) eqn:Hx; cbn.
  - by rewrite IH.
  - rewrite IH. replace (t' - x <? W * 60 * 1000) with false; [done|]. lia.
Qed.

Lemma rateLimitByUser_answer maxRequests windowMinutes userId now userRequests :
  fst (rateLimitByUser maxRequests windowMinutes (Some userId) now userRequests) = None
  <-> Z.of_nat (length (inWindow windowMinutes now
                          (default [] (userRequests !! userId)))) < maxRequests.
Proof.
  unfold rateLimitByUser. cbn zeta.
  assert (Hreq : default []
            ((if bool_decide (is_Some (userRequests !! userId)) then userRequests
              else <[userId := []]> userRequests) !! userId)
          = default [] (userRequests !! userId)).
  { case_bool_decide as Hsome.
    - done.
    - rewrite lookup_insert_eq. cbn.
      by destruct (userRequests !! userId); [destruct Hsome|]. }
  rewrite Hreq. fold (inWindow windowMinutes now (default [] (userRequests !! userId))).
  destruct (_ >=? _) eqn:Hge; cbn; split; try done; lia.
Qed.

Lemma rateLimitByUser_map maxRequests windowMinutes userId now userRequests u :
  let '(answer, userRequests') :=
    rateLimitByUser maxRequests windowMinutes (Some userId) now userRequests in
  default [] (userRequests' !! u)
  = if bool_decide (u = userId) then
      inWindow windowMinutes now (default [] (userRequests !! userId))
      ++ (if bool_decide (answer = None) then [now] else [])
    else default [] (userRequests !! u).
Proof.
  unfold rateLimitByUser. cbn zeta.
  set (m := if bool_decide (is_Some (userRequests !! userId)) then userRequests
            else <[userId := []]> userRequests).
  assert (Hreq : forall v, default [] (m !! v) = default [] (userRequests !! v)).
  { intros v. subst m. case_bool_decide as Hsome; [done|].
    destruct (decide (v = userId)) as [->|Hne].
    - rewrite lookup_insert_eq. cbn.
      by destruct (userRequests !! userId); [destruct Hsome|].
    - by rewrite lookup_insert_ne. }
  rewrite (Hreq userId).
  fold (inWindow windowMinutes now (default [] (userRequests !! userId))).
  destruct (_ >=? _); case_bool_decide as Hu; subst; cbn.
  - by rewrite lookup_insert_eq, app_nil_r.
  - by rewrite lookup_insert_ne, Hreq.
  - by rewrite lookup_insert_eq.
  - by rewrite !lookup_insert_ne, Hreq.
Qed.

(** The map and the requests let through agree on every window that ends
    at or after the last call. *)
Lemma throughLimiter_window maxRequests W calls :
  forall (userRequests : gmap string (list Z)) (history : string -> list Z) (lo : Z),
    (forall u t, lo <= t ->
       inWindow W t (default [] (userRequests !! u)) = inWindow W t (history u)) ->
    StronglySorted Z.le (lo :: (snd <$> calls)) ->
    forall u t, Forall (fun c => snd c <= t) calls -> lo <= t ->
      inWindow W t
        (default [] (snd (throughLimiter maxRequests W calls userRequests) !! u))
      = inWindow W t
          (history u
           ++ passedTimes u calls
                (fst (throughLimiter maxRequests W calls userRequests))).
Proof.
  induction calls as [|[user now] calls IH]; intros st history lo Hinv Hsorted u t Ht Hlo.
  - cbn. rewrite app_nil_r. by apply Hinv.
  - cbn [throughLimiter].
    apply StronglySorted_inv in Hsorted as [Hsorted Hlow].
    apply StronglySorted_inv in Hsorted as [Hsorted Hnow].
    apply Forall_cons in Hlow as [Hlonow Hlow]. cbn in Hlonow.
    apply Forall_cons in Ht as [Hnowt Ht]. cbn in Hnowt.
    destruct (rateLimitByUser maxRequests W user now st) as [answer st1] eqn:Hstep.
    destruct (throughLimiter maxRequests W calls st1) as [passes st2] eqn:Hrest.
    cbn [fst snd passedTimes].
    set (history1 := fun v =>
           history v ++ (if bool_decide (user = Some v) && bool_decide (answer = None)
                         then [now] else [])).
    assert (Hinv1 : forall v t', now <= t' ->
              inWindow W t' (default [] (st1 !! v)) = inWindow W t' (history1 v)).
    { intros v t' Ht'. subst history1. cbn beta.
      destruct user as [userId|].
      - pose proof (rateLimitByUser_map maxRequests W userId now st v) as Hmap.
        rewrite Hstep in Hmap. rewrite Hmap.
        destruct (decide (v = userId)) as [->|Hne].
        + rewrite !bool_decide_eq_true_2 by done. cbn [andb].
          rewrite !inWindow_app, inWindow_later by done.
          f_equal; [apply Hinv; lia|].
          by rewrite (bool_decide_eq_true_2 (Some userId = Some userId)).
        + rewrite bool_decide_eq_false_2 by done.
          rewrite (bool_decide_eq_false_2 (Some userId = Some v)) by congruence.
          cbn [andb]. rewrite app_nil_r. apply Hinv. lia.
      - cbn in Hstep. injection Hstep as <- <-. cbn. rewrite app_nil_r.
        apply Hinv. lia. }
    pose proof (IH st1 history1 now Hinv1) as IH'.
    rewrite Hrest in IH'. cbn [fst snd] in IH'.
    rewrite IH'; [|by constructor|done|done].
    subst history1. cbn beta. rewrite <- app_assoc. do 2 f_equal.
    by destruct (bool_decide (user = Some u) && bool_decide (answer = None)).
Qed.

(** X16: the limiter is a sliding window over the requests it let through: while
    the clock does not run backwards, a request of a user passes exactly
    when fewer than [maxRequests] of the requests of this user that passed
    lie less than the window before it.  A request that was refused does not
    count. *)
Theorem rateLimitByUser_sliding_window (maxRequests windowMinutes : Z)
    (calls : list (option string * Z)) (userId : string) (now : Z) :
  StronglySorted Z.le ((snd <$> calls) ++ [now]) ->
  let run := throughLimiter maxRequests windowMinutes calls ∅ in
  fst (rateLimitByUser maxRequests windowMinutes (Some userId) now (snd run)) = None
  <-> Z.of_nat (length (inWindow windowMinutes now
                          (passedTimes userId calls (fst run)))) < maxRequests.
Proof.
  intros Hsorted run. rewrite rateLimitByUser_answer. subst run.
  apply StronglySorted_app in Hsorted as (Hcross & Hs & _).
  set (lo := match calls with [] => now | c :: _ => snd c end).
  rewrite (throughLimiter_window maxRequests windowMinutes calls ∅ (fun _ => []) lo).
  - done.
  - intros u t _. by rewrite lookup_empty.
  - apply SSorted_cons; [exact Hs|]. subst lo.
    destruct calls as [|c calls]; [constructor|]. cbn.
    apply StronglySorted_inv in Hs as [_ Hf]. constructor; [lia|exact Hf].
  - apply Forall_forall. intros c Hc. apply Hcross; [|set_solver].
    apply list_elem_of_fmap. by exists c.
  - subst lo. destruct calls as [|c calls]; [lia|].
    apply Hcross; set_solver.
Qed.


(** * Communities and their members *)

Lemma member_with_id_true (id : string) (s : Platform) :
  member_with_id id s = true
  <-> exists k m, pf_communityMember s !! k = Some m /\ me_id m = id.
Proof. unfold member_with_id. by rewrite bool_decide_eq_true. Qed.

Lemma member_with_id_false (id : string) (s : Platform) :
  member_with_id id s = false
  <-> forall k m, pf_communityMember s !! k = Some m -> me_id m <> id.
Proof.
  rewrite <- not_true_iff_false, member_with_id_true. split.
  - intros Hn k m Hk Hid. apply Hn. by exists k, m.
  - intros Hall (k & m & Hk & Hid). by apply (Hall k m).
Qed.

Lemma community_named_false (name : string) (s : Platform) :
  community_named name s = false
  <-> forall cid row, pf_community s !! cid = Some row -> co_name row <> name.
Proof.
  unfold community_named. rewrite bool_decide_eq_false. split.
  - intros Hn k m Hk Hid. apply Hn. by exists k, m.
  - intros Hall (k & m & Hk & Hid). by apply (Hall k m).
Qed.

Lemma find_app {A} (f : A -> bool) (l k : list A) :
  List.find f (l ++ k)
  = match List.find f l with Some x => Some x | None => List.find f k end.
Proof. induction l as [|x l IH]; [done|]. cbn. by destruct (f x). Qed.

Lemma community_create_ok id row s :
  pf_community s !! id = None ->
  community_named (co_name row) s = false ->
  community_create id row s
  = (inr tt,
     {| pf_community := <[id := row]> (pf_community s);
        pf_communityMember := pf_communityMember s;
        pf_communityRole := pf_communityRole s;
        pf_communityMemberRole := pf_communityMemberRole s;
        pf_proposal := pf_proposal s;
        pf_proposalVote := pf_proposalVote s |}).
Proof.
  intros Hid Hname. unfold community_create. rewrite Hid, Hname.
  by rewrite (bool_decide_eq_false_2 (is_Some None)) by (by intros [? ?]).
Qed.

Lemma communityMember_create_ok u c row s :
  member_with_id (me_id row) s = false ->
  pf_communityMember s !! (u, c) = None ->
  is_Some (pf_community s !! c) ->
  communityMember_create u c row s
  = (inr row,
     {| pf_community := pf_community s;
        pf_communityMember := <[(u, c) := row]> (pf_communityMember s);
        pf_communityRole := pf_communityRole s;
        pf_communityMemberRole := pf_communityMemberRole s;
        pf_proposal := pf_proposal s;
        pf_proposalVote := pf_proposalVote s |}).
Proof.
  intros Hid Hkey [x Hc]. unfold communityMember_create. rewrite Hid, Hkey, Hc.
  rewrite (bool_decide_eq_false_2 (is_Some None)) by (by intros [? ?]).
  by rewrite (bool_decide_eq_false_2 (Some x = None)).
Qed.

Lemma communityRole_create_ok row s :
  role_with_id (ro_id row) s = None ->
  is_Some (pf_community s !! ro_communityId row) ->
  communityRole_create row s
  = (inr row,
     {| pf_community := pf_community s;
        pf_communityMember := pf_communityMember s;
        pf_communityRole := pf_communityRole s ++ [row];
        pf_communityMemberRole := pf_communityMemberRole s;
        pf_proposal := pf_proposal s;
        pf_proposalVote := pf_proposalVote s |}).
Proof.
  intros Hid [x Hc]. unfold communityRole_create. rewrite Hid, Hc.
  rewrite (bool_decide_eq_false_2 (is_Some None)) by (by intros [? ?]).
  by rewrite (bool_decide_eq_false_2 (Some x = None)).
Qed.

Lemma communityMemberRole_create_ok row s :
  member_with_id (mr_memberId row) s = true ->
  is_Some (role_with_id (mr_roleId row) s) ->
  communityMemberRole_create row s
  = (inr tt,
     {| pf_community := pf_community s;
        pf_communityMember := pf_communityMember s;
        pf_communityRole := pf_communityRole s;
        pf_communityMemberRole := pf_communityMemberRole s ++ [row];
        pf_proposal := pf_proposal s;
        pf_proposalVote := pf_proposalVote s |}).
Proof.
  intros Hm [x Hr]. unfold communityMemberRole_create. rewrite Hm, Hr.
  by rewrite (bool_decide_eq_false_2 (Some x = None)).
Qed.

Lemma community_update_ok id data row s :
  pf_community s !! id = Some row ->
  community_update id data s
  = (inr tt,
     {| pf_community := <[id := data row]> (pf_community s);
        pf_communityMember := pf_communityMember s;
        pf_communityRole := pf_communityRole s;
        pf_communityMemberRole := pf_communityMemberRole s;
        pf_proposal := pf_proposal s;
        pf_proposalVote := pf_proposalVote s |}).
Proof. intros Hid. unfold community_update. by rewrite Hid. Qed.

Lemma omap_ext_in {A B} (f g : A -> option B) (l : list A) :
  (forall x, x ∈ l -> f x = g x) -> omap f l = omap g l.
Proof.
  induction l as [|x l IH]; [done|]. intros Hfg. cbn.
  rewrite (Hfg x) by left. rewrite IH; [done|].
  intros y Hy. apply Hfg. by right.
Qed.

Lemma omap_one {A B} (f : A -> option B) (x : A) :
  omap f [x] = match f x with Some y => [y] | None => [] end.
Proof. reflexivity. Qed.

Lemma omap_none {A B} (f : A -> option B) (l : list A) :
  (forall x, x ∈ l -> f x = None) -> omap f l = [].
Proof.
  induction l as [|x l IH]; [done|]. intros Hf. cbn.
  rewrite (Hf x) by left. apply IH. intros y Hy. apply Hf. by right.
Qed.

Lemma filter_none {A} (f : A -> bool) (l : list A) :
  (forall x, x ∈ l -> f x = false) -> List.filter f l = [].
Proof.
  induction l as [|x l IH]; [done|]. intros Hf. cbn.
  rewrite (Hf x) by left. apply IH. intros y Hy. apply Hf. by right.
Qed.

Lemma find_filter {A} (f g : A -> bool) (l : list A) :
  List.find (fun x => f x && g x) l = List.find g (List.filter f l).
Proof.
  induction l as [|x l IH]; [done|]. cbn.
  destruct (f x); cbn; [|done]. by destruct (g x).
Qed.

Lemma filter_length_perm {A} (f : A -> bool) (l k : list A) :
  l ≡ₚ k -> length (List.filter f l) = length (List.filter f k).
Proof.
  induction 1 as [|x l k _ IH|x y l|l k j _ IH1 _ IH2]; cbn.
  - done.
  - destruct (f x); cbn; by rewrite IH.
  - by destruct (f x), (f y).
  - by rewrite IH1.
Qed.

Lemma role_with_id_unique (r : RoleRow) (s : Platform) :
  NoDup (ro_id <$> pf_communityRole s) ->
  r ∈ pf_communityRole s -> role_with_id (ro_id r) s = Some r.
Proof.
  unfold role_with_id. induction (pf_communityRole s) as [|x l IH]; intros Hnd Hr.
  - by apply elem_of_nil in Hr.
  - cbn in Hnd. apply NoDup_cons in Hnd as [Hx Hnd]. cbn.
    apply elem_of_cons in Hr as [->|Hr]; [by rewrite String.eqb_refl|].
    destruct (String.eqb (ro_id x) (ro_id r)) eqn:He; [|by apply IH].
    apply String.eqb_eq in He. destruct Hx. rewrite He.
    apply list_elem_of_fmap. by exists r.
Qed.

Section CommunityProperties.

Context `{EV : ExpressValidator} `{WL : WalletLibraries} `{CL : CommunityLibraries}.

Lemma createCommunity_writes g req row s :
  FreshIds g s -> Integrity s ->
  community_named (co_name row) s = false ->
  (check community_create (cg_communityId g) row in
   let+ membership :=
     communityMember_create (fst (cq_user req)) (cg_communityId g)
       {| me_id := cg_memberId g; me_status := "ACTIVE";
          me_joinedAt := cg_joinedAt g |} in
   let+ adminRole' :=
     communityRole_create (adminRole (cg_adminRoleId g) (cg_communityId g)) in
   let+ moderatorRole' :=
     communityRole_create (moderatorRole (cg_moderatorRoleId g) (cg_communityId g)) in
   let+ memberRole' :=
     communityRole_create (memberRole (cg_memberRoleId g) (cg_communityId g)) in
   check communityMemberRole_create
           {| mr_memberId := me_id membership; mr_roleId := ro_id adminRole' |} in
   retA (cg_communityId g, row)) s
  = (inr (cg_communityId g, row), founded g req row s).
Proof.
  intros [Hc Hm Ha Hmo Hme (Hd1 & Hd2 & Hd3)] Hint Hname.
  apply String.eqb_neq in Hd1, Hd2, Hd3. unfold role_with_id in Ha, Hmo, Hme.
  erewrite bindA_run by (by apply community_create_ok).
  erewrite bindA_run; cycle 1.
  { apply communityMember_create_ok; cbn [me_id pf_communityMember pf_community].
    - exact Hm.
    - destruct (pf_communityMember s !! _) as [m|] eqn:Hk; [|done].
      apply (int_member _ Hint) in Hk as [? Hk]. cbn in Hk. congruence.
    - rewrite lookup_insert_eq. by eexists. }
  cbn [pf_community pf_communityMember pf_communityRole pf_communityMemberRole
       pf_proposal pf_proposalVote].
  erewrite bindA_run; cycle 1.
  { apply communityRole_create_ok; cbn [ro_id ro_communityId adminRole pf_community].
    - exact Ha.
    - rewrite lookup_insert_eq. by eexists. }
  cbn [pf_community pf_communityMember pf_communityRole pf_communityMemberRole
       pf_proposal pf_proposalVote].
  erewrite bindA_run; cycle 1.
  { apply communityRole_create_ok;
      cbn [ro_id ro_communityId moderatorRole pf_community].
    - unfold role_with_id. cbn [pf_communityRole].
      rewrite find_app, Hmo. cbn [List.find ro_id adminRole]. by rewrite Hd1.
    - rewrite lookup_insert_eq. by eexists. }
  cbn [pf_community pf_communityMember pf_communityRole pf_communityMemberRole
       pf_proposal pf_proposalVote].
  erewrite bindA_run; cycle 1.
  { apply communityRole_create_ok;
      cbn [ro_id ro_communityId memberRole pf_community].
    - unfold role_with_id. cbn [pf_communityRole].
      rewrite !find_app, Hme. cbn [List.find ro_id adminRole moderatorRole].
      by rewrite Hd2, Hd3.
    - rewrite lookup_insert_eq. by eexists. }
  cbn [pf_community pf_communityMember pf_communityRole pf_communityMemberRole
       pf_proposal pf_proposalVote].
  erewrite bindA_run; cycle 1.
  { apply communityMemberRole_create_ok; cbn [mr_memberId mr_roleId me_id].
    - apply member_with_id_true. cbn [pf_communityMember].
      eexists _, _. split; [apply lookup_insert_eq|done].
    - unfold role_with_id. cbn [pf_communityRole ro_id adminRole].
      rewrite !find_app, Ha. cbn [List.find ro_id adminRole].
      rewrite String.eqb_refl. by eexists. }
  cbn [pf_community pf_communityMember pf_communityRole pf_communityMemberRole
       pf_proposal pf_proposalVote].
  unfold retA, founded. by rewrite <- !app_assoc.
Qed.

(** With ids that are not in use the creation route writes all its rows or
    none. *)
Lemma createCommunity_admission g req s :
  FreshIds g s -> Integrity s ->
  createCommunity g req s
  = match communityAdmission g req s with
    | inl e => (inl e, s)
    | inr row => (inr (cg_communityId g, row), founded g req row s)
    end.
Proof.
  intros Hfresh Hint. unfold createCommunity, communityAdmission.
  rewrite bindA_throwIfA. destruct (negb _); [done|].
  rewrite bindA_getsA, bindA_throwIfA.
  destruct (community_named _ s) eqn:Hname; [done|].
  rewrite bindA_throwIfA. destruct (_ && _); [done|].
  rewrite bindA_throwIfA. destruct (_ && _); [done|].
  destruct (cq_entryFee req) as [fee|].
  - destruct (Js.truthy fee).
    + destruct (parseEther fee) as [message|wei]; [done|].
      unfold bindA at 1. cbn [retA]. by apply createCommunity_writes.
    + unfold bindA at 1. cbn [retA]. by apply createCommunity_writes.
  - unfold bindA at 1. cbn [retA]. by apply createCommunity_writes.
Qed.

Lemma role_with_id_member (r : RoleRow) (s : Platform) :
  r ∈ pf_communityRole s -> is_Some (role_with_id (ro_id r) s).
Proof.
  intros Hr. unfold role_with_id.
  destruct (List.find _ _) eqn:Hf; [by eexists|].
  apply list_elem_of_In in Hr. pose proof (find_none _ _ Hf r Hr) as Hn.
  cbn in Hn. by rewrite String.eqb_refl in Hn.
Qed.

Lemma communityRole_findFirst_member cid name s r :
  communityRole_findFirst cid name s = Some r ->
  r ∈ pf_communityRole s /\ ro_communityId r = cid /\ ro_name r = name.
Proof.
  unfold communityRole_findFirst. intros [Hin Hp]%find_some.
  apply andb_true_iff in Hp as [Hc Hn]. apply String.eqb_eq in Hc, Hn.
  split; [by apply list_elem_of_In|done].
Qed.

(** The join route writes all its rows or none. *)
Lemma joinCommunity_admission g req s :
  joinCommunity g req s
  = match joinAdmission g req s with
    | inl e => (inl e, s)
    | inr row =>
        (inr {| joined_status := "ACTIVE"; joined_joinedAt := jg_joinedAt g;
                joined_role := "Member" |},
         joined g req row s)
    end.
Proof.
  unfold joinCommunity, joinAdmission.
  rewrite bindA_throwIfA. destruct (negb _); [done|].
  rewrite bindA_getsA. destruct (pf_community s !! _) as [row|] eqn:Hrow; [|done].
  rewrite bindA_getsA, bindA_throwIfA. case_bool_decide as Hkey; [done|].
  rewrite bindA_throwIfA. destruct (_ && _); [done|].
  rewrite bindA_throwIfA. destruct (_ && _); [done|].
  destruct (member_with_id (jg_memberId g) s) eqn:Hid.
  { unfold bindA at 1, communityMember_create. cbn [me_id]. by rewrite Hid. }
  erewrite bindA_run; cycle 1.
  { apply communityMember_create_ok; [exact Hid| |by eexists].
    destruct (pf_communityMember s !! _); [|done]. destruct Hkey. by eexists. }
  rewrite bindA_getsA.
  change (communityRole_findFirst (jq_communityId req) "Member" _)
    with (communityRole_findFirst (jq_communityId req) "Member" s).
  unfold joined.
  destruct (communityRole_findFirst (jq_communityId req) "Member" s) as [r|] eqn:Hr.
  - erewrite bindA_run; cycle 1.
    { apply communityMemberRole_create_ok; cbn [mr_memberId mr_roleId me_id].
      - apply member_with_id_true. cbn [pf_communityMember].
        eexists _, _. split; [apply lookup_insert_eq|done].
      - apply communityRole_findFirst_member in Hr as [Hr _].
        by apply (role_with_id_member r s). }
    erewrite bindA_run; cycle 1.
    { apply community_update_ok. cbn [pf_community]. exact Hrow. }
    reflexivity.
  - unfold bindA at 1. cbn [retA].
    erewrite bindA_run; cycle 1.
    { apply community_update_ok. cbn [pf_community]. exact Hrow. }
    cbn. by rewrite app_nil_r.
Qed.

(** The three governance routes leave communities and memberships alone. *)
Lemma castVote_keeps now1 now2 req (db : Db) :
  community (snd (castVote now1 now2 req db)) = community db
  /\ communityMember (snd (castVote now1 now2 req db)) = communityMember db.
Proof.
  rewrite castVote_admission. by destruct (admission now1 req db) as [e|[[p c] b]].
Qed.

Lemma createProposal_keeps_communities now g req (db : Db) :
  community (snd (createProposal now g req db)) = community db
  /\ communityMember (snd (createProposal now g req db)) = communityMember db.
Proof.
  rewrite createProposal_creation. by destruct (creation now g req db).
Qed.

Lemma view_governance {A} (c : M A) s :
  community (snd (c (view s))) = community (view s) ->
  communityMember (snd (c (view s))) = communityMember (view s) ->
  view (snd (governance c s)) = snd (c (view s)).
Proof.
  unfold governance. destruct (c (view s)) as [r [pp pv pc pm]]. cbn.
  intros -> ->. reflexivity.
Qed.

Lemma governance_same {A} (c : M A) s : sameCommunities s (snd (governance c s)).
Proof. unfold governance. by destruct (c (view s)). Qed.

Lemma routed_cases s s' :
  Integrity s -> routed s s' ->
  (sameCommunities s s' /\ step (view s) (view s'))
  \/ (exists g req row,
        FreshIds g s /\ communityAdmission g req s = inr row
        /\ s' = founded g req row s)
  \/ (exists g req row,
        joinAdmission g req s = inr row /\ s' = joined g req row s).
Proof.
  intros Hint Hr. destruct Hr as [g req s Hfresh|g req s|now g req s|now1 now2 req s|clock req s].
  - rewrite createCommunity_admission by done.
    destruct (communityAdmission g req s) as [e|row] eqn:Ha.
    + left. split; [done|]. by apply step_other.
    + right. left. by exists g, req, row.
  - rewrite joinCommunity_admission.
    destruct (joinAdmission g req s) as [e|row] eqn:Ha.
    + left. split; [done|]. by apply step_other.
    + right. right. by exists g, req, row.
  - left. split; [apply governance_same|].
    rewrite view_governance; try apply createProposal_keeps_communities.
    apply step_create.
  - left. split; [apply governance_same|].
    rewrite view_governance; try apply castVote_keeps.
    apply step_vote.
  - left. split; [apply governance_same|].
    rewrite view_governance; try (by rewrite getProposals_reads).
    apply step_list.
Qed.

Lemma Integrity_same s s' : sameCommunities s s' -> Integrity s -> Integrity s'.
Proof.
  destruct s, s'. intros (Hc & Hm & Hr & Hmr). cbn in *. subst.
  intros [H1 H2 H3 H4 H5 H6]. by split.
Qed.

Lemma founded_Integrity g req row s :
  FreshIds g s -> Integrity s -> Integrity (founded g req row s).
Proof.
  intros [Hc Hm Ha Hmo Hme (Hd1 & Hd2 & Hd3)] [H1 H2 H3 H4 H5 H6].
  assert (Hnokey : pf_communityMember s !! (fst (cq_user req), cg_communityId g) = None).
  { destruct (pf_communityMember s !! _) as [m|] eqn:Hk; [|done].
    apply H1 in Hk as [? Hk]. cbn in Hk. congruence. }
  split; cbn [founded pf_community pf_communityMember pf_communityRole
              pf_communityMemberRole].
  - intros k m Hk. apply lookup_insert_Some in Hk as [[<- <-]|[Hne Hk]].
    + cbn. rewrite lookup_insert_eq. by eexists.
    + apply H1 in Hk as [x Hk]. destruct (decide (cg_communityId g = k.2)) as [He|He].
      * rewrite <- He, lookup_insert_eq. by eexists.
      * rewrite lookup_insert_ne by done. by eexists.
  - intros r Hr. apply elem_of_app in Hr as [Hr|Hr].
    + apply H2 in Hr as [x Hr]. destruct (decide (cg_communityId g = ro_communityId r)) as [He|He].
      * rewrite <- He, lookup_insert_eq. by eexists.
      * rewrite lookup_insert_ne by done. by eexists.
    + assert (ro_communityId r = cg_communityId g) as ->.
      { rewrite !elem_of_cons, elem_of_nil in Hr. by destruct Hr as [->|[->|[->|[]]]]. }
      rewrite lookup_insert_eq. by eexists.
  - intros mr Hmr. apply member_with_id_true. unfold founded.
    cbn [pf_communityMember].
    apply elem_of_app in Hmr as [Hmr|Hmr].
    + apply H3, member_with_id_true in Hmr as (k & m & Hk & Hid).
      exists k, m. split; [|done]. rewrite lookup_insert_ne; [done|].
      intros <-. congruence.
    + apply list_elem_of_singleton in Hmr as ->. cbn.
      eexists _, _. split; [apply lookup_insert_eq|done].
  - intros mr Hmr. unfold role_with_id, founded. cbn [pf_communityRole].
    rewrite find_app.
    apply elem_of_app in Hmr as [Hmr|Hmr].
    + apply H4 in Hmr as [x Hx]. unfold role_with_id in Hx. rewrite Hx. by eexists.
    + apply list_elem_of_singleton in Hmr as ->. cbn [mr_roleId].
      unfold role_with_id in Ha. rewrite Ha. cbn. rewrite String.eqb_refl. by eexists.
  - intros k k' m m' Hk Hk' Hid.
    pose proof (proj1 (member_with_id_false _ _) Hm) as Hm'.
    apply lookup_insert_Some in Hk as [[<- <-]|[Hne Hk]];
      apply lookup_insert_Some in Hk' as [[<- <-]|[Hne' Hk']].
    + done.
    + cbn in Hid. by destruct (Hm' _ _ Hk').
    + cbn in Hid. by destruct (Hm' _ _ Hk).
    + by eapply H5.
  - rewrite fmap_app. apply NoDup_app. split; [done|]. split.
    + intros id Hin Hnew. apply list_elem_of_fmap in Hin as (r & -> & Hr).
      assert (Hsome : is_Some (role_with_id (ro_id r) s)) by by apply role_with_id_member.
      cbn in Hnew. rewrite !elem_of_cons, elem_of_nil in Hnew.
      destruct Hnew as [Hn|[Hn|[Hn|[]]]]; rewrite Hn in Hsome;
        [rewrite Ha in Hsome|rewrite Hmo in Hsome|rewrite Hme in Hsome];
        by destruct Hsome.
    + cbn. apply NoDup_cons. split.
      { rewrite !elem_of_cons, elem_of_nil. intros [?|[?|[]]]; congruence. }
      apply NoDup_cons. split; [|apply NoDup_singleton].
      rewrite elem_of_cons, elem_of_nil. intros [?|[]]; congruence.
Qed.

Lemma joinAdmission_inr g req s row :
  joinAdmission g req s = inr row ->
  pf_community s !! jq_communityId req = Some row
  /\ pf_communityMember s !! (fst (jq_user req), jq_communityId req) = None
  /\ member_with_id (jg_memberId g) s = false
  /\ joinValidation req = []
  /\ (co_type row = "TOKEN_GATED" -> notGiven (jq_paymentTxHash req) = false)
  /\ (co_type row = "NFT_GATED" -> isWeb3Verified (snd (jq_user req)) = true).
Proof.
  unfold joinAdmission. case_bool_decide as Hv; [|done]. cbn [negb].
  destruct (pf_community s !! _) as [row'|]; [|done].
  case_bool_decide as Hkey; [done|].
  destruct (_ && _) eqn:Ht; [done|]. destruct (_ && _) eqn:Hn in |- *; [done|].
  destruct (member_with_id _ s) eqn:Hid; [done|]. intros [= ->].
  split_and!; try done.
  - destruct (pf_communityMember s !! _); [|done]. destruct Hkey. by eexists.
  - intros Heq. rewrite Heq in Ht. by destruct (notGiven _).
  - intros Heq. rewrite Heq in Hn. by destruct (isWeb3Verified _).
Qed.

Lemma joined_Integrity g req row s :
  joinAdmission g req s = inr row -> Integrity s -> Integrity (joined g req row s).
Proof.
  intros (Hrow & Hkey & Hid & _)%joinAdmission_inr [H1 H2 H3 H4 H5 H6].
  split; cbn [joined pf_community pf_communityMember pf_communityRole
              pf_communityMemberRole].
  - intros k m Hk. apply lookup_insert_Some in Hk as [[<- <-]|[Hne Hk]].
    + cbn. rewrite lookup_insert_eq. by eexists.
    + apply H1 in Hk as [x Hk]. destruct (decide (jq_communityId req = k.2)) as [He|He].
      * rewrite <- He, lookup_insert_eq. by eexists.
      * rewrite lookup_insert_ne by done. by eexists.
  - intros r Hr. apply H2 in Hr as [x Hr].
    destruct (decide (jq_communityId req = ro_communityId r)) as [He|He].
    + rewrite <- He, lookup_insert_eq. by eexists.
    + rewrite lookup_insert_ne by done. by eexists.
  - intros mr Hmr. apply member_with_id_true. unfold joined.
    cbn [pf_communityMember].
    apply elem_of_app in Hmr as [Hmr|Hmr].
    + apply H3, member_with_id_true in Hmr as (k & m & Hk & Hmid).
      exists k, m. split; [|done]. rewrite lookup_insert_ne; [done|].
      intros <-. congruence.
    + destruct (communityRole_findFirst _ _ s); [|by apply elem_of_nil in Hmr].
      apply list_elem_of_singleton in Hmr as ->. cbn.
      eexists _, _. split; [apply lookup_insert_eq|done].
  - intros mr Hmr. change (is_Some (role_with_id (mr_roleId mr) s)).
    apply elem_of_app in Hmr as [Hmr|Hmr]; [by apply H4|].
    destruct (communityRole_findFirst _ _ s) as [r|] eqn:Hr;
      [|by apply elem_of_nil in Hmr].
    apply list_elem_of_singleton in Hmr as ->. cbn.
    apply communityRole_findFirst_member in Hr as [Hr _].
    by apply role_with_id_member.
  - intros k k' m m' Hk Hk' Hmid.
    pose proof (proj1 (member_with_id_false _ _) Hid) as Hid'.
    apply lookup_insert_Some in Hk as [[<- <-]|[Hne Hk]];
      apply lookup_insert_Some in Hk' as [[<- <-]|[Hne' Hk']].
    + done.
    + cbn in Hmid. by destruct (Hid' _ _ Hk').
    + cbn in Hmid. by destruct (Hid' _ _ Hk).
    + by eapply H5.
  - done.
Qed.

Lemma routed_Integrity s s' : routed s s' -> Integrity s -> Integrity s'.
Proof.
  intros Hr Hint.
  destruct (routed_cases s s' Hint Hr)
    as [[Hsame _]|[(g & req & row & Hf & _ & ->)|(g & req & row & Ha & ->)]].
  - by eapply Integrity_same.
  - by apply founded_Integrity.
  - by apply joined_Integrity.
Qed.

(** *** The roles of a member, as the governance routes see them *)

Lemma rolesOf_founded_old g req row s mid :
  FreshIds g s -> Integrity s -> member_with_id mid s = true ->
  rolesOf (founded g req row s) mid = rolesOf s mid.
Proof.
  intros Hfresh Hint Hmid. unfold rolesOf, founded. cbn [pf_communityMemberRole].
  rewrite omap_app. rewrite (omap_none _ [_]); cycle 1.
  { intros mr ->%list_elem_of_singleton. cbn [mr_memberId].
    replace (String.eqb (cg_memberId g) mid) with false; [done|].
    symmetry. apply String.eqb_neq. intros <-.
    rewrite (fresh_member _ _ Hfresh) in Hmid. done. }
  rewrite app_nil_r. apply omap_ext_in. intros mr Hmr.
  destruct (String.eqb (mr_memberId mr) mid); [|done].
  unfold role_with_id. cbn [pf_communityRole]. rewrite find_app.
  destruct (int_roleRef _ Hint mr Hmr) as [r Hr]. unfold role_with_id in Hr.
  by rewrite Hr.
Qed.

Lemma rolesOf_founded_new g req row s :
  FreshIds g s -> Integrity s ->
  rolesOf (founded g req row s) (cg_memberId g)
  = [{| role := {| permissions :=
          ["MANAGE_COMMUNITY"; "MANAGE_MEMBERS"; "CREATE_PROPOSALS"; "MANAGE_ROLES"] |} |}].
Proof.
  intros Hfresh Hint. unfold rolesOf, founded. cbn [pf_communityMemberRole].
  rewrite omap_app. rewrite omap_none; cycle 1.
  { intros mr Hmr. destruct (String.eqb (mr_memberId mr) _) eqn:He; [|done].
    apply String.eqb_eq in He. pose proof (int_memberRole _ Hint mr Hmr) as Hm.
    rewrite He, (fresh_member _ _ Hfresh) in Hm. done. }
  rewrite omap_one. cbn [app mr_memberId mr_roleId]. rewrite String.eqb_refl.
  unfold role_with_id. cbn [pf_communityRole]. rewrite find_app.
  pose proof (fresh_admin _ _ Hfresh) as Ha. unfold role_with_id in Ha. rewrite Ha.
  cbn [List.find ro_id adminRole]. by rewrite String.eqb_refl.
Qed.

Lemma rolesOf_joined_old g req row s mid :
  joinAdmission g req s = inr row -> member_with_id mid s = true ->
  rolesOf (joined g req row s) mid = rolesOf s mid.
Proof.
  intros (_ & _ & Hid & _)%joinAdmission_inr Hmid.
  unfold rolesOf, joined. cbn [pf_communityMemberRole]. rewrite omap_app.
  replace (omap _ (match communityRole_findFirst _ _ s with
                   | Some r => _ | None => [] end)) with (@nil CommunityMemberRole).
  { by rewrite app_nil_r. }
  destruct (communityRole_findFirst _ _ s); [|done].
  rewrite omap_one. cbn [mr_memberId].
  replace (String.eqb (jg_memberId g) mid) with false; [done|].
  symmetry. apply String.eqb_neq. intros <-. rewrite Hid in Hmid. done.
Qed.

Lemma rolesOf_joined_new g req row s :
  joinAdmission g req s = inr row -> Integrity s ->
  rolesOf (joined g req row s) (jg_memberId g)
  = match communityRole_findFirst (jq_communityId req) "Member" s with
    | Some r => [{| role := {| permissions := ro_permissions r |} |}]
    | None => []
    end.
Proof.
  intros (_ & _ & Hid & _)%joinAdmission_inr Hint.
  unfold rolesOf, joined. cbn [pf_communityMemberRole]. rewrite omap_app.
  rewrite omap_none; cycle 1.
  { intros mr Hmr. destruct (String.eqb (mr_memberId mr) _) eqn:He; [|done].
    apply String.eqb_eq in He. pose proof (int_memberRole _ Hint mr Hmr) as Hm.
    rewrite He, Hid in Hm. done. }
  cbn [app]. destruct (communityRole_findFirst _ _ s) as [r|] eqn:Hr; [|done].
  rewrite omap_one. cbn [mr_memberId mr_roleId]. rewrite String.eqb_refl.
  apply communityRole_findFirst_member in Hr as [Hr _].
  change (role_with_id (ro_id r) _) with (role_with_id (ro_id r) s).
  by rewrite (role_with_id_unique r s (int_roleId _ Hint) Hr).
Qed.

Lemma rolesOf_same s s' mid :
  sameCommunities s s' -> rolesOf s' mid = rolesOf s mid.
Proof.
  destruct s, s'. intros (_ & _ & Hr & Hmr). cbn in *. by subst.
Qed.

(** A membership, once made, stays as it is: along a request to the router
    its row and its roles do not change. *)
Lemma routed_member s s' k m :
  Integrity s -> routed s s' ->
  pf_communityMember s !! k = Some m ->
  pf_communityMember s' !! k = Some m /\ included s' m = included s m.
Proof.
  intros Hint Hr Hk.
  assert (Hmid : member_with_id (me_id m) s = true).
  { apply member_with_id_true. by exists k, m. }
  destruct (routed_cases s s' Hint Hr)
    as [[Hsame _]|[(g & req & row & Hf & Ha & ->)|(g & req & row & Ha & ->)]].
  - split.
    + destruct Hsame as (_ & -> & _). done.
    + unfold included. by rewrite (rolesOf_same s s').
  - split.
    + unfold founded. cbn [pf_communityMember]. rewrite lookup_insert_ne; [done|].
      intros <-. apply (int_member _ Hint) in Hk as [x Hx]. cbn in Hx.
      rewrite (fresh_community _ _ Hf) in Hx. done.
    + unfold included. by rewrite rolesOf_founded_old.
  - split.
    + unfold joined. cbn [pf_communityMember]. rewrite lookup_insert_ne; [done|].
      intros <-. apply joinAdmission_inr in Ha as (_ & Hkey & _). congruence.
    + unfold included. by erewrite rolesOf_joined_old.
Qed.

(** *** What a request keeps *)

Lemma communityAdmission_inr g req s row :
  communityAdmission g req s = inr row ->
  communityValidation req = []
  /\ community_named (co_name row) s = false
  /\ co_name row = trim (cq_name req)
  /\ co_ownerId row = fst (cq_user req)
  /\ co_memberCount row = 1
  /\ co_type row = cq_type req.
Proof.
  unfold communityAdmission. case_bool_decide as Hv; [|done]. cbn [negb].
  destruct (community_named _ s) eqn:Hname; [done|].
  destruct (_ && _); [done|]. destruct (_ && _); [done|].
  destruct (cq_entryFee req) as [fee|];
    [destruct (Js.truthy fee); [destruct (parseEther fee); [done|]|]|];
    by intros [= <-].
Qed.

Lemma routed_step s s' : Integrity s -> routed s s' -> step (view s) (view s').
Proof.
  intros Hint Hr.
  destruct (routed_cases s s' Hint Hr)
    as [[_ Hstep]|[(g & req & row & _ & _ & ->)|(g & req & row & _ & ->)]];
    [done|by apply step_other..].
Qed.

Lemma routed_Founded s s' : Integrity s -> routed s s' -> Founded s -> Founded s'.
Proof.
  intros Hint Hr Hf.
  destruct (routed_cases s s' Hint Hr)
    as [[Hsame _]|[(g & req & row & Hfresh & Ha & ->)|(g & req & row & Ha & ->)]].
  - destruct Hsame as (Hc & _ & Hro & _). intros cid. rewrite Hc, Hro. apply Hf.
  - intros cid Hcid. unfold founded in *. cbn [pf_community pf_communityRole] in *.
    rewrite List.filter_app. cbn [List.filter adminRole moderatorRole memberRole ro_communityId].
    destruct (decide (cg_communityId g = cid)) as [<-|Hne].
    + rewrite String.eqb_refl. rewrite filter_none; [by eexists _, _, _|].
      intros r Hro. apply String.eqb_neq. intros He.
      apply (int_role _ Hint) in Hro as [x Hx].
      rewrite He, (fresh_community _ _ Hfresh) in Hx. done.
    + rewrite lookup_insert_ne in Hcid by done.
      replace (String.eqb (cg_communityId g) cid) with false
        by (symmetry; by apply String.eqb_neq).
      rewrite app_nil_r. by apply Hf.
  - intros cid Hcid. unfold joined in *. cbn [pf_community pf_communityRole] in *.
    apply Hf. apply joinAdmission_inr in Ha as (Hrow & _).
    destruct (decide (jq_communityId req = cid)) as [<-|Hne]; [by eexists|].
    by rewrite lookup_insert_ne in Hcid.
Qed.

Lemma routed_UniqueNames s s' :
  Integrity s -> routed s s' -> UniqueNames s -> UniqueNames s'.
Proof.
  intros Hint Hr Hu.
  destruct (routed_cases s s' Hint Hr)
    as [[Hsame _]|[(g & req & row & Hfresh & Ha & ->)|(g & req & row & Ha & ->)]].
  - destruct Hsame as (Hc & _). unfold UniqueNames. rewrite Hc. apply Hu.
  - apply communityAdmission_inr in Ha as (_ & Hname & _).
    pose proof (proj1 (community_named_false _ _) Hname) as Hfree.
    intros c1 c2 r1 r2. unfold founded. cbn [pf_community].
    intros [[<- <-]|[Hn1 H1]]%lookup_insert_Some [[<- <-]|[Hn2 H2]]%lookup_insert_Some Heq.
    + done.
    + by destruct (Hfree _ _ H2).
    + by destruct (Hfree _ _ H1).
    + by eapply Hu.
  - apply joinAdmission_inr in Ha as (Hrow & _).
    intros c1 c2 r1 r2. unfold joined. cbn [pf_community].
    intros [[<- <-]|[Hn1 H1]]%lookup_insert_Some [[<- <-]|[Hn2 H2]]%lookup_insert_Some Heq.
    + done.
    + cbn in Heq. by eapply Hu.
    + cbn in Heq. by eapply Hu.
    + by eapply Hu.
Qed.

Lemma membersOf_insert cid k m s pc pr pmr pp pv :
  pf_communityMember s !! k = None ->
  length (membersOf cid
            {| pf_community := pc;
               pf_communityMember := <[k := m]> (pf_communityMember s);
               pf_communityRole := pr; pf_communityMemberRole := pmr;
               pf_proposal := pp; pf_proposalVote := pv |})
  = ((if String.eqb (snd k) cid then 1 else 0) + length (membersOf cid s))%nat.
Proof.
  intros Hk. unfold membersOf. cbn [pf_communityMember].
  rewrite (filter_length_perm _ _ _ (map_to_list_insert _ _ m Hk)). cbn.
  by destruct (String.eqb (snd k) cid).
Qed.

Lemma routed_Counted s s' : Integrity s -> routed s s' -> Counted s -> Counted s'.
Proof.
  intros Hint Hr Hc.
  destruct (routed_cases s s' Hint Hr)
    as [[Hsame _]|[(g & req & row & Hfresh & Ha & ->)|(g & req & row & Ha & ->)]].
  - destruct Hsame as (Hco & Hm & _). intros cid row. unfold membersOf.
    rewrite Hco, Hm. apply Hc.
  - assert (Hnokey : pf_communityMember s !! (fst (cq_user req), cg_communityId g) = None).
    { destruct (pf_communityMember s !! _) as [m|] eqn:Hk; [|done].
      apply (int_member _ Hint) in Hk as [? Hk]. cbn in Hk.
      rewrite (fresh_community _ _ Hfresh) in Hk. done. }
    apply communityAdmission_inr in Ha as (_ & _ & _ & _ & Hone & _).
    intros cid row'. unfold founded. rewrite membersOf_insert by done.
    cbn [pf_community snd].
    intros [[<- <-]|[Hne Hrow]]%lookup_insert_Some.
    + rewrite String.eqb_refl, Hone.
      replace (length (membersOf (cg_communityId g) s)) with 0%nat; [done|].
      symmetry. apply length_zero_iff_nil. unfold membersOf. apply filter_none.
      intros [k m] Hkm. apply elem_of_map_to_list in Hkm.
      apply String.eqb_neq. intros He. cbn in He.
      apply (int_member _ Hint) in Hkm as [x Hx].
      rewrite He, (fresh_community _ _ Hfresh) in Hx. done.
    + replace (String.eqb (cg_communityId g) cid) with false
        by (symmetry; by apply String.eqb_neq).
      by apply Hc.
  - apply joinAdmission_inr in Ha as (Hrow & Hkey & _).
    intros cid row'. unfold joined. rewrite membersOf_insert by done.
    cbn [pf_community snd].
    intros [[<- <-]|[Hne Hrow']]%lookup_insert_Some.
    + rewrite String.eqb_refl. cbn [incrementMemberCount co_memberCount].
      rewrite (Hc _ _ Hrow). lia.
    + replace (String.eqb (jq_communityId req) cid) with false
        by (symmetry; by apply String.eqb_neq).
      by apply Hc.
Qed.

Lemma routed_Owners s s' :
  Integrity s -> routed s s' -> OwnersCannotVote s -> OwnersCannotVote s'.
Proof.
  intros Hint Hr Ho.
  assert (Hold : forall cid row owner,
            pf_community s !! cid = Some row -> owner = co_ownerId row ->
            exists m, pf_communityMember s' !! (owner, cid) = Some m
                      /\ hasPermission "VOTE" (included s' m) = false).
  { intros cid row owner Hrow ->. destruct (Ho cid row Hrow) as (m & Hm & Hp).
    destruct (routed_member s s' _ m Hint Hr Hm) as [Hm' Hinc].
    exists m. by rewrite Hinc. }
  destruct (routed_cases s s' Hint Hr)
    as [[Hsame _]|[(g & req & row & Hfresh & Ha & ->)|(g & req & row & Ha & ->)]].
  - destruct Hsame as (Hc & _). intros cid row. rewrite Hc. eauto.
  - intros cid row'. unfold founded at 1. cbn [pf_community].
    intros [[<- <-]|[Hne Hrow]]%lookup_insert_Some; [|by eauto].
    apply communityAdmission_inr in Ha as (_ & _ & _ & -> & _).
    eexists. split; [unfold founded; cbn [pf_communityMember]; apply lookup_insert_eq|].
    unfold included. cbn [me_id]. rewrite rolesOf_founded_new by done.
    by vm_compute.
  - intros cid row'. unfold joined at 1. cbn [pf_community].
    apply joinAdmission_inr in Ha as (Hrow & _).
    intros [[<- <-]|[Hne Hrow']]%lookup_insert_Some; by eauto.
Qed.

Lemma resolved_communityId now2 members b w p :
  communityId (resolved now2 members (incrementVotes b w p)) = communityId p.
Proof. unfold resolved. by repeat case_match. Qed.

Lemma routed_Voters s s' :
  Integrity s -> routed s s' -> VotersAreMembers s -> VotersAreMembers s'.
Proof.
  intros Hint Hr Hvm.
  assert (Hold : forall v p',
            v ∈ pf_proposalVote s ->
            (forall p, pf_proposal s !! proposalId v = Some p ->
                       pf_proposal s' !! proposalId v = Some (p' p)
                       /\ communityId (p' p) = communityId p) ->
            exists p m,
              pf_proposal s' !! proposalId v = Some p
              /\ pf_communityMember s' !! (userId v, communityId p) = Some m
              /\ hasPermission "VOTE" (included s' m) = true).
  { intros v p' Hv Hp'. destruct (Hvm v Hv) as (p & m & Hp & Hm & Hperm).
    destruct (routed_member s s' _ m Hint Hr Hm) as [Hm' Hinc].
    destruct (Hp' p Hp) as [Hp1 Hc].
    exists (p' p), m. by rewrite Hc, Hinc. }
  destruct (routed_cases s s' Hint Hr)
    as [[Hsame Hstep]|[(g & req & row & Hfresh & Ha & ->)|(g & req & row & Ha & ->)]].
  - apply step_cases in Hstep
      as [[Hp Hv]|[(now1 & now2 & req & p & c & b & Hacc & Hs')
                  |(now & g & req & gas & Hfresh & Hs')]].
    + cbn in Hp, Hv. intros v. rewrite Hv. intros Hin.
      apply (Hold v (fun p => p) Hin). intros p. by rewrite Hp.
    + assert (Hprop : pf_proposal s'
                = <[vr_proposalId req :=
                      resolved now2 (memberCount c)
                        (incrementVotes b (votingWeight (votingPower c)) p)]>
                    (pf_proposal s)).
      { change (pf_proposal s') with (proposal (view s')). by rewrite Hs'. }
      assert (Hvotes : pf_proposalVote s'
                = pf_proposalVote s ++ [newVote req b (votingWeight (votingPower c))]).
      { change (pf_proposalVote s') with (proposalVote (view s')). by rewrite Hs'. }
      pose proof (acc_found _ _ _ _ _ _ Hacc) as Hfound. cbn in Hfound.
      intros v. rewrite Hvotes. intros [Hin|Hin]%elem_of_app.
      * apply (Hold v (fun q => if decide (vr_proposalId req = proposalId v)
                                then resolved now2 (memberCount c)
                                       (incrementVotes b (votingWeight (votingPower c)) p)
                                else q) Hin).
        intros q Hq. rewrite Hprop. case_decide as Hid.
        -- rewrite <- Hid, lookup_insert_eq. split; [done|].
           rewrite resolved_communityId. rewrite <- Hid in Hq. congruence.
        -- by rewrite lookup_insert_ne.
      * apply list_elem_of_singleton in Hin as ->. cbn [newVote proposalId userId].
        destruct (acc_member _ _ _ _ _ _ Hacc) as (m' & Hm' & Hperm).
        cbn in Hm'. rewrite lookup_fmap in Hm'.
        destruct (pf_communityMember s !! _) as [m|] eqn:Hm; [|done].
        injection Hm' as <-.
        destruct (routed_member s s' _ m Hint Hr Hm) as [Hm1 Hinc].
        eexists _, m. rewrite Hprop, lookup_insert_eq. split; [done|].
        rewrite resolved_communityId, (acc_route _ _ _ _ _ _ Hacc).
        by rewrite Hinc.
    + assert (Hprop : pf_proposal s'
                = <[newId g := newRow now g req gas]> (pf_proposal s)).
      { change (pf_proposal s') with (proposal (view s')). by rewrite Hs'. }
      assert (Hvotes : pf_proposalVote s' = pf_proposalVote s).
      { change (pf_proposalVote s') with (proposalVote (view s')). by rewrite Hs'. }
      intros v. rewrite Hvotes. intros Hin.
      apply (Hold v (fun p => p) Hin). intros p Hp. split; [|done].
      rewrite Hprop, lookup_insert_ne; [done|]. intros He. cbn in Hfresh.
      rewrite He in Hfresh. congruence.
  - intros v Hin. apply (Hold v (fun p => p) Hin). by intros p.
  - intros v Hin. apply (Hold v (fun p => p) Hin). by intros p.
Qed.

Lemma routed_Sound s s' : routed s s' -> Sound s -> Sound s'.
Proof.
  intros Hr [Hint Hf Hc Hn Ho Hv Honce Hcount]. split.
  - by eapply routed_Integrity.
  - by eapply routed_Founded.
  - by eapply routed_Counted.
  - by eapply routed_UniqueNames.
  - by eapply routed_Owners.
  - by eapply routed_Voters.
  - eapply step_OneVoteEach; [by apply routed_step|done].
  - eapply step_CountInv; [by apply routed_step|done].
Qed.

Lemma run_Sound s s' : rtc routed s s' -> Sound s -> Sound s'.
Proof. induction 1; eauto using routed_Sound. Qed.

Lemma emptyPlatform_Sound : Sound emptyPlatform.
Proof.
  split.
  - split; cbn.
    + intros k m Hk. by rewrite lookup_empty in Hk.
    + intros r Hr. by apply elem_of_nil in Hr.
    + intros mr Hmr. by apply elem_of_nil in Hmr.
    + intros mr Hmr. by apply elem_of_nil in Hmr.
    + intros k k' m m' Hk. by rewrite lookup_empty in Hk.
    + apply NoDup_nil_2.
  - intros cid [x Hx]. cbn in Hx. by rewrite lookup_empty in Hx.
  - intros cid row Hrow. cbn in Hrow. by rewrite lookup_empty in Hrow.
  - intros cid cid' row row' Hrow. cbn in Hrow. by rewrite lookup_empty in Hrow.
  - intros cid row Hrow. cbn in Hrow. by rewrite lookup_empty in Hrow.
  - intros v Hv. by apply elem_of_nil in Hv.
  - unfold OneVoteEach. cbn. apply NoDup_nil_2.
  - split.
    + intros v Hv. by apply elem_of_nil in Hv.
    + intros pid p Hp. cbn in Hp. by rewrite lookup_empty in Hp.
Qed.

(** *** Runs *)

Lemma run_Integrity s s' : rtc routed s s' -> Integrity s -> Integrity s'.
Proof. induction 1; eauto using routed_Integrity. Qed.

Lemma run_member s s' k m :
  rtc routed s s' -> Integrity s ->
  pf_communityMember s !! k = Some m ->
  pf_communityMember s' !! k = Some m /\ included s' m = included s m.
Proof.
  induction 1 as [s|s s1 s2 Hr _ IH]; intros Hint Hk; [done|].
  destruct (routed_member s s1 k m Hint Hr Hk) as [Hk1 Hinc1].
  destruct (IH (routed_Integrity _ _ Hr Hint) Hk1) as [Hk2 Hinc2].
  split; [done|congruence].
Qed.

Lemma routed_community s s' cid row :
  Integrity s -> routed s s' ->
  pf_community s !! cid = Some row ->
  exists row',
    pf_community s' !! cid = Some row'
    /\ co_name row' = co_name row /\ co_ownerId row' = co_ownerId row
    /\ co_type row' = co_type row
    /\ co_memberCount row <= co_memberCount row'.
Proof.
  intros Hint Hr Hrow.
  destruct (routed_cases s s' Hint Hr)
    as [[Hsame _]|[(g & req & row1 & Hfresh & Ha & ->)|(g & req & row1 & Ha & ->)]].
  - destruct Hsame as (Hc & _). exists row. rewrite Hc. split_and!; try done; lia.
  - exists row. unfold founded. cbn [pf_community].
    rewrite lookup_insert_ne; [split_and!; try done; lia|].
    intros <-. rewrite (fresh_community _ _ Hfresh) in Hrow. done.
  - apply joinAdmission_inr in Ha as (Hrow1 & _).
    unfold joined. cbn [pf_community].
    destruct (decide (jq_communityId req = cid)) as [<-|Hne].
    + rewrite Hrow in Hrow1. injection Hrow1 as <-.
      exists (incrementMemberCount row). rewrite lookup_insert_eq.
      split_and!; try done. cbn. lia.
    + exists row. rewrite lookup_insert_ne by done. split_and!; try done; lia.
Qed.

Lemma run_community s s' cid row :
  rtc routed s s' -> Integrity s ->
  pf_community s !! cid = Some row ->
  exists row',
    pf_community s' !! cid = Some row'
    /\ co_name row' = co_name row /\ co_ownerId row' = co_ownerId row
    /\ co_type row' = co_type row
    /\ co_memberCount row <= co_memberCount row'.
Proof.
  intros Hrun. revert row. induction Hrun as [s|s s1 s2 Hr _ IH]; intros row Hint Hrow.
  - exists row. split_and!; try done; lia.
  - destruct (routed_community s s1 cid row Hint Hr Hrow)
      as (row1 & Hrow1 & Hn1 & Ho1 & Ht1 & Hc1).
    destruct (IH row1 (routed_Integrity _ _ Hr Hint) Hrow1)
      as (row2 & Hrow2 & Hn2 & Ho2 & Ht2 & Hc2).
    exists row2. split_and!; try done; try congruence; lia.
Qed.

Lemma view_member s k m :
  pf_communityMember s !! k = Some m ->
  communityMember (view s) !! k = Some (included s m).
Proof. intros Hk. cbn. by rewrite lookup_fmap, Hk. Qed.

Lemma view_member_inv s k cm :
  communityMember (view s) !! k = Some cm ->
  exists m, pf_communityMember s !! k = Some m /\ cm = included s m.
Proof.
  cbn. rewrite lookup_fmap. destruct (pf_communityMember s !! k) as [m|]; [|done].
  intros [= <-]. by exists m.
Qed.

(** No vote of a user who lacks the permission, in a sound store. *)
Lemma no_vote_without_permission s pid p uid m :
  VotersAreMembers s ->
  pf_proposal s !! pid = Some p ->
  pf_communityMember s !! (uid, communityId p) = Some m ->
  hasPermission "VOTE" (included s m) = false ->
  votesOf pid uid (proposalVote (view s)) = [].
Proof.
  intros Hvm Hp Hm Hperm. cbn [view proposalVote]. unfold votesOf.
  destruct (filter _ _) as [|v l] eqn:Hf; [done|].
  assert (Hv : v ∈ filter (fun v => proposalId v = pid /\ userId v = uid)
                    (pf_proposalVote s)) by (rewrite Hf; left).
  apply list_elem_of_filter in Hv as [[Hpid Huid] Hv].
  destruct (Hvm v Hv) as (p' & m' & Hp' & Hm' & Hperm').
  rewrite Hpid, Hp in Hp'. injection Hp' as <-.
  rewrite Huid, Hm in Hm'. injection Hm' as <-. congruence.
Qed.

(** *** The properties *)

(** X17: the governance routes never touch a community or a membership: after a
    proposal was created, a vote was cast or the proposals were listed,
    whatever the outcome, both tables are what they were. *)
Theorem governance_leaves_communities now g (preq : ProposalRequest)
    now1 now2 (vreq : VoteRequest) clock (lreq : ListRequest) (db : Db) :
  (community (snd (createProposal now g preq db)) = community db
   /\ communityMember (snd (createProposal now g preq db)) = communityMember db)
  /\ (community (snd (castVote now1 now2 vreq db)) = community db
      /\ communityMember (snd (castVote now1 now2 vreq db)) = communityMember db)
  /\ (community (snd (getProposals clock lreq db)) = community db
      /\ communityMember (snd (getProposals clock lreq db)) = communityMember db).
Proof.
  split; [apply createProposal_keeps_communities|].
  split; [apply castVote_keeps|]. by rewrite getProposals_reads.
Qed.

(** X18: a membership never changes: along every run of the router, the
    governance routes find a member of a community with the joining time
    and the roles the member had at the start. *)
Theorem memberships_never_change (s s' : Platform) (k : string * string)
    (cm : CommunityMember) :
  Integrity s ->
  rtc routed s s' ->
  communityMember (view s) !! k = Some cm ->
  communityMember (view s') !! k = Some cm.
Proof.
  intros Hint Hrun (m & Hk & ->)%view_member_inv.
  destruct (run_member s s' k m Hrun Hint Hk) as [Hk' Hinc].
  rewrite (view_member s' k m Hk'). by rewrite Hinc.
Qed.

(** X19: with ids that are not in use the creation route writes all its rows or
    none: either it fails and the store is what it was, or the store has the
    new community with one member, its creator as owner and as member with
    the Admin role, and the three default roles.  The join route does the
    same, whatever the ids. *)
Theorem community_routes_write_all_or_nothing (g : CommunityGenerated)
    (req : CommunityRequest) (jg : JoinGenerated) (jreq : JoinRequest)
    (s : Platform) :
  Integrity s -> FreshIds g s ->
  ((exists e, createCommunity g req s = (inl e, s))
   \/ (exists row,
         createCommunity g req s = (inr (cg_communityId g, row), founded g req row s)
         /\ co_memberCount row = 1
         /\ co_ownerId row = fst (cq_user req)
         /\ communityMember (view (founded g req row s))
              !! (fst (cq_user req), cg_communityId g)
            = Some {| joinedAt := cg_joinedAt g;
                      roles := [{| role := {| permissions :=
                        ["MANAGE_COMMUNITY"; "MANAGE_MEMBERS";
                         "CREATE_PROPOSALS"; "MANAGE_ROLES"] |} |}] |}))
  /\ ((exists e, joinCommunity jg jreq s = (inl e, s))
      \/ (exists row resp,
            pf_community s !! jq_communityId jreq = Some row
            /\ joinCommunity jg jreq s = (inr resp, joined jg jreq row s))).
Proof.
  intros Hint Hfresh. split.
  - rewrite createCommunity_admission by done.
    destruct (communityAdmission g req s) as [e|row] eqn:Ha; [left; by exists e|].
    right. exists row. apply communityAdmission_inr in Ha as (_ & _ & _ & Ho & Hc & _).
    split_and!; try done.
    erewrite view_member by (unfold founded; cbn [pf_communityMember];
                             apply lookup_insert_eq).
    unfold included. cbn [me_id me_joinedAt]. by rewrite rolesOf_founded_new.
  - rewrite joinCommunity_admission.
    destruct (joinAdmission jg jreq s) as [e|row] eqn:Ha; [left; by exists e|].
    right. exists row. eexists. split; [|done].
    by apply joinAdmission_inr in Ha as (Hrow & _).
Qed.

(** X20: the creator of a community can open proposals in it and can never vote
    on them.  After a community was created, at every later state of a run:
    a vote of the creator in this community is refused with the store
    unchanged, with the 403 of the permission check when the request is
    valid and names a proposal of the community that is active and inside its
    window; and a valid request of the creator for a proposal is carried
    out. *)
Theorem creator_proposes_but_never_votes (g : CommunityGenerated)
    (req : CommunityRequest) (s s1 s2 : Platform) (cid : string)
    (row : CommunityRow) :
  Sound s -> FreshIds g s ->
  createCommunity g req s = (inr (cid, row), s1) ->
  rtc routed s1 s2 ->
  (forall now1 now2 vreq,
     vr_user vreq = fst (cq_user req) -> vr_communityId vreq = cid ->
     (exists e, castVote now1 now2 vreq (view s2) = (inl e, view s2))
     /\ (forall p,
           voteValidation vreq = [] ->
           proposal (view s2) !! vr_proposalId vreq = Some p ->
           communityId p = cid -> status p = ACTIVE -> now1 <= votingEndsAt p ->
           castVote now1 now2 vreq (view s2)
           = (inl (ApiError 403 "You do not have permission to vote" []), view s2)))
  /\ (forall now pg preq gas,
        pr_user preq = fst (cq_user req) -> pr_communityId preq = cid ->
        proposalValidation preq = [] ->
        default (JBool false) (pr_gasRequired preq) = JBool gas ->
        proposal (view s2) !! newId pg = None ->
        exists resp db',
          createProposal now pg preq (view s2) = (inr resp, db')
          /\ created resp = newRow now pg preq gas).
Proof.
  intros Hsound Hfresh Hcreate Hrun.
  pose proof (sound_integrity _ Hsound) as Hint.
  rewrite createCommunity_admission in Hcreate by done.
  destruct (communityAdmission g req s) as [e|row'] eqn:Ha; [done|].
  injection Hcreate as <- <- <-.
  set (s1 := founded g req row' s) in *.
  assert (Hsound1 : Sound s1).
  { apply (routed_Sound s); [|done].
    pose proof (routed_create g req s Hfresh) as Hr.
    rewrite createCommunity_admission, Ha in Hr by done. exact Hr. }
  pose proof (run_Sound _ _ Hrun Hsound1) as Hsound2.
  set (m0 := {| me_id := cg_memberId g; me_status := "ACTIVE";
                me_joinedAt := cg_joinedAt g |}).
  assert (Hm1 : pf_communityMember s1 !! (fst (cq_user req), cg_communityId g)
                = Some m0) by apply lookup_insert_eq.
  destruct (run_member s1 s2 _ m0 Hrun (sound_integrity _ Hsound1) Hm1)
    as [Hm2 Hinc].
  assert (Hroles : included s2 m0
                   = {| joinedAt := cg_joinedAt g;
                        roles := [{| role := {| permissions :=
                          ["MANAGE_COMMUNITY"; "MANAGE_MEMBERS";
                           "CREATE_PROPOSALS"; "MANAGE_ROLES"] |} |}] |}).
  { rewrite Hinc. unfold included, s1. cbn [me_id me_joinedAt m0].
    by rewrite rolesOf_founded_new. }
  assert (Hview : communityMember (view s2) !! (fst (cq_user req), cg_communityId g)
                  = Some (included s2 m0)) by by apply view_member.
  split.
  - intros now1 now2 vreq Hu Hc. split.
    + rewrite castVote_admission.
      destruct (admission now1 vreq (view s2)) as [e|[[p c] b]] eqn:Hadm;
        [by exists e|].
      apply admission_Accepted in Hadm.
      destruct (acc_member _ _ _ _ _ _ Hadm) as (m & Hm & Hperm).
      rewrite Hu, Hc, Hview in Hm. injection Hm as <-.
      rewrite Hroles in Hperm. done.
    + intros p Hvalid Hp Hcp Hactive Hwindow.
      apply castVote_rejects. unfold admission.
      rewrite Hvalid, Hp, Hcp, Hc, Hactive, Hu, Hview, Hroles.
      rewrite !bool_decide_eq_true_2 by done. cbn [negb].
      replace (now1 >? votingEndsAt p) with false by lia.
      rewrite (no_vote_without_permission s2 _ p _ m0); try done.
      * apply (sound_voters _ Hsound2).
      * by rewrite Hcp.
      * by rewrite Hroles.
  - intros now pg preq gas Hu Hc Hvalid Hgas Hnew.
    destruct (run_community s1 s2 (cg_communityId g) row' Hrun
                (sound_integrity _ Hsound1)) as (row2 & Hrow2 & _).
    { apply lookup_insert_eq. }
    rewrite createProposal_creation.
    assert (Hcr : creation now pg preq (view s2) = inr (newRow now pg preq gas)).
    { apply creation_inr. exists gas, (included s2 m0).
      rewrite Hu, Hc. split_and!; try done.
      - by rewrite Hroles.
      - cbn. rewrite lookup_fmap, Hrow2. by eexists. }
    rewrite Hcr. by eexists _, _.
Qed.

Lemma Founded_findFirst s cid :
  Founded s -> is_Some (pf_community s !! cid) ->
  exists me, communityRole_findFirst cid "Member" s = Some (memberRole me cid).
Proof.
  intros Hf Hcid. destruct (Hf cid Hcid) as (a & mo & me & Hroles).
  exists me. unfold communityRole_findFirst. by rewrite find_filter, Hroles.
Qed.

(** The roles of a user who joined, at the end of a run. *)
Lemma joined_roles g req s s1 s2 resp :
  Sound s ->
  joinCommunity g req s = (inr resp, s1) ->
  rtc routed s1 s2 ->
  exists row,
    pf_community s !! jq_communityId req = Some row
    /\ pf_communityMember s !! (fst (jq_user req), jq_communityId req) = None
    /\ Sound s1 /\ Sound s2
    /\ communityMember (view s2) !! (fst (jq_user req), jq_communityId req)
       = Some {| joinedAt := jg_joinedAt g;
                 roles := [{| role := {| permissions := ["POST"; "COMMENT"; "VOTE"] |} |}] |}.
Proof.
  intros Hsound Hjoin Hrun.
  pose proof (sound_integrity _ Hsound) as Hint.
  pose proof (routed_join g req s) as Hr.
  rewrite joinCommunity_admission in Hjoin, Hr.
  destruct (joinAdmission g req s) as [e|row] eqn:Ha; [done|].
  injection Hjoin as <- <-. cbn [snd] in Hr.
  pose proof (routed_Sound _ _ Hr Hsound) as Hsound1.
  pose proof (run_Sound _ _ Hrun Hsound1) as Hsound2.
  pose proof Ha as (Hrow & Hkey & _)%joinAdmission_inr.
  exists row. split_and!; try done.
  set (m0 := {| me_id := jg_memberId g; me_status := "ACTIVE";
                me_joinedAt := jg_joinedAt g |}).
  assert (Hm1 : pf_communityMember (joined g req row s)
                  !! (fst (jq_user req), jq_communityId req) = Some m0)
    by apply lookup_insert_eq.
  destruct (run_member _ s2 _ m0 Hrun (sound_integrity _ Hsound1) Hm1)
    as [Hm2 Hinc].
  rewrite (view_member s2 _ m0 Hm2), Hinc. unfold included. cbn [me_id me_joinedAt m0].
  rewrite rolesOf_joined_new by done.
  destruct (Founded_findFirst s (jq_communityId req) (sound_founded _ Hsound))
    as (me & ->); [by eexists|done].
Qed.

(** X21: a user who joined a community can vote in it and can never open a
    proposal.  After a join, at every later state of a run: a request of
    this user for a proposal in the community is refused with the store
    unchanged, with the 403 of the permission check when it is valid; and a
    valid first vote of this user on an active proposal of the community,
    inside its window, is recorded. *)
Theorem joiner_votes_but_never_proposes (g : JoinGenerated) (req : JoinRequest)
    (s s1 s2 : Platform) (resp : JoinResponse) :
  Sound s ->
  joinCommunity g req s = (inr resp, s1) ->
  rtc routed s1 s2 ->
  (forall now pg preq,
     pr_user preq = fst (jq_user req) -> pr_communityId preq = jq_communityId req ->
     (exists e, createProposal now pg preq (view s2) = (inl e, view s2))
     /\ (proposalValidation preq = [] ->
         createProposal now pg preq (view s2)
         = (inl (ApiError 403 "You do not have permission to create proposals" []),
            view s2)))
  /\ (forall now1 now2 vreq p b,
        vr_user vreq = fst (jq_user req) ->
        vr_communityId vreq = jq_communityId req ->
        voteValidation vreq = [] ->
        proposal (view s2) !! vr_proposalId vreq = Some p ->
        communityId p = jq_communityId req ->
        status p = ACTIVE -> now1 <= votingEndsAt p ->
        votesOf (vr_proposalId vreq) (vr_user vreq) (proposalVote (view s2)) = [] ->
        gasRequired p && noTxHash (vr_txHash vreq) = false ->
        vr_vote vreq = JBool b ->
        exists resp' db',
          castVote now1 now2 vreq (view s2) = (inr resp', db')
          /\ votesOf (vr_proposalId vreq) (vr_user vreq) (proposalVote db')
             = [newVote vreq b 1]).
Proof.
  intros Hsound Hjoin Hrun.
  destruct (joined_roles g req s s1 s2 resp Hsound Hjoin Hrun)
    as (row & Hrow & Hkey & Hsound1 & Hsound2 & Hview).
  split.
  - intros now pg preq Hu Hc. rewrite createProposal_creation.
    assert (Hno : forall q, creation now pg preq (view s2) <> inr q).
    { intros q (gas & m & _ & _ & Hm & Hperm & _)%creation_inr.
      rewrite Hu, Hc, Hview in Hm. injection Hm as <-. done. }
    split.
    + destruct (creation now pg preq (view s2)) as [e|q] eqn:Hcr;
        [by exists e|by destruct (Hno q)].
    + intros Hvalid. unfold creation. rewrite Hvalid, Hu, Hc, Hview.
      by rewrite bool_decide_eq_true_2.
  - intros now1 now2 vreq p b Hu Hc Hvalid Hp Hcp Hactive Hwindow Hfirst Hgas Hvote.
    destruct (run_community s1 s2 (jq_communityId req) (incrementMemberCount row))
      as (row2 & Hrow2 & _); [done|apply (sound_integrity _ Hsound1)| |].
    { rewrite joinCommunity_admission in Hjoin.
      destruct (joinAdmission g req s) as [e|row'] eqn:Ha; [done|].
      injection Hjoin as <- <-.
      apply joinAdmission_inr in Ha as (Hrow' & _).
      rewrite Hrow in Hrow'. injection Hrow' as <-. apply lookup_insert_eq. }
    assert (Hacc : Accepted now1 vreq (view s2) p (communityOfRow row2) b).
    { split; try done.
      - by rewrite Hc.
      - rewrite Hu, Hc. eexists. by split.
      - rewrite Hcp. cbn. by rewrite lookup_fmap, Hrow2. }
    rewrite (castVote_accepted now1 now2 vreq (view s2) p _ b Hacc).
    eexists _, _. split; [done|].
    rewrite votesOf_voted by done. by rewrite votingWeight_one.
Qed.

(** X22: nobody joins twice: at every later state of a run, a request of a member
    to join the community again is refused and changes nothing; a valid one
    gets the 409. *)
Theorem members_cannot_join_again (s s' : Platform) (uid cid : string)
    (cm : CommunityMember) (g : JoinGenerated) (req : JoinRequest) :
  Integrity s ->
  communityMember (view s) !! (uid, cid) = Some cm ->
  rtc routed s s' ->
  fst (jq_user req) = uid -> jq_communityId req = cid ->
  (exists e, joinCommunity g req s' = (inl e, s'))
  /\ (joinValidation req = [] ->
      joinCommunity g req s'
      = (inl (Routed (ApiError 409 "Already a member of this community" [])), s')).
Proof.
  intros Hint (m & Hm & _)%view_member_inv Hrun Hu Hc.
  destruct (run_member s s' _ m Hrun Hint Hm) as [Hm' _].
  destruct (int_member _ Hint _ _ Hm) as [row Hrow]. cbn in Hrow.
  destruct (run_community s s' cid row Hrun Hint Hrow) as (row' & Hrow' & _).
  rewrite joinCommunity_admission. unfold joinAdmission.
  rewrite Hu, Hc, Hrow', Hm'.
  rewrite (bool_decide_eq_true_2 (is_Some (Some m))) by by eexists.
  split.
  - destruct (negb _); by eexists.
  - intros ->. by rewrite bool_decide_eq_true_2.
Qed.

(** X23: a community name is taken for good: once a community has a name, every
    later request to create a community whose trimmed name is this one is
    refused and changes nothing; a valid one gets the 409. *)
Theorem community_name_stays_taken (s s' : Platform) (cid : string)
    (row : CommunityRow) (g : CommunityGenerated) (req : CommunityRequest) :
  Integrity s ->
  pf_community s !! cid = Some row ->
  rtc routed s s' ->
  trim (cq_name req) = co_name row ->
  (exists e, createCommunity g req s' = (inl e, s'))
  /\ (communityValidation req = [] ->
      createCommunity g req s'
      = (inl (Routed (ApiError 409 "Community name already exists" [])), s')).
Proof.
  intros Hint Hrow Hrun Hname.
  destruct (run_community s s' cid row Hrun Hint Hrow) as (row' & Hrow' & Hn & _).
  assert (Htaken : community_named (trim (cq_name req)) s' = true).
  { unfold community_named. apply bool_decide_eq_true. exists cid, row'.
    split; [done|congruence]. }
  unfold createCommunity. rewrite bindA_throwIfA.
  split.
  - destruct (negb _); [by eexists|].
    rewrite bindA_getsA, bindA_throwIfA, Htaken. by eexists.
  - intros ->. rewrite bool_decide_eq_true_2 by done. cbn [negb].
    by rewrite bindA_getsA, bindA_throwIfA, Htaken.
Qed.

(** X24: the books of the router: along every run, [memberCount] of every
    community is the number of its memberships, and no two communities
    share a name. *)
Theorem memberCount_counts_members (s s' : Platform) :
  Sound s ->
  rtc routed s s' ->
  (forall cid row, pf_community s' !! cid = Some row ->
     co_memberCount row = Z.of_nat (length (membersOf cid s')))
  /\ (forall cid cid' row row',
        pf_community s' !! cid = Some row -> pf_community s' !! cid' = Some row' ->
        co_name row = co_name row' -> cid = cid').
Proof.
  intros Hsound Hrun. pose proof (run_Sound _ _ Hrun Hsound) as Hs'.
  split; [apply (sound_counted _ Hs')|apply (sound_names _ Hs')].
Qed.

Lemma membersOf_key s cid uid m :
  pf_communityMember s !! (uid, cid) = Some m ->
  (uid, cid) ∈ fst <$> membersOf cid s.
Proof.
  intros Hm. apply list_elem_of_fmap. exists ((uid, cid), m). split; [done|].
  unfold membersOf. apply list_elem_of_In, filter_In. split.
  - apply list_elem_of_In. by apply elem_of_map_to_list.
  - cbn. apply String.eqb_refl.
Qed.

(** X25: the votes on a proposal are fewer than the members of its community:
    the owner is a member and cannot vote.  So along every run no proposal
    reaches a participation of all members. *)
Theorem votes_stay_below_member_count (s s' : Platform) (pid : string)
    (p : Proposal) (row : CommunityRow) :
  Sound s ->
  rtc routed s s' ->
  pf_proposal s' !! pid = Some p ->
  pf_community s' !! communityId p = Some row ->
  totalVotes p < co_memberCount row.
Proof.
  intros Hsound Hrun Hp Hrow.
  destruct (run_Sound _ _ Hrun Hsound) as [Hint _ Hcounted _ Howners Hvoters Honce Hcount].
  destruct Hcount as [_ Htotal]. rewrite (Htotal pid p Hp).
  rewrite (Hcounted _ _ Hrow).
  set (cid := communityId p) in *.
  set (L := votesOn pid (view s')).
  set (keys := (fun v => (userId v, cid)) <$> L).
  destruct (Howners cid row Hrow) as (m0 & Hm0 & Hperm0).
  assert (HL : forall v, v ∈ L -> v ∈ pf_proposalVote s' /\ proposalId v = pid).
  { intros v Hv. unfold L, votesOn in Hv.
    apply list_elem_of_filter in Hv as [Hpid Hv]. done. }
  assert (Hmember : forall v, v ∈ L ->
            exists m, pf_communityMember s' !! (userId v, cid) = Some m
                      /\ hasPermission "VOTE" (included s' m) = true).
  { intros v [Hv Hpid]%HL. destruct (Hvoters v Hv) as (p' & m & Hp' & Hm & Hperm).
    rewrite Hpid, Hp in Hp'. injection Hp' as <-. by exists m. }
  assert (Hnd : NoDup ((co_ownerId row, cid) :: keys)).
  { apply NoDup_cons. split.
    - intros (v & Heq & Hv)%list_elem_of_fmap. injection Heq as Heq.
      destruct (Hmember v Hv) as (m & Hm & Hperm).
      rewrite <- Heq, Hm0 in Hm. injection Hm as <-. congruence.
    - unfold keys.
      replace ((fun v => (userId v, cid)) <$> L)
        with ((fun a : string * string => (snd a, cid))
                <$> ((fun v => (proposalId v, userId v)) <$> L))
        by (by rewrite <- list_fmap_compose).
      apply NoDup_fmap_2_strong.
      + intros a b (v & -> & [_ Hv]%HL)%list_elem_of_fmap
                   (w & -> & [_ Hw]%HL)%list_elem_of_fmap. cbn.
        intros [= Heq]. by rewrite Hv, Hw, Heq.
      + unfold L, votesOn. unfold OneVoteEach in Honce.
        eapply sublist_NoDup; [exact Honce|].
        apply fmap_sublist, sublist_filter. }
  assert (Hsub : forall k, k ∈ (co_ownerId row, cid) :: keys ->
                           k ∈ fst <$> membersOf cid s').
  { intros k [->|Hk]%elem_of_cons.
    - by eapply membersOf_key.
    - apply list_elem_of_fmap in Hk as (v & -> & Hv).
      destruct (Hmember v Hv) as (m & Hm & _). by eapply membersOf_key. }
  pose proof (submseteq_length _ _ (NoDup_submseteq _ _ Hnd Hsub)) as Hlen.
  cbn [length] in Hlen. unfold keys in Hlen. rewrite !length_fmap in Hlen.
  fold L. lia.
Qed.

(** X26: [requirePermissions] and the vote route disagree on the owner: at every
    later state of a run, the creator of a community passes every
    requirement of [requirePermissions] in it, the permission to vote
    included, which the vote route refuses; a user who joined passes a
    requirement exactly when it asks for nothing but POST, COMMENT and
    VOTE. *)
Theorem requirePermissions_owner_and_joiner (g : CommunityGenerated)
    (req : CommunityRequest) (s s1 s2 s3 : Platform) (cid : string)
    (row : CommunityRow) (jg : JoinGenerated) (jreq : JoinRequest)
    (jresp : JoinResponse) (perms : list string) :
  Sound s -> FreshIds g s ->
  createCommunity g req s = (inr (cid, row), s1) ->
  jq_communityId jreq = cid ->
  joinCommunity jg jreq s1 = (inr jresp, s2) ->
  rtc routed s2 s3 ->
  requirePermissions perms (fst (cq_user req)) cid s3 = None
  /\ (requirePermissions perms (fst (jq_user jreq)) cid s3 = None
      <-> forall perm, perm ∈ perms -> perm ∈ ["POST"; "COMMENT"; "VOTE"]).
Proof.
  intros Hsound Hfresh Hcreate Hcid Hjoin Hrun.
  pose proof (sound_integrity _ Hsound) as Hint.
  pose proof (routed_create g req s Hfresh) as Hr1.
  rewrite createCommunity_admission in Hcreate, Hr1 by done.
  destruct (communityAdmission g req s) as [e|row'] eqn:Ha; [done|].
  injection Hcreate as <- <- <-. cbn [snd] in Hr1.
  pose proof (routed_Sound _ _ Hr1 Hsound) as Hsound1.
  pose proof (sound_integrity _ Hsound1) as Hint1.
  apply communityAdmission_inr in Ha as (_ & _ & _ & Howner & _).
  destruct (joined_roles jg jreq _ s2 s3 jresp Hsound1 Hjoin Hrun)
    as (jrow & Hjrow & Hjkey & Hsound2 & Hsound3 & Hjview).
  pose proof (routed_join jg jreq (founded g req row' s)) as Hr2.
  rewrite Hjoin in Hr2. cbn [snd] in Hr2.
  assert (Hrun13 : rtc routed (founded g req row' s) s3) by by eapply rtc_l.
  destruct (run_community _ s3 (cg_communityId g) row' Hrun13 Hint1)
    as (row3 & Hrow3 & _ & Howner3 & _); [apply lookup_insert_eq|].
  destruct (run_member _ s3 (fst (cq_user req), cg_communityId g)
              {| me_id := cg_memberId g; me_status := "ACTIVE";
                 me_joinedAt := cg_joinedAt g |} Hrun13 Hint1) as [Hm3 _];
    [apply lookup_insert_eq|].
  split.
  - unfold requirePermissions. rewrite Hm3, Hrow3, Howner3, Howner.
    by rewrite String.eqb_refl.
  - apply view_member_inv in Hjview as (jm & Hjm & Hjinc).
    rewrite Hcid in Hjm.
    assert (Hroles : rolesOf s3 (me_id jm)
              = [{| role := {| permissions := ["POST"; "COMMENT"; "VOTE"] |} |}]).
    { unfold included in Hjinc. by injection Hjinc as _ <-. }
    assert (Hother : String.eqb (co_ownerId row3) (fst (jq_user jreq)) = false).
    { apply String.eqb_neq. intros Heq. rewrite Howner3, Howner in Heq.
      rewrite <- Heq, Hcid in Hjkey. unfold founded in Hjkey.
      cbn [pf_communityMember] in Hjkey. by rewrite lookup_insert_eq in Hjkey. }
    unfold requirePermissions. rewrite Hjm, Hrow3, Hother, Hroles.
    cbn [foldl role permissions app].
    destruct (forallb _ perms) eqn:Hall; cbn [negb].
    + split; [|done]. intros _ perm Hperm.
      rewrite forallb_forall in Hall.
      apply list_elem_of_In, Hall in Hperm. by apply bool_decide_eq_true in Hperm.
    + split; [done|]. intros Hin. apply not_true_iff_false in Hall.
      destruct Hall. apply forallb_forall. intros perm Hperm.
      apply bool_decide_eq_true, Hin. by apply list_elem_of_In.
Qed.

(** X27: a payment is never checked: the join route looks at the transaction
    hash of a token-gated community only to see that there is one, and at
    the NFT of an NFT-gated one not at all.  So after one user joined, any
    other user who is no member joins with the same request body, the same
    hash included; for an NFT-gated community this user needs the Web3
    verification, and nothing more. *)
Theorem payment_hash_is_reusable (g1 g2 : JoinGenerated) (req1 req2 : JoinRequest)
    (s s1 : Platform) (resp1 : JoinResponse) :
  joinCommunity g1 req1 s = (inr resp1, s1) ->
  jq_communityId req2 = jq_communityId req1 ->
  jq_paymentTxHash req2 = jq_paymentTxHash req1 ->
  pf_communityMember s1 !! (fst (jq_user req2), jq_communityId req2) = None ->
  member_with_id (jg_memberId g2) s1 = false ->
  (forall row, pf_community s !! jq_communityId req1 = Some row ->
     co_type row = "NFT_GATED" -> isWeb3Verified (snd (jq_user req2)) = true) ->
  exists resp2 row1,
    pf_community s1 !! jq_communityId req1 = Some row1
    /\ joinCommunity g2 req2 s1 = (inr resp2, joined g2 req2 row1 s1).
Proof.
  intros Hjoin Hcid Hhash Hkey Hid Hnft.
  rewrite joinCommunity_admission in Hjoin.
  destruct (joinAdmission g1 req1 s) as [e|row] eqn:Ha; [done|].
  injection Hjoin as _ <-.
  apply joinAdmission_inr in Ha as (Hrow & _ & _ & Hvalid & Htoken & _).
  exists {| joined_status := "ACTIVE"; joined_joinedAt := jg_joinedAt g2;
            joined_role := "Member" |}, (incrementMemberCount row).
  assert (Hrow1 : pf_community (joined g1 req1 row s) !! jq_communityId req1
                  = Some (incrementMemberCount row)) by apply lookup_insert_eq.
  split; [done|].
  rewrite joinCommunity_admission. unfold joinAdmission.
  assert (Hvalid2 : joinValidation req2 = []).
  { unfold joinValidation in *. by rewrite Hcid, Hhash. }
  rewrite Hvalid2, Hcid, Hrow1. rewrite Hcid in Hkey. rewrite Hkey, Hid, Hhash.
  rewrite (bool_decide_eq_true_2 ([] = [])) by done.
  rewrite (bool_decide_eq_false_2 (is_Some None)) by (by intros [? ?]).
  cbn [negb incrementMemberCount co_type].
  destruct (String.eqb (co_type row) "TOKEN_GATED") eqn:Ht.
  { apply String.eqb_eq in Ht. rewrite (Htoken Ht). cbn [andb].
    destruct (String.eqb (co_type row) "NFT_GATED") eqn:Hn; [|done].
    apply String.eqb_eq in Hn. congruence. }
  cbn [andb].
  destruct (String.eqb (co_type row) "NFT_GATED") eqn:Hn; [|done].
  apply String.eqb_eq in Hn. by rewrite (Hnft row Hrow Hn).
Qed.

End CommunityProperties.

(** * The claims on the example community *)

(** Closed goals: evaluate, then conclude. *)
Ltac evaluate :=
  vm_compute;
  first [ reflexivity | exact I | discriminate | (intros ?; discriminate) ].

Lemma ex_db_TallyInv : TallyInv ex_db.
Proof.
  intros pid p Hp. unfold ex_db in Hp. cbn [proposal] in Hp.
  apply lookup_singleton_Some in Hp as [_ <-]. cbn. lia.
Qed.

Lemma ex_db_CountInv : CountInv ex_db.
Proof.
  split.
  - intros v Hv. by apply not_elem_of_nil in Hv.
  - intros pid p Hp. unfold ex_db in Hp. cbn [proposal] in Hp.
    by apply lookup_singleton_Some in Hp as [_ <-].
Qed.

Lemma ex_two_run : rtc (step (EV:=asciiValidator)) ex_db ex_two.
Proof. apply castVotes_run with (ex_yes ["1"; "2"]). evaluate. Qed.

Lemma ex_passed_run : rtc (step (EV:=asciiValidator)) ex_db ex_passed.
Proof. apply castVotes_run with (ex_yes ["1"; "2"; "3"; "4"; "5"]). evaluate. Qed.

(** C1, counterexample: member 1 has a recorded vote on the proposal, which
    the fifth yes vote made PASSED; a further vote of member 1 is answered
    by the status guard, with ProposalNotActive and not DuplicateVote. *)
Lemma revote_on_passed_proposal :
  hasVoted ex_proposal (ex_user "1") ex_passed
  /\ castVote (EV:=asciiValidator) 2000 2000 (ex_vote "1" (JBool true)) ex_passed
     = (inl ProposalNotActive, ex_passed)
  /\ ProposalNotActive <> DuplicateVote.
Proof.
  split; [|split].
  - unfold hasVoted. evaluate.
  - evaluate.
  - discriminate.
Qed.

(** C1 on the store after two yes votes: a second vote of member 1 is a
    DuplicateVote, a first vote of member 3 is recorded once. *)
Lemma castVote_once_per_voter_witness :
  OneVoteEach (snd (castVote (EV:=asciiValidator) 1000 1000
                      (ex_vote "3" (JBool false)) ex_two))
  /\ castVote (EV:=asciiValidator) 1000 1000 (ex_vote "1" (JBool true)) ex_two
     = (inl DuplicateVote, ex_two)
  /\ exists resp db',
      castVote (EV:=asciiValidator) 1000 1000 (ex_vote "3" (JBool false)) ex_two
      = (inr resp, db')
      /\ proposalVote db'
         = proposalVote ex_two ++ [newVote (ex_vote "3" (JBool false)) false 1]
      /\ votesOf ex_proposal (ex_user "3") (proposalVote db')
         = [newVote (ex_vote "3" (JBool false)) false 1].
Proof.
  assert (Hone : OneVoteEach ex_two).
  { apply (bool_decide_unpack _). evaluate. }
  destruct (castVote_once_per_voter (EV:=asciiValidator) 1000 1000
              (ex_vote "3" (JBool false)) ex_two Hone) as (H1 & _ & H3).
  destruct (castVote_once_per_voter (EV:=asciiValidator) 1000 1000
              (ex_vote "1" (JBool true)) ex_two Hone) as (_ & H2 & _).
  split; [exact H1|]. split.
  - refine (proj2 (H2 _) (incrementVotes true 1 (incrementVotes true 1 ex_row))
              _ _ _ _ _); evaluate.
  - apply (H3 (incrementVotes true 1 (incrementVotes true 1 ex_row))
              {| memberCount := 10; votingPower := EQUAL |}).
    apply admission_Accepted. evaluate.
Defined.

(** C2, at the failing input: member 1 votes yes on the fresh proposal; the
    window guard reads the clock at votingEndsAt, the resolution check one
    millisecond later.  The vote is recorded (one vote of ten members, quorum
    50 unmet) and the stored status stays ACTIVE, where the reference policy
    gives FAILED for that tally at that time. *)
Theorem castVote_strands_inquorate_proposal :
  let p1 := incrementVotes true 1 ex_row in
  exists resp db',
    castVote (EV:=asciiValidator) 3600000 3600001 (ex_vote "1" (JBool true)) ex_db
    = (inr resp, db')
    /\ proposal db' !! ex_proposal = Some p1
    /\ status p1 = ACTIVE
    /\ Spec.resolve 3600001 10 p1 = FAILED.
Proof.
  intros p1. do 2 eexists. split; [|split; [|split]].
  - rewrite castVote_admission.
    replace (admission 3600000 (ex_vote "1" (JBool true)) ex_db)
      with (inr (B:=Proposal * Community * bool) (A:=Thrown)
              (ex_row, {| memberCount := 10; votingPower := EQUAL |}, true))
      by evaluate.
    reflexivity.
  - evaluate.
  - reflexivity.
  - evaluate.
Qed.

(** C3, counterexample: two of ten members have voted (quorum 50 unmet) and
    votingEndsAt has passed; a read returns the proposal with status ACTIVE,
    and the stored status is ACTIVE after the read, not FAILED. *)
Lemma read_leaves_expired_proposal_active :
  let r := getProposals (EV:=asciiValidator) (fun _ => 3600001) ex_list ex_two in
  (exists resp f,
     fst r = inr resp /\ proposals resp = [f] /\ f_id f = ex_proposal
     /\ votingEndsAt (f_proposal f) < 3600001
     /\ status (f_proposal f) = ACTIVE)
  /\ (exists p, proposal (snd r) !! ex_proposal = Some p
                /\ status p = ACTIVE /\ status p <> FAILED).
Proof.
  split.
  - do 2 eexists. split; [evaluate|]. cbn [proposals]. split; [reflexivity|].
    cbn. split; [reflexivity|]. split; [lia|reflexivity].
  - exists (incrementVotes true 1 (incrementVotes true 1 ex_row)).
    split; [evaluate|]. split; [reflexivity|discriminate].
Qed.

(** C3 on the same read: the store is untouched and the expired proposal is
    reported as not active. *)
Lemma getProposals_only_reads_witness :
  snd (getProposals (EV:=asciiValidator) (fun _ => 3600001) ex_list ex_two) = ex_two
  /\ exists f,
      f_id f = ex_proposal
      /\ proposal ex_two !! f_id f = Some (f_proposal f)
      /\ f_timeRemaining f = 0 /\ f_isActive f = false /\ f_canVote f = false.
Proof.
  destruct (getProposals_only_reads (EV:=asciiValidator) (fun _ => 3600001)
              ex_list ex_two) as [Hdb Hrows].
  split; [exact Hdb|].
  pose (x := {| l_id := ex_proposal;
                l_row := incrementVotes true 1 (incrementVotes true 1 ex_row);
                l_votes := [true] |}).
  pose (resp := {| proposals := [formatProposal 3600001 x];
                   pg_page := 1; pg_limit := 10; pg_hasMore := false |}).
  assert (Hr : fst (getProposals (EV:=asciiValidator) (fun _ => 3600001)
                      ex_list ex_two) = inr resp) by evaluate.
  exists (formatProposal 3600001 x).
  destruct (Hrows resp Hr 0%nat (formatProposal 3600001 x) eq_refl) as [Hrow Hexp].
  split; [reflexivity|]. split; [exact Hrow|]. apply Hexp. evaluate.
Defined.

(** C4 on the run of two yes votes: the tallies are balanced after it, and
    none has decreased. *)
Lemma tallies_balanced_and_monotone_witness :
  TallyInv ex_two /\ TallyGrows ex_db ex_two.
Proof.
  destruct (tallies_balanced_and_monotone (EV:=asciiValidator) ex_db ex_two
              ex_db_TallyInv ex_two_run) as (Hinv & Hgrows & _).
  exact (conj Hinv Hgrows).
Defined.

(** C5 on the run of five yes votes: the proposal went from ACTIVE to
    PASSED, and the vote of a sixth member is then ProposalNotActive. *)
Lemma status_forward_only_witness :
  StatusForward ex_db ex_passed
  /\ castVote (EV:=asciiValidator) 2000 2000 (ex_vote "6" (JBool false)) ex_passed
     = (inl ProposalNotActive, ex_passed).
Proof.
  destruct (status_forward_only (EV:=asciiValidator) ex_db ex_passed ex_passed_run)
    as [Hfwd Hterminal].
  split; [exact Hfwd|].
  refine (proj2 (Hterminal 2000 2000 (ex_vote "6" (JBool false))
                   (setStatus PASSED
                      (incrementVotes true 1 (incrementVotes true 1
                         (incrementVotes true 1 (incrementVotes true 1
                            (incrementVotes true 1 ex_row))))))
                   _ _) _ _); evaluate.
Defined.

(** C5, counterexample: on the PASSED proposal a vote of maybe is answered
    by the validation, and a vote that names the proposal under another
    community is answered as not found; neither is ProposalNotActive. *)
Lemma other_answers_on_passed_proposal :
  (exists p, proposal ex_passed !! ex_proposal = Some p /\ status p = PASSED)
  /\ castVote (EV:=asciiValidator) 2000 2000 (ex_vote "6" (JStr "maybe")) ex_passed
     = (inl (ValidationError ["Vote must be true (yes) or false (no)"]), ex_passed)
  /\ ValidationError ["Vote must be true (yes) or false (no)"] <> ProposalNotActive
  /\ castVote (EV:=asciiValidator) 2000 2000
       {| vr_user := ex_user "6"; vr_communityId := ex_proposal;
          vr_proposalId := ex_proposal; vr_vote := JBool true;
          vr_txHash := None |} ex_passed
     = (inl ProposalNotFound, ex_passed)
  /\ ProposalNotFound <> ProposalNotActive.
Proof.
  split; [|split; [|split; [|split]]].
  - eexists. split; [evaluate|reflexivity].
  - evaluate.
  - discriminate.
  - evaluate.
  - discriminate.
Qed.

(** C6 on the example: five yes votes at time 1000, an hour before the end
    of the window. *)
Lemma early_exit_witness :
  Forall (fun call => fst (fst call) <= votingEndsAt ex_row)
    (ex_yes ["1"; "2"; "3"; "4"; "5"])
  /\ exists p',
      proposal ex_passed !! ex_proposal = Some p'
      /\ status p' = PASSED
      /\ yesVotes p' = 5 /\ noVotes p' = 0 /\ totalVotes p' = 5.
Proof.
  apply (early_exit (EV:=asciiValidator) (ex_yes ["1"; "2"; "3"; "4"; "5"])
           ex_db ex_passed ex_proposal ex_row
           {| memberCount := 10; votingPower := EQUAL |}); try evaluate.
  repeat (apply Forall_cons; split; [split; reflexivity|]). apply Forall_nil_2.
Defined.

(** C7, counterexample: the proposal is PASSED and its window is over; the
    vote of a sixth member is answered by the status guard, with
    ProposalNotActive and not VotingWindowClosed. *)
Lemma late_vote_on_passed_proposal :
  (exists p, proposal ex_passed !! ex_proposal = Some p
             /\ votingEndsAt p < 3600001)
  /\ castVote (EV:=asciiValidator) 3600001 3600001 (ex_vote "6" (JBool true))
       ex_passed
     = (inl ProposalNotActive, ex_passed)
  /\ ProposalNotActive <> VotingWindowClosed.
Proof.
  split; [|split].
  - eexists. split; [evaluate|]. cbn. lia.
  - evaluate.
  - discriminate.
Qed.

(** C7 on the store after two yes votes, whose proposal is still ACTIVE: a
    vote after the window is a VotingWindowClosed. *)
Lemma castVote_after_window_witness :
  castVote (EV:=asciiValidator) 3600001 3600001 (ex_vote "6" (JBool true)) ex_two
  = (inl VotingWindowClosed, ex_two).
Proof.
  refine (proj2 (castVote_after_window (EV:=asciiValidator) 3600001 3600001
                   (ex_vote "6" (JBool true)) ex_two
                   (incrementVotes true 1 (incrementVotes true 1 ex_row)) _ _) _ _);
    evaluate.
Defined.

(** C8 on the example: the admin's request is stored with the defaults; one
    hour too many is an InvalidRange, and a plain member is refused. *)
Lemma createProposal_contract_witness :
  (exists resp db',
     createProposal (EV:=asciiValidator) 4000 ex_generated ex_create ex_db
     = (inr resp, db'))
  /\ (exists e,
        createProposal (EV:=asciiValidator) 4000 ex_generated
          {| pr_user := ex_user "0"; pr_communityId := ex_community;
             pr_title := "Plant trees";
             pr_description := "Plant one tree for every member";
             pr_type := "GENERAL"; pr_votingDuration := Some 169;
             pr_requiredQuorum := None; pr_passingThreshold := None;
             pr_gasRequired := None |} ex_db
        = (inl e, ex_db) /\ InvalidRange e)
  /\ (exists e,
        createProposal (EV:=asciiValidator) 4000 ex_generated
          {| pr_user := ex_user "1"; pr_communityId := ex_community;
             pr_title := "Plant trees";
             pr_description := "Plant one tree for every member";
             pr_type := "GENERAL"; pr_votingDuration := Some 24;
             pr_requiredQuorum := None; pr_passingThreshold := None;
             pr_gasRequired := None |} ex_db
        = (inl e, ex_db) /\ PermissionDenied e).
Proof.
  split; [|split].
  - destruct (createProposal_contract (EV:=asciiValidator) 4000 ex_generated
                ex_create ex_db) as (_ & _ & Hok & _).
    apply Hok.
    + evaluate.
    + exists ex_admin. split; evaluate.
    + intros v Hv. discriminate Hv.
    + evaluate.
    + exists {| memberCount := 10; votingPower := EQUAL |}. evaluate.
  - apply (createProposal_contract (EV:=asciiValidator)).
    left. exists 169. cbn. split; [reflexivity|lia].
  - apply (createProposal_contract (EV:=asciiValidator)); [evaluate|].
    intros m. replace (communityMember ex_db !! _) with (Some ex_member) by evaluate.
    intros [= <-]. evaluate.
Defined.

(** C8, counterexample: member 1 has no CREATE_PROPOSALS permission and
    sends a description of five characters; the validation answers first,
    with status 400 and not with a PermissionDenied. *)
Lemma short_description_from_plain_member :
  (forall m, communityMember ex_db !! (ex_user "1", ex_community) = Some m ->
             hasPermission "CREATE_PROPOSALS" m = false)
  /\ createProposal (EV:=asciiValidator) 4000 ex_generated
       {| pr_user := ex_user "1"; pr_communityId := ex_community;
          pr_title := "Plant trees";
          pr_description := "Trees";
          pr_type := "GENERAL"; pr_votingDuration := Some 24;
          pr_requiredQuorum := None; pr_passingThreshold := None;
          pr_gasRequired := None |} ex_db
     = (inl (ValidationError
               ["Description must be between 20 and 2000 characters"]), ex_db)
  /\ ~ PermissionDenied
         (ValidationError ["Description must be between 20 and 2000 characters"]).
Proof.
  split; [|split].
  - intros m. replace (communityMember ex_db !! _) with (Some ex_member) by evaluate.
    intros [= <-]. evaluate.
  - evaluate.
  - intros [].
Qed.



(** C10 on the run of two yes votes: every vote weighs one and the total is
    the number of votes. *)
Lemma every_vote_weighs_one_witness : CountInv ex_two.
Proof.
  exact (proj1 (every_vote_weighs_one (EV:=asciiValidator) ex_db ex_two
                  ex_db_CountInv ex_two_run)).
Defined.

(** * The further properties on examples *)

(** A token error with the code P2002: the rule of the token comes later
    and decides, 401. *)
Lemma errorHandler_last_rule_wins_witness :
  r_status (ex_answer ex_production ex_tokenError) = 401.
Proof.
  exact (errorHandler_last_rule_wins (AE:=ex_apiError) ex_production ex_tokenError
           (ex_answer ex_production ex_tokenError) eq_refl).
Defined.

(** A ValidationError throws without [errors] and with a [null] among
    them, and is answered when they are objects; a message that is a number
    throws. *)
Lemma errorHandler_throws_iff_witness :
  errorHandler (H:=ex_apiError) ex_production (ex_validationError None)
  = inl TypeError
  /\ errorHandler (H:=ex_apiError) ex_production
       (ex_validationError (Some (ex_paths ++ [Primitive JNull])))
     = inl TypeError
  /\ errorHandler (H:=ex_apiError) ex_production ex_numbered = inl TypeError
  /\ r_details (ex_answer ex_production (ex_validationError (Some ex_paths)))
     = Some (Messages [JStr "Path name is required"; JStr "Path age is required"]).
Proof.
  split; [|split; [|split]].
  - apply (errorHandler_throws_iff (AE:=ex_apiError)).
    split; [reflexivity|]. left. split; [reflexivity|]. by left.
  - apply (errorHandler_throws_iff (AE:=ex_apiError)).
    split; [reflexivity|]. left. split; [reflexivity|]. right.
    eexists. split; [reflexivity|]. left.
    rewrite !elem_of_app, list_elem_of_singleton. by right.
  - apply (errorHandler_throws_iff (AE:=ex_apiError)).
    split; [reflexivity|]. right. split; [reflexivity|]. intros m. discriminate.
  - evaluate.
Defined.

(** The error of the driver in production: no stack, and the fixed message
    in place of the one that names the host. *)
Lemma errorHandler_hides_internals_witness :
  r_stack (ex_answer ex_production ex_driverError) = None
  /\ r_message (ex_answer ex_production ex_driverError) = "Internal Server Error".
Proof.
  destruct (errorHandler_hides_internals (AE:=ex_apiError) ex_production ex_driverError
              (ex_answer ex_production ex_driverError) eq_refl) as [Hstack Hmsg].
  split.
  - apply Hstack. discriminate.
  - apply Hmsg; [reflexivity|]. vm_compute. discriminate.
Defined.

(** The second vote of member 1 on the example community: the 409 of the
    vote route reaches the client with its message. *)
Lemma governance_errors_answered_witness :
  exists r,
    errorHandler (H:=ex_apiError) ex_production
      (thrownError (H:=ex_apiError) ex_thrower DuplicateVote) = inr r
    /\ r_status r = 409
    /\ r_message r = "You have already voted on this proposal".
Proof.
  destruct (governance_errors_answered (AE:=ex_apiError) (EV:=asciiValidator)
              ex_production ex_thrower 409
              "You have already voted on this proposal" [])
    as (r & Hr & Hs & _ & Hm & _).
  - repeat split; discriminate.
  - left. exists 1000, 1000, (ex_vote "1" (JBool true)), ex_two, ex_two. evaluate.
  - exists r. by split_and!.
Defined.

Lemma announced_message_is_not_signed_witness :
  announcedMessage ex_nonce1 <> signedMessage ex_nonce1.
Proof. exact (announced_message_is_not_signed ex_nonce1). Defined.

Lemma ex_verifyValid signer n :
  isUUID (ExpressValidator:=asciiValidator) n = true ->
  String.length signer = 42%nat ->
  verifyValid (EV:=asciiValidator) (WL:=ex_libraries) (ex_verify signer n).
Proof.
  intros Hn Hlen. split_and!; [evaluate| |exact Hn].
  cbn [isLength asciiValidator vq_signature ex_verify]. unfold ex_signature.
  rewrite append_length, Hlen. evaluate.
Qed.

Lemma ex_addressLibrary : AddressLibrary (WL:=ex_libraries).
Proof.
  intros a Ha. split; [|reflexivity].
  destruct a as [|a0 [|a1 rest]]; try discriminate Ha.
  cbn [isEthereumAddress ex_libraries is0x40] in Ha.
  apply andb_true_iff in Ha as [Ha _]. apply andb_true_iff in Ha as [Ha _].
  apply andb_true_iff in Ha as [Ha _]. apply Ascii.eqb_eq in Ha. subst a0.
  by eexists.
Qed.

Lemma ex_auth_fresh uuid key entry :
  nonceStore ex_auth !! key = Some entry -> nonce entry <> uuid.
Proof. unfold ex_auth. cbn [nonceStore]. by rewrite lookup_empty. Qed.

(** A second login of the wallet, its address in lower case, after a nonce,
    the login of another wallet, a refused request and a timer: the same
    user, and no new row. *)
Lemma same_wallet_same_user_witness :
  length (users (afterAll (EV:=asciiValidator) (WL:=ex_libraries) ex_events
                   ex_firstLogin)) = 2%nat
  /\ exists u2 s2,
      handleWalletAuthentication (WL:=ex_libraries) 9000 (ex_user "9")
        (toLowerCase ex_address) (ex_signature ex_address) ex_nonce2
        (afterAll (EV:=asciiValidator) (WL:=ex_libraries) ex_events ex_firstLogin)
      = (inr (ex_user "7", u2), s2)
      /\ username u2 = username ex_walletUser
      /\ length (users s2)
         = length (users (afterAll (EV:=asciiValidator) (WL:=ex_libraries)
                            ex_events ex_firstLogin)).
Proof.
  split; [evaluate|].
  apply (same_wallet_same_user (EV:=asciiValidator) (WL:=ex_libraries) 2000
           (ex_user "7") ex_address (ex_signature ex_address) ex_nonce1 ex_auth
           ex_firstLogin (ex_user "7") ex_walletUser ex_events 9000 (ex_user "9")
           (toLowerCase ex_address) (ex_signature ex_address) ex_nonce2).
  - apply NoDup_nil_2.
  - evaluate.
  - evaluate.
  - evaluate.
Defined.

(** The nonce of time 0 is stored under the sanitized address; the request
    that carries it at time 2000, with a signature that verifies, is
    refused, and so is every later one. *)
Lemma wallet_login_never_succeeds_witness :
  nonceStore ex_issued !! String "@" (toLowerCase ex_address)
  = Some {| nonce := ex_nonce1; expires := 300000 |}
  /\ verifyWalletSignature (WL:=ex_libraries) ex_address (ex_signature ex_address)
       ex_nonce1 = true
  /\ walletVerify (EV:=asciiValidator) (WL:=ex_libraries) 2000 2000 (ex_user "7")
       (ex_verify ex_address ex_nonce1) ex_issued
     = (inl invalidNonce, ex_issued)
  /\ users ex_issued = [].
Proof.
  destruct (wallet_login_never_succeeds (EV:=asciiValidator) (WL:=ex_libraries)
              [NonceRequested 0 ex_nonce1 ex_address] ex_auth 2000 2000
              (ex_user "7") (ex_verify ex_address ex_nonce1)
              ex_addressLibrary eq_refl) as (Hrefused & _ & Husers).
  split; [evaluate|]. split; [evaluate|]. split.
  - apply Hrefused. apply ex_verifyValid; reflexivity.
  - apply Husers. reflexivity.
Defined.

(** The nonce is stored under a key that is no address: the request that
    carries it is refused. *)
Lemma nonce_is_keyed_by_sanitized_address_witness :
  walletVerify (EV:=asciiValidator) (WL:=ex_libraries) 2000 2000 (ex_user "7")
    (ex_verify ex_address ex_nonce1) ex_issued
  = (inl invalidNonce, ex_issued).
Proof.
  apply (nonce_is_keyed_by_sanitized_address (EV:=asciiValidator) (WL:=ex_libraries)
           0 ex_nonce1 ex_address ex_auth _
           {| nr_nonce := ex_nonce1; nr_message := announcedMessage ex_nonce1;
              nr_expiresIn := 300000 |}
           2000 2000 (ex_user "7") (ex_verify ex_address ex_nonce1)).
  - evaluate.
  - split_and!; evaluate.
  - intros a' [= <-]. evaluate.
  - evaluate.
Defined.

(** After the second nonce, the store holds it under the sanitized address,
    and the first one is refused. *)
Lemma second_nonce_replaces_first_witness :
  nonceStore ex_reissued !! String "@" (toLowerCase ex_address)
  = Some {| nonce := ex_nonce2; expires := 301000 |}
  /\ walletVerify (EV:=asciiValidator) (WL:=ex_libraries) 2000 2000 (ex_user "7")
       (ex_verify ex_address ex_nonce1) ex_reissued
     = (inl invalidNonce, ex_reissued).
Proof.
  destruct (second_nonce_replaces_first (EV:=asciiValidator) (WL:=ex_libraries)
              0 ex_nonce1 1000 ex_nonce2 ex_address ex_auth ex_issued ex_reissued
              {| nr_nonce := ex_nonce1; nr_message := announcedMessage ex_nonce1;
                 nr_expiresIn := 300000 |}
              {| nr_nonce := ex_nonce2; nr_message := announcedMessage ex_nonce2;
                 nr_expiresIn := 300000 |}
              2000 2000 (ex_user "7") (ex_verify ex_address ex_nonce1))
    as ((a' & Ha' & Hstored) & _ & Hrefused).
  - evaluate.
  - evaluate.
  - discriminate.
  - apply ex_auth_fresh.
  - apply ex_verifyValid; reflexivity.
  - reflexivity.
  - split; [|exact Hrefused]. injection Ha' as <-. exact Hstored.
Defined.

(** The timer of the nonce of time 0 runs at 300000, when the nonce of time
    1000 has a second to live: the nonce is gone, and the request that
    carries it is refused. *)
Lemma early_timer_deletes_later_nonce_witness :
  (exists entry,
     nonceStore ex_reissued !! String "@" (toLowerCase ex_address) = Some entry
     /\ nonce entry = ex_nonce2 /\ 300000 <= expires entry)
  /\ nonceStore (fireTimer 300000 0 ex_reissued)
       !! String "@" (toLowerCase ex_address) = None
  /\ walletVerify (EV:=asciiValidator) (WL:=ex_libraries) 300000 300000 (ex_user "7")
       (ex_verify ex_address ex_nonce2) (fireTimer 300000 0 ex_reissued)
     = (inl invalidNonce, fireTimer 300000 0 ex_reissued).
Proof.
  destruct (early_timer_deletes_later_nonce (EV:=asciiValidator) (WL:=ex_libraries)
              0 ex_nonce1 1000 ex_nonce2 ex_address ex_auth ex_issued ex_reissued
              {| nr_nonce := ex_nonce1; nr_message := announcedMessage ex_nonce1;
                 nr_expiresIn := 300000 |}
              {| nr_nonce := ex_nonce2; nr_message := announcedMessage ex_nonce2;
                 nr_expiresIn := 300000 |}
              300000 300000 (ex_user "7") (ex_verify ex_address ex_nonce2))
    as (a' & Ha' & Hstored & Hgone & Hrefused).
  - evaluate.
  - evaluate.
  - lia.
  - lia.
  - apply ex_auth_fresh.
  - apply ex_verifyValid; reflexivity.
  - reflexivity.
  - injection Ha' as <-. by split_and!.
Defined.

(** Two requests of a, one of b, a third of a that is refused; a minute
    after the first one, a passes again. *)
Lemma rateLimitByUser_sliding_window_witness :
  fst (throughLimiter 2 1
         [(Some "a", 0); (Some "b", 10); (Some "a", 20000); (Some "a", 30000)] ∅)
  = [true; true; true; false]
  /\ fst (rateLimitByUser 2 1 (Some "a") 61000
            (snd (throughLimiter 2 1
                    [(Some "a", 0); (Some "b", 10); (Some "a", 20000);
                     (Some "a", 30000)] ∅)))
     = None.
Proof.
  split; [evaluate|].
  apply (rateLimitByUser_sliding_window 2 1
           [(Some "a", 0); (Some "b", 10); (Some "a", 20000); (Some "a", 30000)]
           "a" 61000).
  - repeat first [ apply SSorted_nil | apply SSorted_cons
                 | apply Forall_nil_2 | apply Forall_cons_2 | done ].
  - evaluate.
Defined.

(** *** The example community *)

Lemma ex_ids_fresh : FreshIds ex_ids emptyPlatform.
Proof. split; try done. Qed.

Lemma ex_founded_is :
  createCommunity (EV:=asciiValidator) (WL:=ex_libraries) (CL:=ex_communityLibraries)
    ex_ids ex_found emptyPlatform
  = (inr (ex_community, ex_archive 1), ex_founded).
Proof. evaluate. Qed.

Lemma ex_founded_Sound : Sound ex_founded.
Proof.
  apply (routed_Sound (EV:=asciiValidator) (WL:=ex_libraries)
           (CL:=ex_communityLibraries) emptyPlatform); [|apply emptyPlatform_Sound].
  exact (routed_create ex_ids ex_found emptyPlatform ex_ids_fresh).
Qed.

Lemma ex_grown_run : rtc ex_routed ex_founded ex_grown.
Proof. apply rtc_once. exact (routed_join ex_joinIds ex_join ex_founded). Qed.

Lemma ex_proposed_run : rtc ex_routed ex_grown ex_proposed.
Proof.
  apply rtc_once. exact (routed_propose 4000 ex_generated ex_create ex_grown).
Qed.

Lemma ex_voted_run : rtc ex_routed ex_proposed ex_voted.
Proof.
  apply rtc_once. exact (routed_vote 5000 5000 (ex_ballot "1") ex_proposed).
Qed.

Lemma ex_run : rtc ex_routed emptyPlatform ex_voted.
Proof.
  eapply rtc_l; [exact (routed_create ex_ids ex_found emptyPlatform ex_ids_fresh)|].
  change (rtc ex_routed ex_founded ex_voted).
  eapply rtc_trans; [apply ex_grown_run|].
  eapply rtc_trans; [apply ex_proposed_run|apply ex_voted_run].
Qed.

Lemma ex_grown_is :
  joinCommunity (EV:=asciiValidator) ex_joinIds ex_join ex_founded
  = (inr {| joined_status := "ACTIVE"; joined_joinedAt := 200;
            joined_role := "Member" |}, ex_grown).
Proof. evaluate. Qed.

(** From the creation of the community to the first vote, the founder is
    found with the Admin role. *)
Lemma memberships_never_change_witness :
  communityMember (view ex_voted) !! (ex_user "0", ex_community)
  = Some {| joinedAt := 100; roles := roles ex_admin |}.
Proof.
  apply (memberships_never_change (EV:=asciiValidator) (WL:=ex_libraries)
           (CL:=ex_communityLibraries) ex_founded ex_voted).
  - apply (sound_integrity _ ex_founded_Sound).
  - eapply rtc_trans; [apply ex_grown_run|].
    eapply rtc_trans; [apply ex_proposed_run|apply ex_voted_run].
  - evaluate.
Defined.

Lemma ex_vaultIds_fresh : FreshIds ex_vaultIds ex_founded.
Proof. split; [evaluate..|split_and!; discriminate]. Qed.

(** The creation on the empty store writes the community with one member,
    the founder as its owner and as a member with the Admin role; a join of
    the empty store is refused and writes nothing; the join of the
    community that was created is written next to its row. *)
Lemma community_routes_write_all_or_nothing_witness :
  (exists row,
     createCommunity (EV:=asciiValidator) (WL:=ex_libraries)
       (CL:=ex_communityLibraries) ex_ids ex_found emptyPlatform
     = (inr (ex_community, row), founded ex_ids ex_found row emptyPlatform)
     /\ co_memberCount row = 1
     /\ co_ownerId row = ex_user "0"
     /\ communityMember (view (founded ex_ids ex_found row emptyPlatform))
          !! (ex_user "0", ex_community)
        = Some {| joinedAt := 100; roles := roles ex_admin |})
  /\ (exists e,
        joinCommunity (EV:=asciiValidator) ex_joinIds ex_join emptyPlatform
        = (inl e, emptyPlatform))
  /\ (exists row resp,
        pf_community ex_founded !! ex_community = Some row
        /\ joinCommunity (EV:=asciiValidator) ex_joinIds ex_join ex_founded
           = (inr resp, joined ex_joinIds ex_join row ex_founded)).
Proof.
  destruct (community_routes_write_all_or_nothing (EV:=asciiValidator)
              (WL:=ex_libraries) (CL:=ex_communityLibraries) ex_ids ex_found
              ex_joinIds ex_join emptyPlatform
              (sound_integrity _ emptyPlatform_Sound) ex_ids_fresh)
    as [Hcreate Hrefused].
  destruct (community_routes_write_all_or_nothing (EV:=asciiValidator)
              (WL:=ex_libraries) (CL:=ex_communityLibraries) ex_vaultIds
              ex_foundVault ex_joinIds ex_join ex_founded
              (sound_integrity _ ex_founded_Sound) ex_vaultIds_fresh)
    as [_ Hjoin].
  split; [|split].
  - destruct Hcreate as [(e & He)|Hwritten]; [|exact Hwritten].
    assert (Hfst : fst (createCommunity (EV:=asciiValidator) (WL:=ex_libraries)
                          (CL:=ex_communityLibraries) ex_ids ex_found emptyPlatform)
                   = inr (ex_community, ex_archive 1)) by evaluate.
    rewrite He in Hfst. discriminate Hfst.
  - destruct Hrefused as [Hrefused|(row & resp & Hrow & _)]; [exact Hrefused|].
    discriminate Hrow.
  - destruct Hjoin as [(e & He)|Hwritten]; [|exact Hwritten].
    assert (Hfst : fst (joinCommunity (EV:=asciiValidator) ex_joinIds ex_join
                          ex_founded)
                   = inr {| joined_status := "ACTIVE"; joined_joinedAt := 200;
                            joined_role := "Member" |}) by evaluate.
    rewrite He in Hfst. discriminate Hfst.
Defined.

(** The founder on the proposal the founder opened: the vote is refused
    with the 403 of the permission check; and the proposal was opened. *)
Lemma creator_proposes_but_never_votes_witness :
  castVote (EV:=asciiValidator) 5000 5000 (ex_ballot "0") (view ex_proposed)
  = (inl (ApiError 403 "You do not have permission to vote" []), view ex_proposed)
  /\ exists resp db',
      createProposal (EV:=asciiValidator) 4000 ex_generated ex_create (view ex_grown)
      = (inr resp, db')
      /\ created resp = ex_opened.
Proof.
  split.
  - destruct (creator_proposes_but_never_votes (EV:=asciiValidator) (WL:=ex_libraries)
                (CL:=ex_communityLibraries) ex_ids ex_found emptyPlatform ex_founded
                ex_proposed ex_community (ex_archive 1)
                emptyPlatform_Sound ex_ids_fresh ex_founded_is) as [Hvote _].
    { eapply rtc_trans; [apply ex_grown_run|apply ex_proposed_run]. }
    apply (proj2 (Hvote 5000 5000 (ex_ballot "0") eq_refl eq_refl) ex_opened);
      evaluate.
  - destruct (creator_proposes_but_never_votes (EV:=asciiValidator) (WL:=ex_libraries)
                (CL:=ex_communityLibraries) ex_ids ex_found emptyPlatform ex_founded
                ex_grown ex_community (ex_archive 1)
                emptyPlatform_Sound ex_ids_fresh ex_founded_is ex_grown_run)
      as [_ Hpropose].
    apply (Hpropose 4000 ex_generated ex_create false); evaluate.
Defined.

(** The reader on the proposal of the founder: the vote is recorded; a
    proposal of the reader is refused with the 403 of the permission check. *)
Lemma joiner_votes_but_never_proposes_witness :
  createProposal (EV:=asciiValidator) 6000
    {| newId := "66666666-6666-4666-8666-666666666666"; newCreatedAt := 6000 |}
    {| pr_user := ex_user "1"; pr_communityId := ex_community;
       pr_title := "Plant trees";
       pr_description := "Plant one tree for every member";
       pr_type := "GENERAL"; pr_votingDuration := Some 24;
       pr_requiredQuorum := None; pr_passingThreshold := None;
       pr_gasRequired := None |} (view ex_proposed)
  = (inl (ApiError 403 "You do not have permission to create proposals" []),
     view ex_proposed)
  /\ exists resp db',
      castVote (EV:=asciiValidator) 5000 5000 (ex_ballot "1") (view ex_proposed)
      = (inr resp, db')
      /\ votesOf (vr_proposalId (ex_ballot "1")) (vr_user (ex_ballot "1"))
           (proposalVote db')
         = [newVote (ex_ballot "1") true 1].
Proof.
  destruct (joiner_votes_but_never_proposes (EV:=asciiValidator) (WL:=ex_libraries)
              (CL:=ex_communityLibraries) ex_joinIds ex_join ex_founded ex_grown
              ex_proposed _ ex_founded_Sound ex_grown_is ex_proposed_run)
    as [Hpropose Hvote].
  split.
  - apply Hpropose; evaluate.
  - apply (Hvote 5000 5000 (ex_ballot "1") ex_opened true); evaluate.
Defined.

(** The reader asks to join once more, after the vote: 409. *)
Lemma members_cannot_join_again_witness :
  joinCommunity (EV:=asciiValidator) {| jg_memberId := "m-2"; jg_joinedAt := 7000 |}
    ex_join ex_voted
  = (inl (Routed (ApiError 409 "Already a member of this community" [])), ex_voted).
Proof.
  refine (proj2 (members_cannot_join_again (EV:=asciiValidator) (WL:=ex_libraries)
                   (CL:=ex_communityLibraries) ex_grown ex_voted (ex_user "1")
                   ex_community
                   {| joinedAt := 200; roles := roles ex_member |}
                   {| jg_memberId := "m-2"; jg_joinedAt := 7000 |} ex_join
                   _ _ _ eq_refl eq_refl) _).
  - apply (sound_integrity _ (run_Sound _ _ ex_grown_run ex_founded_Sound)).
  - evaluate.
  - eapply rtc_trans; [apply ex_proposed_run|apply ex_voted_run].
  - evaluate.
Defined.

(** A second community by the name of the first, after the vote: 409. *)
Lemma community_name_stays_taken_witness :
  createCommunity (EV:=asciiValidator) (WL:=ex_libraries) (CL:=ex_communityLibraries)
    {| cg_communityId := "77777777-7777-4777-8777-777777777777";
       cg_memberId := "m-3"; cg_joinedAt := 8000; cg_adminRoleId := "r-4";
       cg_moderatorRoleId := "r-5"; cg_memberRoleId := "r-6"; cg_treasury := None |}
    {| cq_user := ex_person "1" "reader"; cq_name := "Archive ";
       cq_description := "Another archive"; cq_type := "FREE";
       cq_entryFee := None; cq_requiredNFT := None; cq_votingPower := None |}
    ex_voted
  = (inl (Routed (ApiError 409 "Community name already exists" [])), ex_voted).
Proof.
  refine (proj2 (community_name_stays_taken (EV:=asciiValidator) (WL:=ex_libraries)
                   (CL:=ex_communityLibraries) ex_founded ex_voted ex_community
                   (ex_archive 1) _ _ _ _ _ _) _).
  - apply (sound_integrity _ ex_founded_Sound).
  - evaluate.
  - eapply rtc_trans; [apply ex_grown_run|].
    eapply rtc_trans; [apply ex_proposed_run|apply ex_voted_run].
  - evaluate.
  - evaluate.
Defined.

(** On the example, after the vote: the community counts its two members. *)
Lemma memberCount_counts_members_witness :
  co_memberCount (ex_archive 2) = Z.of_nat (length (membersOf ex_community ex_voted)).
Proof.
  apply (proj1 (memberCount_counts_members (EV:=asciiValidator) (WL:=ex_libraries)
                  (CL:=ex_communityLibraries) emptyPlatform ex_voted
                  emptyPlatform_Sound ex_run) ex_community (ex_archive 2)).
  evaluate.
Defined.

(** On the example, after the vote: one vote, two members. *)
Lemma votes_stay_below_member_count_witness :
  totalVotes ex_counted < co_memberCount (ex_archive 2).
Proof.
  apply (votes_stay_below_member_count (EV:=asciiValidator) (WL:=ex_libraries)
           (CL:=ex_communityLibraries) emptyPlatform ex_voted (newId ex_generated)
           ex_counted (ex_archive 2) emptyPlatform_Sound ex_run); evaluate.
Defined.

(** On the example, after the vote: the founder passes the requirement of
    the permission to vote, and so does the reader; the reader does not pass
    the one to create proposals. *)
Lemma requirePermissions_owner_and_joiner_witness :
  requirePermissions ["VOTE"] (ex_user "0") ex_community ex_voted = None
  /\ requirePermissions ["VOTE"] (ex_user "1") ex_community ex_voted = None.
Proof.
  destruct (requirePermissions_owner_and_joiner (EV:=asciiValidator)
              (WL:=ex_libraries) (CL:=ex_communityLibraries) ex_ids ex_found
              emptyPlatform ex_founded ex_grown ex_voted ex_community (ex_archive 1)
              ex_joinIds ex_join _ ["VOTE"]
              emptyPlatform_Sound ex_ids_fresh ex_founded_is eq_refl ex_grown_is)
    as [Howner Hjoiner].
  { eapply rtc_trans; [apply ex_proposed_run|apply ex_voted_run]. }
  split; [exact Howner|]. apply Hjoiner.
  intros perm ->%list_elem_of_singleton. rewrite !elem_of_cons. auto.
Defined.

(** Two users enter the token-gated community with one transaction hash. *)
Lemma payment_hash_is_reusable_witness :
  co_entryFee <$> pf_community ex_vaultFounded !! ex_vault
  = Some (Some "1000000000000000000")
  /\ exists resp2 row1,
      pf_community ex_vaultPaid !! jq_communityId (ex_pay "1" "reader") = Some row1
      /\ joinCommunity (EV:=asciiValidator)
           {| jg_memberId := "v-2"; jg_joinedAt := 300 |} (ex_pay "2" "writer")
           ex_vaultPaid
         = (inr resp2,
            joined {| jg_memberId := "v-2"; jg_joinedAt := 300 |}
              (ex_pay "2" "writer") row1 ex_vaultPaid).
Proof.
  split; [evaluate|].
  apply (payment_hash_is_reusable (EV:=asciiValidator)
           {| jg_memberId := "v-1"; jg_joinedAt := 200 |}
           {| jg_memberId := "v-2"; jg_joinedAt := 300 |}
           (ex_pay "1" "reader") (ex_pay "2" "writer") ex_vaultFounded ex_vaultPaid
           {| joined_status := "ACTIVE"; joined_joinedAt := 200;
              joined_role := "Member" |}).
  - evaluate.
  - reflexivity.
  - reflexivity.
  - evaluate.
  - evaluate.
  - intros row. replace (pf_community ex_vaultFounded !! _)
      with (Some {| co_name := "Vault"; co_description := "Members pay to enter";
                    co_type := "TOKEN_GATED";
                    co_entryFee := Some "1000000000000000000";
                    co_requiredNFT := None; co_votingPower := "EQUAL";
                    co_treasuryAddress := None; co_ownerId := ex_user "0";
                    co_memberCount := 1 |}) by evaluate.
    intros [= <-]. discriminate.
Defined.
